(** * GarminReport: the resumable harvesting engine of [fetch_garmin_data.py]

    A shallow embedding of the planning, retry, paging, resume and
    bookkeeping code of [fetch_garmin_data.py], together with the properties
    its specification states about it.

    Conventions of the embedding:
    - Python [str] values are byte strings ([string]); JSON-like payloads are
      values of [json] (floating point numbers and [bytes] are left out);
    - a Python [dict] with string keys is an association list in insertion
      order ([dict_get], [dict_set]); the seed-cache dictionary and the files
      of the output directory are finite maps ([gmap]);
    - code that calls the remote service runs in a state-and-exception monad
      over [world]: the state of the service, the log of the remote calls
      made so far, the files on disk and the log of the writes;
    - console output ([print]) is not modelled. *)

From Stdlib Require Import ZArith String Ascii List Lia Bool.
From stdpp Require Import base tactics option list gmap strings pretty sorting.

Local Open Scope string_scope.
Local Open Scope Z_scope.

(** ** Strings *)

Module Str.

(** [c in s] for a one-character [c]. *)
Fixpoint has_char (c : ascii) (s : string) : bool :=
  match s with
  | "" => false
  | String a r => if Ascii.eqb a c then true else has_char c r
  end.

(** [sub in s]. *)
Fixpoint contains (sub s : string) : bool :=
  String.prefix sub s ||
  match s with
  | "" => false
  | String _ r => contains sub r
  end.

(** [s.startswith(p)]. *)
Definition startswith (p s : string) : bool := String.prefix p s.

(** [s.split(c, 1)[1]] when [c] occurs in [s]. *)
Fixpoint after_first (c : ascii) (s : string) : string :=
  match s with
  | "" => ""
  | String a r => if Ascii.eqb a c then r else after_first c r
  end.

(** [s.split(c, 1)[0]]. *)
Fixpoint before_first (c : ascii) (s : string) : string :=
  match s with
  | "" => ""
  | String a r => if Ascii.eqb a c then "" else String a (before_first c r)
  end.

(** [s.rsplit(c, 1)[0]]: everything before the last [c], the whole string
    when [c] does not occur. *)
Fixpoint before_last (c : ascii) (s : string) : string :=
  match s with
  | "" => ""
  | String a r =>
      if Ascii.eqb a c && negb (has_char c r) then ""
      else String a (before_last c r)
  end.

(** [s.split(c)]. *)
Fixpoint split_on (c : ascii) (s : string) : list string :=
  match s with
  | "" => [""]
  | String a r =>
      if Ascii.eqb a c then "" :: split_on c r
      else match split_on c r with
           | [] => [String a ""]
           | w :: ws => String a w :: ws
           end
  end.

(** The ASCII characters that [str.isspace] accepts. *)
Definition is_space (a : ascii) : bool :=
  let n := nat_of_ascii a in
  ((9 <=? n) && (n <=? 13) || (28 <=? n) && (n <=? 32))%nat.

(** [s.strip()] on ASCII text (the white space of other scripts is left
    out). *)
Fixpoint lstrip (s : string) : string :=
  match s with
  | "" => ""
  | String a r => if is_space a then lstrip r else s
  end.

Fixpoint rstrip (s : string) : string :=
  match s with
  | "" => ""
  | String a r =>
      match rstrip r with
      | "" => if is_space a then "" else String a ""
      | r' => String a r'
      end
  end.

Definition strip (s : string) : string := rstrip (lstrip s).

(** [s.isascii()]: every character is below U+0080. *)
Definition isascii (s : string) : bool :=
  forallb (fun a => (nat_of_ascii a <? 128)%nat) (list_ascii_of_string s).

(** [x in l] for a list or a set of strings. *)
Definition mem (x : string) (l : list string) : bool :=
  existsb (String.eqb x) l.

(** [sep.join(l)]. *)
Fixpoint join (sep : string) (l : list string) : string :=
  match l with
  | [] => ""
  | [x] => x
  | x :: r => x +:+ sep +:+ join sep r
  end.

(** [s.zfill(n)] for the unsigned numerals used in dates. *)
Fixpoint zfill_go (n : nat) (s : string) : string :=
  match n with
  | O => s
  | S k => zfill_go k ("0" +:+ s)
  end.
Definition zfill (width : nat) (s : string) : string :=
  zfill_go (width - String.length s) s.

End Str.

(** ** JSON-like values *)

#[local] Set Warnings "-register-all".

Inductive json : Type :=
| JNull
| JBool (b : bool)
| JInt (z : Z)
| JStr (s : string)
| JList (l : list json)
| JDict (d : list (string * json)).

(** Keyword arguments of one remote call: a [dict] from names to values. *)
Abbreviation kwargs := (list (string * json)).

Fixpoint dict_get {A} (k : string) (d : list (string * A)) : option A :=
  match d with
  | [] => None
  | (k', v) :: r => if String.eqb k' k then Some v else dict_get k r
  end.

(** [d[k] = v]: update in place, or append a new key. *)
Fixpoint dict_set {A} (k : string) (v : A) (d : list (string * A)) : list (string * A) :=
  match d with
  | [] => [(k, v)]
  | (k', v') :: r =>
      if String.eqb k' k then (k', v) :: r else (k', v') :: dict_set k v r
  end.

(** Python truthiness. *)
Definition truthy (v : json) : bool :=
  match v with
  | JNull => false
  | JBool b => b
  | JInt z => negb (z =? 0)
  | JStr s => negb (String.eqb s "")
  | JList l => match l with [] => false | _ => true end
  | JDict d => match d with [] => false | _ => true end
  end.

(** [isinstance(v, int)]: a [bool] is an [int] in Python. *)
Definition as_int (v : json) : option Z :=
  match v with
  | JInt z => Some z
  | JBool b => Some (Z.b2z b)
  | _ => None
  end.

(** ** Tables of the module *)

Definition ID_PARAM_TO_SEED_KEY : list (string * string) :=
  [ ("activity_id", "activity_ids");
    ("workout_id", "workout_ids");
    ("scheduled_workout_id", "scheduled_workout_ids");
    ("device_id", "device_ids");
    ("userProfileNumber", "user_profile_numbers");
    ("gearUUID", "gear_uuids");
    ("plan_id", "plan_ids") ].

Definition SPECIAL_METHODS : list string :=
  [ "get_lactate_threshold"; "get_goals"; "get_race_predictions";
    "get_progress_summary_between_dates" ].

Definition EXCLUDED_METHODS : list string :=
  [ "get_stats"; "get_stress_data"; "get_activities_by_date" ].

(** ** Classification of a method by its signature *)

Inductive call_type : Type :=
| noarg | daily | date_range | weekly | paged | id_based | download
| special | unsupported.

Definition parse_signature_params (signature : string) : list string :=
  if negb (Str.has_char "(" signature) || negb (Str.has_char ")" signature)
  then []
  else
    let inside := Str.strip (Str.before_last ")" (Str.after_first "(" signature)) in
    if String.eqb inside "" then []
    else
      flat_map
        (fun part =>
           let token := Str.strip part in
           if String.eqb token "" then []
           else
             let name := Str.strip (Str.before_first "=" token) in
             if String.eqb name "" then [] else [name])
        (Str.split_on "," inside).

Definition classify_call_type (method_name signature : string) : call_type :=
  let params := parse_signature_params signature in
  if Str.startswith "download_" method_name then download
  else if Str.mem method_name SPECIAL_METHODS then special
  else if match params with [] => true | _ => false end then noarg
  else if Str.startswith "get_weekly_" method_name || Str.mem "weeks" params then weekly
  else if Str.mem "cdate" params || Str.mem "fordate" params then daily
  else if Str.mem "start" params && Str.mem "limit" params then paged
  else if Str.mem "startdate" params || Str.mem "enddate" params
          || Str.mem "start_date" params || Str.mem "end_date" params then date_range
  else if existsb (fun p => Str.mem p params) (map fst ID_PARAM_TO_SEED_KEY) then id_based
  else special.

(** ** Results and exceptions *)

(** An exception is either what a remote call raised (only its text,
    [str(exc)], is ever inspected) or one raised by the harvesting code and
    the Python library under it. *)
Inductive exn : Type :=
| RemoteError (text : string)
| LocalError (kind text : string).

Definition exn_str (e : exn) : string :=
  match e with
  | RemoteError t => t
  | LocalError _ t => t
  end.

(** The result of a computation: a value, an exception, or [OutOfFuel] when a
    loop of the source has not ended within the fuel of the embedding. *)
Inductive res (A : Type) : Type :=
| Ok (a : A)
| Raise (e : exn)
| OutOfFuel.
Arguments Ok {A} a.
Arguments Raise {A} e.
Arguments OutOfFuel {A}.

#[global] Instance res_ret : MRet res := fun _ a => Ok a.
#[global] Instance res_bind : MBind res := fun _ _ f m =>
  match m with
  | Ok a => f a
  | Raise e => Raise e
  | OutOfFuel => OutOfFuel
  end.

(** ** Calendar dates ([datetime.date]) *)

Record date : Type := mk_date { d_year : Z; d_month : Z; d_day : Z }.

Definition is_leap (y : Z) : bool :=
  (y mod 4 =? 0) && (negb (y mod 100 =? 0) || (y mod 400 =? 0)).

Definition month_length (leap : bool) (m : Z) : Z :=
  if m =? 2 then (if leap then 29 else 28)
  else if (m =? 4) || (m =? 6) || (m =? 9) || (m =? 11) then 30
  else 31.

Definition days_in_month (y m : Z) : Z := month_length (is_leap y) m.

(** An argument that fits the C [int] that [date] reads it into. *)
Definition fits_int (v : Z) : bool :=
  (-2147483648 <=? v) && (v <=? 2147483647).

(** [date(y, m, d)]: the arguments are read as C integers, then checked. *)
Definition date_new (y m d : Z) : res date :=
  if fits_int y && fits_int m && fits_int d then
    if (1 <=? y) && (y <=? 9999) && (1 <=? m) && (m <=? 12)
       && (1 <=? d) && (d <=? days_in_month y m)
    then Ok (mk_date y m d)
    else Raise (LocalError "ValueError" "date value out of range")
  else Raise (LocalError "OverflowError" "Python int too large to convert to C int").

(** The day after [dt]. *)
Definition next_day (dt : date) : date :=
  if d_day dt <? days_in_month (d_year dt) (d_month dt)
  then mk_date (d_year dt) (d_month dt) (d_day dt + 1)
  else if d_month dt <? 12
       then mk_date (d_year dt) (d_month dt + 1) 1
       else mk_date (d_year dt + 1) 1 1.

(** [a <= b] on dates. *)
Definition date_leb (a b : date) : bool :=
  (d_year a <? d_year b)
  || ((d_year a =? d_year b)
      && ((d_month a <? d_month b)
          || ((d_month a =? d_month b) && (d_day a <=? d_day b)))).

(** [dt + timedelta(days=n)] for [n >= 0]; dates end with year 9999. *)
Definition add_days (dt : date) (n : nat) : res date :=
  let r := Nat.iter n next_day dt in
  if d_year r <=? 9999 then Ok r
  else Raise (LocalError "OverflowError" "date value out of range").

(** [min(a, b)] on dates. *)
Definition date_min (a b : date) : date :=
  if date_leb a b then a else b.

(** [dt.isoformat()]. *)
Definition isoformat (dt : date) : string :=
  Str.zfill 4 (pretty (d_year dt)) +:+ "-" +:+
  Str.zfill 2 (pretty (d_month dt)) +:+ "-" +:+
  Str.zfill 2 (pretty (d_day dt)).

Definition digit (a : ascii) : option Z := Z.of_nat <$> Ascii.is_nat a.

(** The month field of [strptime]: [1[0-2]|0[1-9]|[1-9]]. *)
Definition parse_month (s : string) : option Z :=
  match s with
  | String a "" =>
      match digit a with
      | Some v => if 1 <=? v then Some v else None
      | None => None
      end
  | String a (String b "") =>
      match digit a, digit b with
      | Some 1, Some v => if v <=? 2 then Some (10 + v) else None
      | Some 0, Some v => if 1 <=? v then Some v else None
      | _, _ => None
      end
  | _ => None
  end.

(** The day field of [strptime]: [3[01]|[12]\d|0[1-9]|[1-9]| [1-9]]. *)
Definition parse_day (s : string) : option Z :=
  match s with
  | String a "" =>
      match digit a with
      | Some v => if 1 <=? v then Some v else None
      | None => None
      end
  | String a (String b "") =>
      match digit b with
      | Some v =>
          if Ascii.eqb a " " then (if 1 <=? v then Some v else None)
          else match digit a with
               | Some 3 => if v <=? 1 then Some (30 + v) else None
               | Some 2 => Some (20 + v)
               | Some 1 => Some (10 + v)
               | Some 0 => if 1 <=? v then Some v else None
               | _ => None
               end
      | None => None
      end
  | _ => None
  end.

(** [datetime.strptime(s, "%Y-%m-%d").date()] on ASCII text. *)
Definition strptime_ymd (s : string) : res date :=
  let bad := Raise (LocalError "ValueError" "time data does not match format") in
  match s with
  | String a (String b (String c (String d (String "-" rest)))) =>
      match digit a, digit b, digit c, digit d with
      | Some va, Some vb, Some vc, Some vd =>
          if Str.has_char "-" rest then
            match parse_month (Str.before_first "-" rest),
                  parse_day (Str.after_first "-" rest) with
            | Some m, Some dd =>
                date_new (1000 * va + 100 * vb + 10 * vc + vd) m dd
            | _, _ => bad
            end
          else bad
      | _, _, _, _ => bad
      end
  | _ => bad
  end.

(** The generator [iter_year_dates], read to its end by [list(...)]. *)
Fixpoint iter_dates_loop (fuel : nat) (current end_ : date) : res (list string) :=
  match fuel with
  | O => OutOfFuel
  | S fuel' =>
      if date_leb current end_ then
        nxt ← add_days current 1;
        rest ← iter_dates_loop fuel' nxt end_;
        mret (isoformat current :: rest)
      else mret []
  end.

Definition iter_year_dates (year : Z) : res (list string) :=
  current ← date_new year 1 1;
  end_ ← date_new year 12 31;
  iter_dates_loop 367 current end_.

(** [chunk_date_range]: the loop on dates, then the function on ISO text.
    With [max_days <= 0] the loop of the source, once entered, steps back
    in time and ends with the [OverflowError] of a date before 0001-01-01;
    with [max_days = 0] and a later start it stays where it is. *)
Fixpoint chunk_loop (fuel : nat) (current end_dt : date) (max_days : Z)
  : res (list (date * date)) :=
  match fuel with
  | O => OutOfFuel
  | S fuel' =>
      if date_leb current end_dt then
        far ← add_days current (Z.to_nat (max_days - 1));
        let chunk_end := date_min far end_dt in
        nxt ← add_days chunk_end 1;
        rest ← chunk_loop fuel' nxt end_dt max_days;
        mret ((current, chunk_end) :: rest)
      else mret []
  end.

(** Days from 0001-01-01 to [dt] ([date.toordinal]); it bounds the loop. *)
Definition days_before_year (y : Z) : Z :=
  let p := y - 1 in p * 365 + p / 4 - p / 100 + p / 400.

Fixpoint days_before_month_go (leap : bool) (m : nat) : Z :=
  match m with
  | O => 0
  | S k => days_before_month_go leap k + month_length leap (Z.of_nat (S k))
  end.

Definition toordinal (dt : date) : Z :=
  days_before_year (d_year dt)
  + days_before_month_go (is_leap (d_year dt)) (Z.to_nat (d_month dt - 1))
  + d_day dt.

Definition chunk_date_range (start_iso end_iso : string) (max_days : Z)
  : res (list (string * string)) :=
  start_dt ← strptime_ymd start_iso;
  end_dt ← strptime_ymd end_iso;
  if max_days <=? 0 then
    if date_leb start_dt end_dt then
      if (max_days <? 0)
         || ((d_year start_dt =? 1) && (d_month start_dt =? 1) && (d_day start_dt =? 1))
      then Raise (LocalError "OverflowError" "date value out of range")
      else OutOfFuel
    else mret []
  else
    chunks ← chunk_loop (Z.to_nat (toordinal end_dt - toordinal start_dt + 2))
                        start_dt end_dt max_days;
    mret (map (fun c => (isoformat (fst c), isoformat (snd c))) chunks).

(** ** Canonical request keys ([json.dumps] with sorted keys) *)

Definition quote_char : ascii := "034"%char.
Definition backslash : ascii := "092"%char.

Definition hex_digit (n : nat) : ascii :=
  nth n (list_ascii_of_string "0123456789abcdef") "0"%char.

(** The escape of one character inside a JSON string ([ensure_ascii=False]). *)
Definition escape_char (c : ascii) : string :=
  let n := nat_of_ascii c in
  if (n =? 34)%nat then String backslash (String quote_char "")
  else if (n =? 92)%nat then String backslash (String backslash "")
  else if (n =? 10)%nat then String backslash "n"
  else if (n =? 13)%nat then String backslash "r"
  else if (n =? 9)%nat then String backslash "t"
  else if (n =? 8)%nat then String backslash "b"
  else if (n =? 12)%nat then String backslash "f"
  else if (n <? 32)%nat then
    String backslash
      (String "u" (String "0" (String "0"
         (String (hex_digit (n / 16)) (String (hex_digit (n mod 16)) "")))))
  else String c "".

Fixpoint escape (s : string) : string :=
  match s with
  | "" => ""
  | String c r => escape_char c +:+ escape r
  end.

Definition json_quote (s : string) : string :=
  String quote_char (escape s +:+ String quote_char "").

(** Keys of a dict are distinct, so sorting the items is sorting the keys. *)
Definition key_le (a b : string * string) : Prop := String.le a.1 b.1.
#[global] Instance key_le_dec : RelDecision key_le.
Proof. intros a b. unfold key_le. apply _. Defined.

Definition dumps_item (kv : string * string) : string :=
  json_quote kv.1 +:+ ":" +:+ kv.2.

(** [json.dumps(v, ensure_ascii=False, sort_keys=True, separators=(",", ":"))]. *)
Fixpoint json_dumps (v : json) : string :=
  match v with
  | JNull => "null"
  | JBool b => if b then "true" else "false"
  | JInt z => pretty z
  | JStr s => json_quote s
  | JList l => "[" +:+ Str.join "," (map json_dumps l) +:+ "]"
  | JDict d =>
      "{" +:+
      Str.join ","
        (map dumps_item
           (merge_sort key_le
              (map (fun kv => match kv with (k, x) => (k, json_dumps x) end) d)))
      +:+ "}"
  end.

Definition request_key (kw : kwargs) : string := json_dumps (JDict kw).

(** ** Envelopes, manifests and files *)

Inductive status : Type := pending | success | partial | failed | skipped.

Record stats : Type := mk_stats {
  attempted_calls : nat;
  success_calls : nat;
  failed_calls : nat;
  duration_seconds : Z    (* clock ticks; the rounding of seconds is left out *)
}.

Record data_item : Type := mk_data { di_request : kwargs; di_response : json }.

(** An error entry; the entry of a skip reason or of an unexpected exception
    has no request. *)
Record error_item : Type := mk_error { ei_request : option kwargs; ei_error : string }.

Record envelope : Type := mk_envelope {
  env_method : string;
  env_section : string;
  env_year : Z;
  env_call_type : call_type;
  env_status : status;
  env_request_args : list kwargs;
  env_data : list data_item;
  env_errors : list error_item;
  env_stats : stats
}.

Record method_spec : Type := mk_spec {
  ms_section : string;
  ms_section_slug : string;
  ms_method : string;
  ms_signature : string
}.

(** The files under [output_root]: one envelope per (year, section slug,
    method) and one manifest per year. *)
Inductive path : Type :=
| EnvelopePath (year : Z) (section_slug method : string)
| ManifestPath (year : Z).

#[global] Instance path_eq_dec : EqDecision path.
Proof. solve_decision. Defined.
#[global] Instance path_countable : Countable path.
Proof.
  refine (inj_countable'
            (fun p => match p with
                      | EnvelopePath y s m => inl (y, s, m)
                      | ManifestPath y => inr y
                      end)
            (fun x => match x with
                      | inl (y, s, m) => EnvelopePath y s m
                      | inr y => ManifestPath y
                      end) _).
  intros []; reflexivity.
Defined.

Definition path_year (p : path) : Z :=
  match p with
  | EnvelopePath y _ _ => y
  | ManifestPath y => y
  end.

Record manifest_item : Type := mk_item {
  mi_method : string;
  mi_section : string;
  mi_section_slug : string;
  mi_call_type : call_type;
  mi_status : status;
  mi_output_file : path;
  mi_stats : stats;
  mi_error_count : nat
}.

Record status_counts : Type := mk_counts {
  n_success : nat; n_partial : nat; n_failed : nat; n_skipped : nat; n_pending : nat
}.

(** The manifest ([generated_at], the wall-clock time, is left out). *)
Record manifest : Type := mk_manifest {
  mf_year : Z;
  mf_total_methods : nat;
  mf_status_counts : status_counts;
  mf_methods : list manifest_item
}.

(** What a file holds: an envelope, a manifest, or text that does not parse
    to a JSON object. *)
Inductive file : Type :=
| FEnvelope (e : envelope)
| FManifest (m : manifest)
| FGarbage.

(** ** The remote service and the monad of the harvesting code *)

Inductive outcome : Type :=
| Returned (v : json)
| Failed (text : string).

(** A client over service states [C]: which methods it has ([getattr]), what
    a call does, and the clock ([time.perf_counter]). *)
Record client (C : Type) : Type := mk_client {
  has_method : string -> bool;
  invoke : string -> kwargs -> C -> outcome * C;
  perf_counter : C -> Z * C
}.
Arguments has_method {C} _ _.
Arguments invoke {C} _ _ _ _.
Arguments perf_counter {C} _ _.

Record world (C : Type) : Type := mk_world {
  w_remote : C;
  w_calls : list (string * kwargs);     (* remote calls so far, oldest first *)
  w_files : gmap path file;
  w_writes : list (path * file)         (* writes so far, oldest first *)
}.
Arguments mk_world {C} _ _ _ _.
Arguments w_remote {C} _.
Arguments w_calls {C} _.
Arguments w_files {C} _.
Arguments w_writes {C} _.

Definition M (C A : Type) : Type := world C -> res A * world C.

#[global] Instance M_ret {C} : MRet (M C) := fun _ a w => (Ok a, w).
#[global] Instance M_bind {C} : MBind (M C) := fun _ _ f m w =>
  match m w with
  | (Ok a, w') => f a w'
  | (Raise e, w') => (Raise e, w')
  | (OutOfFuel, w') => (OutOfFuel, w')
  end.

#[global] Instance M_fmap {C} : FMap (M C) := fun _ _ f m w =>
  match m w with
  | (Ok a, w') => (Ok (f a), w')
  | (Raise e, w') => (Raise e, w')
  | (OutOfFuel, w') => (OutOfFuel, w')
  end.

Definition raise {C A} (e : exn) : M C A := fun w => (Raise e, w).

(** [try: body  except Exception as exc: handler(exc)]. *)
Definition try_except {C A} (body : M C A) (handler : exn -> M C A) : M C A :=
  fun w =>
    match body w with
    | (Raise e, w') => handler e w'
    | r => r
    end.

(** The result of a [try] body as a value. *)
Definition attempt {C A} (body : M C A) : M C (A + exn) :=
  try_except (a ← body; mret (inl a)) (fun e => mret (inr e)).

Definition lift {C A} (r : res A) : M C A := fun w => (r, w).

(** The call of the client's method with the keyword arguments: one remote
    call, logged. *)
Definition remote {C} (cl : client C) (method : string) (kw : kwargs) : M C outcome :=
  fun w =>
    let (o, c') := invoke cl method kw (w_remote w) in
    (Ok o, mk_world c' (w_calls w ++ [(method, kw)])%list (w_files w) (w_writes w)).

Definition clock {C} (cl : client C) : M C Z :=
  fun w =>
    let (t, c') := perf_counter cl (w_remote w) in
    (Ok t, mk_world c' (w_calls w) (w_files w) (w_writes w)).

Definition write_json {C} (p : path) (f : file) : M C unit :=
  fun w =>
    (Ok tt, mk_world (w_remote w) (w_calls w) (<[p := f]> (w_files w))
                     (w_writes w ++ [(p, f)])%list).

Definition path_exists {C} (p : path) : M C bool :=
  fun w => (Ok (bool_decide (is_Some (w_files w !! p))), w).

Definition read_json_if_exists {C} (p : path) : M C (option envelope) :=
  fun w =>
    (Ok match w_files w !! p with
        | Some (FEnvelope e) => Some e
        | _ => None
        end, w).

(** ** The retry wrapper *)

(** The text of a deterministic client error. *)
Definition is_client_error (text : string) : bool :=
  Str.contains "400 Client Error" text || Str.contains "(400)" text.

Fixpoint safe_call_loop {C} (cl : client C) (method : string) (kw : kwargs)
    (n : nat) (last_exc : option exn) (started : Z) : M C (json * Z) :=
  match n with
  | O =>
      match last_exc with
      | Some e => raise e
      | None => raise (LocalError "AssertionError" "")
      end
  | S n' =>
      o ← remote cl method kw;
      match o with
      | Returned result =>
          now ← clock cl;
          mret (result, now - started)
      | Failed text =>
          if is_client_error text then raise (RemoteError text)
          else safe_call_loop cl method kw n' (Some (RemoteError text)) started
      end
  end.

Definition safe_call {C} (cl : client C) (method : string) (kw : kwargs)
    (retries : Z) : M C (json * Z) :=
  if has_method cl method then
    started ← clock cl;
    safe_call_loop cl method kw (Z.to_nat (retries + 1)) None started
  else raise (LocalError "AttributeError" ("Garmin client 缺少方法: " +:+ method)).

(** ** Payload helpers *)

Definition is_dict (v : json) : bool :=
  match v with JDict _ => true | _ => false end.

(** [v.get(k)] on a dict: [None] when the key is absent. *)
Definition jget (k : string) (v : json) : json :=
  match v with
  | JDict d => default JNull (dict_get k d)
  | _ => JNull
  end.

Definition is_none (v : json) : bool :=
  match v with JNull => true | _ => false end.

Fixpoint first_list (d : list (string * json)) (keys : list string) : list json :=
  match keys with
  | [] => []
  | k :: keys' =>
      match dict_get k d with
      | Some (JList l) => l
      | _ => first_list d keys'
      end
  end.

Definition extract_items (payload : json) : list json :=
  match payload with
  | JList l => l
  | JDict d =>
      first_list d ["items"; "activities"; "activityList"; "workouts";
                    "trainingPlanList"; "goals"]
  | _ => []
  end.

(** [raw[:10]]. *)
Definition take10 (s : string) : string := String.substring 0 10 s.

Definition get_activity_date_str (activity : json) : string :=
  let a := jget "startTimeLocal" activity in
  let raw := if truthy a then a else jget "startTimeGMT" activity in
  match raw with
  | JStr s => if String.eqb s "" then "" else take10 s
  | _ => ""
  end.

(** [serialize_response_data] on the values of [json]: the same value, built
    anew. *)
Fixpoint serialize_response_data (v : json) : json :=
  match v with
  | JList l => JList (map serialize_response_data l)
  | JDict d =>
      JDict (map (fun kv => match kv with (k, x) => (k, serialize_response_data x) end) d)
  | _ => v
  end.

(** ** [sorted(set(ids))] *)

Definition hashable (v : json) : bool :=
  match v with JList _ | JDict _ => false | _ => true end.

(** [a == b] on hashable values ([True == 1]). *)
Definition py_eqb (a b : json) : bool :=
  match as_int a, as_int b with
  | Some x, Some y => x =? y
  | _, _ =>
      match a, b with
      | JStr s, JStr t => String.eqb s t
      | JNull, JNull => true
      | _, _ => false
      end
  end.

(** The elements of [set(l)]: the first of each class of equal values. *)
Fixpoint py_set (l : list json) : list json :=
  match l with
  | [] => []
  | x :: r => x :: filter (fun y => negb (py_eqb x y)) (py_set r)
  end.

Definition is_num (v : json) : bool := bool_decide (is_Some (as_int v)).
Definition is_str (v : json) : bool :=
  match v with JStr _ => true | _ => false end.

Definition num_le (a b : json) : Prop :=
  default 0 (as_int a) <= default 0 (as_int b).
Definition str_le (a b : json) : Prop :=
  match a, b with
  | JStr s, JStr t => String.le s t
  | _, _ => True
  end.
#[global] Instance num_le_dec : RelDecision num_le.
Proof. intros a b. unfold num_le. apply _. Defined.
#[global] Instance str_le_dec : RelDecision str_le.
Proof. intros a b. unfold str_le. destruct a, b; apply _. Defined.

(** [sorted(set(l))]: [set] needs hashable elements, and ordering two or more
    elements needs them all numbers or all strings. *)
Definition sorted_set (l : list json) : res (list json) :=
  if forallb hashable l then
    let s := py_set l in
    match s with
    | [] | [_] => Ok s
    | _ =>
        if forallb is_num s then Ok (merge_sort num_le s)
        else if forallb is_str s then Ok (merge_sort str_le s)
        else Raise (LocalError "TypeError" "'<' not supported between instances")
    end
  else Raise (LocalError "TypeError" "unhashable type").

(** ** The seed context *)

Record seed_context : Type := mk_ctx {
  ctx_year : Z;
  ctx_start_date : string;
  ctx_end_date : string;
  ctx_dates : list string;
  activity_ids : list json;
  workout_ids : list json;
  scheduled_workout_ids : list json;
  device_ids : list json;
  user_profile_numbers : list json;
  gear_uuids : list json;
  plan_ids : list json;
  cached_method_data : gmap string json
}.

(** [ctx.get(seed_key, [])]. *)
Definition ctx_get (seed_key : string) (ctx : seed_context) : list json :=
  if String.eqb seed_key "activity_ids" then activity_ids ctx
  else if String.eqb seed_key "workout_ids" then workout_ids ctx
  else if String.eqb seed_key "scheduled_workout_ids" then scheduled_workout_ids ctx
  else if String.eqb seed_key "device_ids" then device_ids ctx
  else if String.eqb seed_key "user_profile_numbers" then user_profile_numbers ctx
  else if String.eqb seed_key "gear_uuids" then gear_uuids ctx
  else if String.eqb seed_key "plan_ids" then plan_ids ctx
  else [].

Section Bootstrap.
Context {C : Type} (cl : client C).

(** One page of the activity feed: the activities of the year and whether
    an older one was seen. *)
Definition scan_batch (year : Z) (batch : list json) : list json * bool :=
  foldl
    (fun acc act =>
       if is_dict act then
         let date_str := get_activity_date_str act in
         if Str.startswith (pretty year +:+ "-") date_str
         then ((acc.1 ++ [act])%list, acc.2)
         else if negb (String.eqb date_str "")
                 && String.ltb date_str (pretty year +:+ "-01-01")
              then (acc.1, true)
              else acc
       else acc)
    ([], false) batch.

(** The loop of [fetch_activities_for_year]; [remaining] is [500 - page]. *)
Fixpoint fetch_activities_loop (year : Z) (remaining : nat) (page empty_pages : Z)
    (activities : list json) : M C (list json) :=
  match remaining with
  | O => mret activities
  | S remaining' =>
      r ← attempt (safe_call cl "get_activities"
                     [("start", JInt (page * 100)); ("limit", JInt 100)] 1);
      match r with
      | inr _ => mret activities
      | inl (JList (act :: batch'), _) =>
          let (hits, has_older) := scan_batch year (act :: batch') in
          if match hits with [] => has_older | _ => false end
          then mret (activities ++ hits)%list
          else fetch_activities_loop year remaining' (page + 1) 0
                                     (activities ++ hits)%list
      | inl _ =>
          if 2 <=? empty_pages + 1 then mret activities
          else fetch_activities_loop year remaining' (page + 1) (empty_pages + 1)
                                     activities
      end
  end.

Definition fetch_activities_for_year (year : Z) : M C (list json) :=
  fetch_activities_loop year 500 0 0 [].

(** The loop of [fetch_all_workouts]; [remaining] is [(20000 - start) / 100]. *)
Fixpoint fetch_workouts_loop (remaining : nat) (start : Z) (workouts : list json)
    : M C (list json) :=
  match remaining with
  | O => mret workouts
  | S remaining' =>
      '(payload, _) ← safe_call cl "get_workouts"
                        [("start", JInt start); ("limit", JInt 100)] 1;
      let items := extract_items payload in
      match items with
      | [] => mret workouts
      | _ =>
          let workouts' := (workouts ++ filter (fun w => is_dict w) items)%list in
          if (Z.of_nat (length items) <? 100) then mret workouts'
          else fetch_workouts_loop remaining' (start + 100) workouts'
      end
  end.

Definition fetch_all_workouts : M C (list json) :=
  fetch_workouts_loop 200 0 [].

(** [[x.get(k) for x in l if isinstance(x, dict) and x.get(k) is not None]]. *)
Definition ids_not_none (k : string) (l : list json) : list json :=
  map (jget k) (filter (fun x => is_dict x && negb (is_none (jget k x))) l).

(** [[x.get(k) for x in l if isinstance(x, dict) and x.get(k)]]. *)
Definition ids_truthy (k : string) (l : list json) : list json :=
  map (jget k) (filter (fun x => is_dict x && truthy (jget k x)) l).

(** A bootstrap call whose failure leaves a default. *)
Definition call_or {A} (body : M C A) (dflt : A) : M C A :=
  try_except body (fun _ => mret dflt).

Definition gear_of_payload (gear_payload : json) : list json :=
  match gear_payload with
  | JList l => filter (fun g => is_dict g) l
  | JDict _ => filter (fun g => is_dict g) (extract_items gear_payload)
  | _ => []
  end.

Definition build_seed_context (year : Z) : M C seed_context :=
  let start_date := pretty year +:+ "-01-01" in
  let end_date := pretty year +:+ "-12-31" in
  dates ← lift (iter_year_dates year);
  activities ← call_or (fetch_activities_for_year year) [];
  let cache := <["get_activities" := JList activities]> (∅ : gmap string json) in
  let activity_ids0 := ids_truthy "activityId" activities in
  workouts ← call_or fetch_all_workouts [];
  let cache := <["get_workouts" := JList workouts]> cache in
  let workout_ids0 := ids_not_none "workoutId" workouts in
  let scheduled0 := ids_not_none "scheduledWorkoutId" workouts in
  devices ← call_or (fst <$> safe_call cl "get_devices" [] 1) (JList []);
  let cache := <["get_devices" := devices]> cache in
  let device_ids0 :=
    match devices with
    | JList l => ids_not_none "deviceId" l
    | _ => []
    end in
  profile ← call_or (fst <$> safe_call cl "get_user_profile" [] 1) (JDict []);
  let cache := <["get_user_profile" := profile]> cache in
  let profile_numbers0 :=
    if is_dict profile then
      flat_map (fun key => if is_none (jget key profile) then []
                           else [jget key profile])
               ["userProfileNumber"; "profileId"]
    else [] in
  last_used ← call_or (fst <$> safe_call cl "get_device_last_used" [] 1) (JDict []);
  let cache := <["get_device_last_used" := last_used]> cache in
  let profile_numbers1 :=
    (profile_numbers0 ++
     (if is_dict last_used && negb (is_none (jget "userProfileNumber" last_used))
      then [jget "userProfileNumber" last_used] else []))%list in
  let device_ids1 :=
    (device_ids0 ++
     (if is_dict last_used && negb (is_none (jget "deviceId" last_used))
      then [jget "deviceId" last_used] else []))%list in
  profile_numbers ← lift (sorted_set profile_numbers1);
  device_ids' ← lift (sorted_set device_ids1);
  gears ← match profile_numbers with
          | [] => mret []
          | first :: _ =>
              call_or
                ('(gear_payload, _) ← safe_call cl "get_gear"
                                        [("userProfileNumber", first)] 1;
                 mret (gear_of_payload gear_payload))
                []
          end;
  let cache := <["get_gear" := JList gears]> cache in
  let gear_uuids0 := map (jget "uuid") (filter (fun g => truthy (jget "uuid" g)) gears) in
  training_plans ← call_or (fst <$> safe_call cl "get_training_plans" [] 1) (JDict []);
  let cache := <["get_training_plans" := training_plans]> cache in
  let plan_ids0 :=
    match training_plans with
    | JDict d =>
        match dict_get "trainingPlanList" d with
        | Some (JList plans) => ids_not_none "trainingPlanId" plans
        | _ => []
        end
    | _ => []
    end in
  activity_ids' ← lift (sorted_set activity_ids0);
  workout_ids' ← lift (sorted_set workout_ids0);
  scheduled' ← lift (sorted_set scheduled0);
  gear_uuids' ← lift (sorted_set gear_uuids0);
  plan_ids' ← lift (sorted_set plan_ids0);
  mret (mk_ctx year start_date end_date dates activity_ids' workout_ids' scheduled'
               device_ids' profile_numbers gear_uuids' plan_ids' cache).

End Bootstrap.

(** ** Call plans *)

Definition run_special_method_calls (method : string) (ctx : seed_context)
  : list kwargs :=
  let start_date := ctx_start_date ctx in
  let end_date := ctx_end_date ctx in
  if String.eqb method "get_lactate_threshold" then
    [[("latest", JBool false); ("start_date", JStr start_date);
      ("end_date", JStr end_date); ("aggregation", JStr "daily")]]
  else if String.eqb method "get_goals" then
    [[("status", JStr "active"); ("start", JInt 0); ("limit", JInt 100)];
     [("status", JStr "completed"); ("start", JInt 0); ("limit", JInt 100)]]
  else if String.eqb method "get_race_predictions" then
    [[("startdate", JStr start_date); ("enddate", JStr end_date);
      ("_type", JStr "running")]]
  else if String.eqb method "get_progress_summary_between_dates" then
    [[("startdate", JStr start_date); ("enddate", JStr end_date);
      ("metric", JStr "distance"); ("groupbyactivities", JBool true)]]
  else [].

(** [kwargs[k] = v] when the condition holds. *)
Definition set_if (c : bool) (k : string) (v : json) (kw : kwargs) : kwargs :=
  if c then dict_set k v kw else kw.

(** The first entry of [ID_PARAM_TO_SEED_KEY] whose parameter is declared. *)
Fixpoint first_id_param (table : list (string * string)) (params : list string)
  : option (string * string) :=
  match table with
  | [] => None
  | (param, seed_key) :: table' =>
      if Str.mem param params then Some (param, seed_key)
      else first_id_param table' params
  end.

Definition build_calls_for_method (method signature : string) (ct : call_type)
    (ctx : seed_context) (include_downloads : bool)
  : res (list kwargs * option string) :=
  let params := parse_signature_params signature in
  match ct with
  | download | id_based =>
      if match ct with download => negb include_downloads | _ => false end
      then Ok ([], Some "download_disabled")
      else
        match first_id_param ID_PARAM_TO_SEED_KEY params with
        | Some (param, seed_key) =>
            match ctx_get seed_key ctx with
            | [] => Ok ([], Some ("missing_seed:" +:+ seed_key))
            | ids => Ok (map (fun id_value => [(param, id_value)]) ids, None)
            end
        | None => Ok ([], Some "id_param_not_mapped")
        end
  | noarg => Ok ([[]], None)
  | daily =>
      date_param ←
        (if Str.mem "cdate" params then Ok "cdate"
         else if Str.mem "fordate" params then Ok "fordate"
         else match params with
              | p :: _ => Ok p
              | [] => Raise (LocalError "IndexError" "list index out of range")
              end);
      Ok (map (fun d => [(date_param, JStr d)]) (ctx_dates ctx), None)
  | date_range =>
      let kw0 := set_if (Str.mem "startdate" params) "startdate"
                        (JStr (ctx_start_date ctx)) [] in
      let kw1 := set_if (Str.mem "enddate" params) "enddate"
                        (JStr (ctx_end_date ctx)) kw0 in
      let kw2 := set_if (Str.mem "start_date" params) "start_date"
                        (JStr (ctx_start_date ctx)) kw1 in
      let kw3 := set_if (Str.mem "end_date" params) "end_date"
                        (JStr (ctx_end_date ctx)) kw2 in
      let both := Str.mem "start" params && Str.mem "end" params in
      let kw4 := set_if both "start" (JStr (ctx_start_date ctx)) kw3 in
      let kw5 := set_if both "end" (JStr (ctx_end_date ctx)) kw4 in
      match kw5 with
      | [] => Ok ([], Some "date_range_unresolved")
      | _ =>
          match String.eqb method "get_body_battery",
                dict_get "startdate" kw5, dict_get "enddate" kw5 with
          | true, Some (JStr s), Some (JStr e) =>
              chunks ← chunk_date_range s e 31;
              Ok (map (fun c => [("startdate", JStr (fst c)); ("enddate", JStr (snd c))])
                      chunks, None)
          | _, _, _ => Ok ([kw5], None)
          end
      end
  | weekly =>
      let kw0 := set_if (Str.mem "start" params) "start" (JStr (ctx_start_date ctx)) [] in
      let kw1 := set_if (Str.mem "end" params) "end" (JStr (ctx_end_date ctx)) kw0 in
      let kw2 := set_if (Str.mem "weeks" params) "weeks" (JInt 52) kw1 in
      Ok ([kw2], None)
  | paged => Ok ([], None)
  | special =>
      match run_special_method_calls method ctx with
      | [] =>
          match params with
          | [] => Ok ([[]], None)
          | _ => Ok ([], Some "special_unresolved")
          end
      | calls => Ok (calls, None)
      end
  | unsupported => Ok ([], Some "unsupported_call_type")
  end.

(** ** The paged loop *)

(** [int(v)] on the integers and booleans; other values are not numbers of
    this embedding. *)
Definition py_int (v : json) : res Z :=
  match as_int v with
  | Some z => Ok z
  | None => Raise (LocalError "TypeError" "int() argument must be a number")
  end.

Section Execution.
Context {C : Type} (cl : client C).

(** The callback [on_chunk_done]: it updates the state [S] it closes over
    and the files, and does not raise. *)
Definition chunk_callback (S : Type) : Type :=
  kwargs -> option json -> option string -> Z -> S -> world C -> S * world C.

Definition run_callback {S} (cb : option (chunk_callback S))
    (req : kwargs) (response : option json) (error : option string) (took : Z)
    (st : S) : M C S :=
  match cb with
  | Some f => fun w => let (st', w') := f req response error took st w in (Ok st', w')
  | None => mret st
  end.

Fixpoint paged_loop {S} (method : string) (base_kwargs : kwargs) (limit : Z)
    (cb : option (chunk_callback S)) (fuel : nat) (page_start elapsed : Z) (st : S)
  : M C (Z * S) :=
  if page_start <? 20000 then
    match fuel with
    | O => fun w => (OutOfFuel, w)
    | S fuel' =>
        let kw := dict_set "limit" (JInt limit)
                    (dict_set "start" (JInt page_start) base_kwargs) in
        r ← attempt (safe_call cl method kw 1);
        match r with
        | inl (result, took) =>
            let serialized := serialize_response_data result in
            st' ← run_callback cb kw (Some serialized) None took st;
            let items := extract_items result in
            match items with
            | [] => mret (elapsed + took, st')
            | _ =>
                if Z.of_nat (length items) <? limit then mret (elapsed + took, st')
                else paged_loop method base_kwargs limit cb fuel'
                                (page_start + limit) (elapsed + took) st'
            end
        | inr exc =>
            st' ← run_callback cb kw None (Some (exn_str exc)) 0 st;
            mret (elapsed, st')
        end
    end
  else mret (elapsed, st).

(** The number of pages below the ceiling when the cursor advances. With
    [limit <= 0] the cursor does not advance and the loop ends only at an
    empty or failed page: its first 20000 pages are followed. *)
Definition paged_fuel (page_start limit : Z) : nat :=
  if limit <=? 0 then Z.to_nat 20000
  else Z.to_nat ((20000 - page_start + limit - 1) / limit).

Definition execute_paged_method {S} (method : string) (base_kwargs : kwargs)
    (start_from : Z) (cb : option (chunk_callback S)) (st : S) : M C (Z * S) :=
  let page_start := Z.max 0 start_from in
  limit ← lift (py_int (default (JInt 100) (dict_get "limit" base_kwargs)));
  paged_loop method base_kwargs limit cb (paged_fuel page_start limit)
             page_start 0 st.

End Execution.

(** ** One method of one year *)

Definition set_status (st : status) (e : envelope) : envelope :=
  mk_envelope (env_method e) (env_section e) (env_year e) (env_call_type e) st
              (env_request_args e) (env_data e) (env_errors e) (env_stats e).

Definition set_stats (s : stats) (e : envelope) : envelope :=
  mk_envelope (env_method e) (env_section e) (env_year e) (env_call_type e)
              (env_status e) (env_request_args e) (env_data e) (env_errors e) s.

Definition add_request (kw : kwargs) (e : envelope) : envelope :=
  mk_envelope (env_method e) (env_section e) (env_year e) (env_call_type e)
              (env_status e) (env_request_args e ++ [kw])%list (env_data e)
              (env_errors e) (env_stats e).

Definition add_data (d : data_item) (e : envelope) : envelope :=
  mk_envelope (env_method e) (env_section e) (env_year e) (env_call_type e)
              (env_status e) (env_request_args e) (env_data e ++ [d])%list
              (env_errors e) (env_stats e).

Definition add_error (x : error_item) (e : envelope) : envelope :=
  mk_envelope (env_method e) (env_section e) (env_year e) (env_call_type e)
              (env_status e) (env_request_args e) (env_data e)
              (env_errors e ++ [x])%list (env_stats e).

Definition add_duration (took : Z) (e : envelope) : envelope :=
  let s := env_stats e in
  set_stats (mk_stats (attempted_calls s) (success_calls s) (failed_calls s)
                      (duration_seconds s + took)) e.

(** The three assignments [stats[...] = len(...)]. *)
Definition recount (e : envelope) : envelope :=
  set_stats (mk_stats (length (env_request_args e)) (length (env_data e))
                      (length (env_errors e)) (duration_seconds (env_stats e))) e.

(** The two assignments of the seed-cache branch. *)
Definition recount_cache (e : envelope) : envelope :=
  set_stats (mk_stats (length (env_request_args e)) (length (env_data e))
                      (failed_calls (env_stats e)) (duration_seconds (env_stats e))) e.

Definition get_completed_request_keys (e : envelope) : gset string :=
  list_to_set (map (fun item => request_key (di_request item)) (env_data e)).

(** The status decided from the counters at the end of the planned calls. *)
Definition final_status (s : stats) : status :=
  if (0 <? success_calls s)%nat && (failed_calls s =? 0)%nat then success
  else if (0 <? success_calls s)%nat then partial
  else if (attempted_calls s =? 0)%nat then skipped
  else failed.

(** The status decided at the end of the paged loop. *)
Definition final_status_paged (s : stats) : status :=
  if (0 <? success_calls s)%nat && (failed_calls s =? 0)%nat then success
  else if (0 <? success_calls s)%nat then partial
  else failed.

Definition seed_cache_request : kwargs := [("source", JStr "seed_cache")].

(** [cached_data not in (None, {}, [])]. *)
Definition usable_cache (cached : option json) : option json :=
  match cached with
  | None | Some JNull | Some (JDict []) | Some (JList []) => None
  | Some v => Some v
  end.

(** The envelope a run starts from: the prior one when it is of the same
    method, a fresh one otherwise, with the counters taken from its lists. *)
Definition start_envelope (spec : method_spec) (ctx : seed_context)
    (existing_envelope : option envelope) : envelope :=
  let method := ms_method spec in
  let ct := classify_call_type method (ms_signature spec) in
  let fresh :=
    mk_envelope method (ms_section spec) (ctx_year ctx) ct pending [] [] []
                (mk_stats 0 0 0 0) in
  recount
    match existing_envelope with
    | Some e =>
        if String.eqb (env_method e) method
        then mk_envelope method (ms_section spec) (ctx_year ctx) ct (env_status e)
                         (env_request_args e) (env_data e) (env_errors e) (env_stats e)
        else fresh
    | None => fresh
    end.

(** The page size passed to the paged loop. *)
Definition paged_extra (method : string) : kwargs :=
  set_if (String.eqb method "get_workouts") "limit" (JInt 100)
    (set_if (String.eqb method "get_activities") "limit" (JInt 100) []).

Section Method.
Context {C : Type} (cl : client C).

Definition maybe_write (output_file : option path) (e : envelope) : M C unit :=
  match output_file with
  | Some p => write_json p (FEnvelope e)
  | None => mret tt
  end.

Definition on_paged_chunk_done (output_file : option path) : chunk_callback (C := C) envelope :=
  fun req response error took e w =>
    let e1 := add_request req e in
    let e2 := match error with
              | None => add_data (mk_data req (default JNull response)) e1
              | Some text => add_error (mk_error (Some req) text) e1
              end in
    let e3 := add_duration took (recount e2) in
    (e3, snd (maybe_write output_file e3 w)).

(** The starts of the pages in [data], and where a resumed run begins. *)
Definition page_starts (e : envelope) : list Z :=
  omap (fun item => dict_get "start" (di_request item) ≫= as_int) (env_data e).

Definition list_max (l : list Z) : Z :=
  match l with
  | [] => 0
  | x :: r => foldl Z.max x r
  end.

Definition resume_start_of (e : envelope) (extra : kwargs) : res Z :=
  match page_starts e with
  | [] => Ok 0
  | starts =>
      lim ← py_int (default (JInt 100) (dict_get "limit" extra));
      Ok (list_max starts + lim)
  end.

Fixpoint run_pending (method : string) (output_file : option path)
    (pending : list kwargs) (e : envelope) : M C envelope :=
  match pending with
  | [] => mret e
  | kw :: pending' =>
      started ← clock cl;
      r ← attempt (safe_call cl method kw 1);
      e1 ← match r with
           | inl (result, elapsed) =>
               mret (add_duration elapsed
                       (add_data (mk_data kw (serialize_response_data result))
                                 (add_request kw e)))
           | inr exc =>
               now ← clock cl;
               mret (add_duration (now - started)
                       (add_error (mk_error (Some kw) (exn_str exc))
                                  (add_request kw e)))
           end;
      let e2 := recount e1 in
      _ ← maybe_write output_file e2;
      run_pending method output_file pending' e2
  end.

Definition execute_method_for_year (spec : method_spec) (ctx : seed_context)
    (include_downloads : bool) (output_file : option path)
    (existing_envelope : option envelope) : M C envelope :=
  let method := ms_method spec in
  let signature := ms_signature spec in
  let ct := classify_call_type method signature in
  let envelope := start_envelope spec ctx existing_envelope in
  let completed_keys := get_completed_request_keys envelope in
  match usable_cache (cached_method_data ctx !! method),
        success_calls (env_stats envelope) with
  | Some cached_data, O =>
      let e1 := add_data (mk_data seed_cache_request (serialize_response_data cached_data))
                         (add_request seed_cache_request envelope) in
      let e2 := set_status success (recount_cache e1) in
      _ ← maybe_write output_file e2;
      mret e2
  | _, _ =>
      match ct with
      | paged =>
          let extra := paged_extra method in
          resume_start ← lift (resume_start_of envelope extra);
          '(_, e1) ← execute_paged_method cl method extra resume_start
                       (Some (on_paged_chunk_done output_file)) envelope;
          mret (set_status (final_status_paged (env_stats e1)) e1)
      | _ =>
          '(call_kwargs_list, skip_reason) ←
            lift (build_calls_for_method method signature ct ctx include_downloads);
          match skip_reason, call_kwargs_list with
          | Some reason, [] =>
              let e1 := recount (add_error (mk_error None reason)
                                           (set_status skipped envelope)) in
              _ ← maybe_write output_file e1;
              mret e1
          | _, _ =>
              let pending_calls :=
                filter (fun kw => negb (bool_decide (request_key kw ∈ completed_keys)))
                       call_kwargs_list in
              e1 ← run_pending method output_file pending_calls envelope;
              mret (set_status (final_status (env_stats e1)) e1)
          end
      end
  end.

End Method.

(** ** One year: [collect_year_data] on one worker *)

Definition count_status (st : status) (c : status_counts) : status_counts :=
  match st with
  | success => mk_counts (S (n_success c)) (n_partial c) (n_failed c) (n_skipped c) (n_pending c)
  | partial => mk_counts (n_success c) (S (n_partial c)) (n_failed c) (n_skipped c) (n_pending c)
  | failed => mk_counts (n_success c) (n_partial c) (S (n_failed c)) (n_skipped c) (n_pending c)
  | skipped => mk_counts (n_success c) (n_partial c) (n_failed c) (S (n_skipped c)) (n_pending c)
  | pending => mk_counts (n_success c) (n_partial c) (n_failed c) (n_skipped c) (S (n_pending c))
  end.

(** The specs of the year that are run: the section filter, then the
    excluded methods. *)
Definition scheduled (selected_sections : option (list string)) (spec : method_spec) : bool :=
  negb (match selected_sections with
        | Some (s :: sections) => negb (Str.mem (ms_section_slug spec) (s :: sections))
        | _ => false
        end)
  && negb (Str.mem (ms_method spec) EXCLUDED_METHODS).

Definition indexed_specs (selected_sections : option (list string))
    (methods : list method_spec) : list (nat * method_spec) :=
  filter (fun ix => scheduled selected_sections ix.2) (imap (fun i spec => (i, spec)) methods).

Definition output_file_of (year : Z) (spec : method_spec) : path :=
  EnvelopePath year (ms_section_slug spec) (ms_method spec).

Definition item_of (year : Z) (spec : method_spec) (e : envelope) : manifest_item :=
  mk_item (ms_method spec) (ms_section spec) (ms_section_slug spec)
          (env_call_type e) (env_status e) (output_file_of year spec)
          (env_stats e) (length (env_errors e)).

Section Year.
Context {C : Type} (cl : client C).

Definition run_and_write (spec : method_spec) (ctx : seed_context)
    (include_downloads : bool) (output_file : path)
    (existing_envelope : option envelope) : M C envelope :=
  method_started ← clock cl;
  envelope ← execute_method_for_year cl spec ctx include_downloads
               (Some output_file) existing_envelope;
  _ ← write_json output_file (FEnvelope envelope);
  _ ← clock cl;
  mret envelope.

Definition is_done (e : envelope) : bool :=
  match env_status e with
  | success | skipped => true
  | _ => false
  end.

(** The envelope made of an unexpected exception. *)
Definition synthetic_envelope (year : Z) (spec : method_spec) (exc : exn) : envelope :=
  mk_envelope (ms_method spec) (ms_section spec) year
              (classify_call_type (ms_method spec) (ms_signature spec)) failed [] []
              [mk_error None (exn_str exc)] (mk_stats 0 0 1 0).

(** The envelope of [run_method]: the persisted one when it is done, the
    one of a run, or the one made of an unexpected exception. *)
Definition method_envelope (year : Z) (ctx : seed_context)
    (overwrite include_downloads : bool) (spec : method_spec) : M C envelope :=
  let output_file := output_file_of year spec in
  try_except
    (present ← path_exists output_file;
     if present && negb overwrite then
       existing_envelope ← read_json_if_exists output_file;
       match existing_envelope with
       | Some e =>
           if is_done e then mret e
           else run_and_write spec ctx include_downloads output_file existing_envelope
       | None => run_and_write spec ctx include_downloads output_file None
       end
     else run_and_write spec ctx include_downloads output_file None)
    (fun exc =>
       let envelope := synthetic_envelope year spec exc in
       _ ← write_json output_file (FEnvelope envelope);
       mret envelope).

Definition run_method (year : Z) (ctx : seed_context) (overwrite include_downloads : bool)
    (spec : method_spec) : M C manifest_item :=
  envelope ← method_envelope year ctx overwrite include_downloads spec;
  mret (item_of year spec envelope).

(** [shutil.rmtree(data_root)]: the files of the year go. *)
Definition rmtree_year (year : Z) : M C unit :=
  fun w =>
    (Ok tt, mk_world (w_remote w) (w_calls w)
                     (filter (fun kv => path_year kv.1 ≠ year) (w_files w))
                     (w_writes w)).

Fixpoint run_methods (year : Z) (ctx : seed_context) (overwrite include_downloads : bool)
    (specs : list (nat * method_spec)) : M C (list manifest_item) :=
  match specs with
  | [] => mret []
  | (_, spec) :: specs' =>
      item ← run_method year ctx overwrite include_downloads spec;
      items ← run_methods year ctx overwrite include_downloads specs';
      mret (item :: items)
  end.

Definition collect_year_data (methods : list method_spec) (year : Z)
    (overwrite include_downloads : bool) (selected_sections : option (list string))
  : M C path :=
  _ ← (if overwrite then rmtree_year year else mret tt);
  ctx ← build_seed_context cl year;
  let specs := indexed_specs selected_sections methods in
  manifest_items ← run_methods year ctx overwrite include_downloads specs;
  let status_counts :=
    foldl (fun c item => count_status (mi_status item) c) (mk_counts 0 0 0 0 0)
          manifest_items in
  let manifest := mk_manifest year (length manifest_items) status_counts manifest_items in
  _ ← write_json (ManifestPath year) (FManifest manifest);
  mret (ManifestPath year).

End Year.

(** ** Vocabulary of the properties *)

(** Successive calls of one method with the same arguments: the states of the
    service and what each call gave. *)
Inductive tries {C} (cl : client C) (method : string) (kw : kwargs)
  : C -> list outcome -> C -> Prop :=
| tries_nil c : tries cl method kw c [] c
| tries_cons c o c1 os c2 :
    invoke cl method kw c = (o, c1) ->
    tries cl method kw c1 os c2 ->
    tries cl method kw c (o :: os) c2.

(** A failure that the retry wrapper retries. *)
Definition retryable (o : outcome) : Prop :=
  exists text, o = Failed text /\ is_client_error text = false.

(** What one finished call adds to an envelope. *)
Definition record_success (kw : kwargs) (response : json) (took : Z) (e : envelope)
  : envelope :=
  recount (add_duration took (add_data (mk_data kw response) (add_request kw e))).

Definition record_failure (kw : kwargs) (text : string) (took : Z) (e : envelope)
  : envelope :=
  recount (add_duration took (add_error (mk_error (Some kw) text) (add_request kw e))).

(** The arguments of the page at cursor [s]. *)
Definition page_kwargs (base_kwargs : kwargs) (s limit : Z) : kwargs :=
  dict_set "limit" (JInt limit) (dict_set "start" (JInt s) base_kwargs).

(** ** The years of the command line ([parse_years_arg]) *)

(** [int(token)] on stripped ASCII text: an optional sign, then decimal
    digits, with single underscores allowed between digits. Left out: the
    decimal digits of other scripts, which [int] also reads, and the bound
    that recent interpreters put on the number of digits (4300 by default,
    never below 640). *)
Fixpoint int_digits (acc : Z) (after_digit : bool) (s : string) : option Z :=
  match s with
  | "" => if after_digit then Some acc else None
  | String c r =>
      match digit c with
      | Some d => int_digits (10 * acc + d) true r
      | None =>
          if Ascii.eqb c "_" && after_digit then int_digits acc false r else None
      end
  end.

Definition int_of_string (token : string) : res Z :=
  let bad := Raise (LocalError "ValueError" "invalid literal for int() with base 10") in
  match token with
  | String "+" r => match int_digits 0 false r with Some z => Ok z | None => bad end
  | String "-" r => match int_digits 0 false r with Some z => Ok (- z) | None => bad end
  | _ => match int_digits 0 false token with Some z => Ok z | None => bad end
  end.

(** The first loop: the tokens between commas, stripped, the empty ones
    skipped. *)
Fixpoint years_of_tokens (tokens : list string) : res (list Z) :=
  match tokens with
  | [] => Ok []
  | token :: tokens' =>
      let token := Str.strip token in
      if String.eqb token "" then years_of_tokens tokens'
      else
        y ← int_of_string token;
        years ← years_of_tokens tokens';
        Ok (y :: years)
  end.

(** The second loop: the first year out of range is reported. *)
Fixpoint check_years (years : list Z) : res unit :=
  match years with
  | [] => Ok tt
  | y :: years' =>
      if (y <? 2000) || (2100 <? y)
      then Raise (LocalError "ValueError" ("年份超出合理范围: " +:+ pretty y))
      else check_years years'
  end.

(** [sorted(set(years))] on integers: the order in which a set is read does
    not matter to the sorted list. *)
Definition parse_years_arg (value : string) : res (list Z) :=
  years ← years_of_tokens (Str.split_on "," value);
  match years with
  | [] => Raise (LocalError "ValueError" "--years 不能为空")
  | _ =>
      _ ← check_years years;
      Ok (merge_sort Z.le (remove_dups years))
  end.

(* ================================================================= *)
(** * Properties *)

(** ** Reasoning in the monad *)

Lemma bind_Ok {C A B} (m : M C A) (f : A -> M C B) w a w1 :
  m w = (Ok a, w1) -> (m ≫= f) w = f a w1.
Proof. intros H. unfold mbind, M_bind. by rewrite H. Qed.

Lemma bind_inv {C A B} (m : M C A) (f : A -> M C B) w r w' :
  (m ≫= f) w = (r, w') ->
  (exists a w1, m w = (Ok a, w1) /\ f a w1 = (r, w'))
  \/ (exists e, m w = (Raise e, w') /\ r = Raise e)
  \/ (m w = (OutOfFuel, w') /\ r = OutOfFuel).
Proof.
  unfold mbind, M_bind. destruct (m w) as [[a|e|] w1]; intros H.
  - left. eauto.
  - right; left. inversion H; subst. eauto.
  - right; right. inversion H; subst. eauto.
Qed.

Lemma attempt_inv {C A} (m : M C A) w r w' :
  attempt m w = (r, w') ->
  match m w with
  | (Ok a, w1) => r = Ok (inl a) /\ w' = w1
  | (Raise e, w1) => r = Ok (inr e) /\ w' = w1
  | (OutOfFuel, w1) => r = OutOfFuel /\ w' = w1
  end.
Proof.
  unfold attempt, try_except, mbind, M_bind, mret, M_ret.
  destruct (m w) as [[a|e|] w1]; intros H; inversion H; auto.
Qed.

(** ** The retry wrapper *)

Section SafeCall.
Context {C : Type} (cl : client C) (method : string) (kw : kwargs).

Lemma tries_snoc c os c1 o c2 :
  tries cl method kw c os c1 ->
  invoke cl method kw c1 = (o, c2) ->
  tries cl method kw c (os ++ [o]) c2.
Proof.
  induction 1; intros Hi; simpl.
  - econstructor; [exact Hi | constructor].
  - econstructor; eauto.
Qed.

(** The loop, started after [k] retried failures. *)
Lemma safe_call_loop_spec n :
  forall last started w r w',
    safe_call_loop cl method kw n last started w = (r, w') ->
    w_files w' = w_files w /\ w_writes w' = w_writes w /\
    ((n = O /\ w' = w /\
      r = Raise (default (LocalError "AssertionError" "") last))
     \/ exists os final cN,
          tries cl method kw (w_remote w) (os ++ [final]) cN /\
          Forall retryable os /\
          (length os < n)%nat /\
          w_calls w' = (w_calls w ++ replicate (S (length os)) (method, kw))%list /\
          match final with
          | Returned v =>
              exists t1, perf_counter cl cN = (t1, w_remote w') /\
                         r = Ok (v, t1 - started)
          | Failed text =>
              w_remote w' = cN /\ r = Raise (RemoteError text) /\
              (is_client_error text = true \/ S (length os) = n)
          end).
Proof.
  induction n as [|n IH]; intros last started w r w' H; simpl in H.
  - destruct last; inversion H; subst; auto 10.
  - unfold mbind, M_bind, remote in H.
    destruct (invoke cl method kw (w_remote w)) as [o c1] eqn:Hi.
    destruct o as [v|text].
    + unfold clock, mret, M_ret in H; simpl in H.
      destruct (perf_counter cl c1) as [t1 c2] eqn:Hc.
      inversion H; subst; simpl. split; [done|]. split; [done|].
      right. exists [], (Returned v), c1. simpl.
      split; [econstructor; [exact Hi | constructor]|].
      split; [constructor|]. split; [lia|]. split; [done|].
      exists t1. by rewrite Hc.
    + destruct (is_client_error text) eqn:Hce.
      * inversion H; subst; simpl. split; [done|]. split; [done|].
        right. exists [], (Failed text), c1. simpl.
        split; [econstructor; [exact Hi | constructor]|].
        split; [constructor|]. split; [lia|]. auto.
      * apply IH in H as (Hf & Hw & H). simpl in *.
        split; [done|]. split; [done|]. right.
        destruct H as [(-> & -> & ->) | (os & final & cN & Ht & Hr & Hl & Hc & Hfin)].
        -- exists [], (Failed text), c1. simpl.
           split; [econstructor; [exact Hi | constructor]|].
           split; [constructor|]. split; [lia|]. auto.
        -- exists (Failed text :: os), final, cN. simpl in *.
           split; [econstructor; eauto|].
           split; [constructor; [by exists text | done]|].
           split; [lia|].
           split; [by rewrite Hc, <- app_assoc|].
           destruct final; [done|].
           destruct Hfin as (? & ? & [?|?]); auto.
Qed.

End SafeCall.

(** Clients for the concrete runs below: the state counts the events (calls
    and clock readings), the clock reads that count, and the answer to a call
    is a function of the method, the arguments and the count. *)
Definition scripted (has : string -> bool) (f : string -> kwargs -> nat -> outcome)
  : client nat :=
  mk_client nat has (fun m kw n => (f m kw n, S n)) (fun n => (Z.of_nat n, S n)).

Definition empty_world : world nat := mk_world O [] ∅ [].

(** C6 (as amended). With [retries >= 0] and a method the client has, the
    retry wrapper reads the clock, then calls the method at most
    [retries + 1] times with the same arguments: every call but the last one
    failed with a text that is not a deterministic client error; when the last
    call returned, the wrapper returns its value with the time elapsed since
    the first reading of the clock; when it failed, the wrapper raises that
    last error, and either its text is a deterministic client error (it
    contains [400 Client Error] or [(400)]) or the [retries + 1] calls are
    used up. *)
Theorem safe_call_retry_policy {C} (cl : client C) method kw retries w r w' :
  0 <= retries ->
  has_method cl method = true ->
  safe_call cl method kw retries w = (r, w') ->
  exists t0 c0 os final cN,
    perf_counter cl (w_remote w) = (t0, c0) /\
    tries cl method kw c0 (os ++ [final]) cN /\
    Forall retryable os /\
    Z.of_nat (length (os ++ [final])) <= retries + 1 /\
    w_calls w' = (w_calls w ++ replicate (length (os ++ [final])) (method, kw))%list /\
    match final with
    | Returned v =>
        exists t1, perf_counter cl cN = (t1, w_remote w') /\ r = Ok (v, t1 - t0)
    | Failed text =>
        w_remote w' = cN /\ r = Raise (RemoteError text) /\
        (is_client_error text = true
         \/ Z.of_nat (length (os ++ [final])) = retries + 1)
    end.
Proof.
  intros Hr Hm H. unfold safe_call in H. rewrite Hm in H.
  unfold mbind, M_bind, clock in H.
  destruct (perf_counter cl (w_remote w)) as [t0 c0] eqn:Hc.
  apply safe_call_loop_spec in H as (_ & _ & H). simpl in H.
  destruct H as [(Hn & _) | (os & final & cN & Ht & Hre & Hl & Hcalls & Hfin)].
  { lia. }
  exists t0, c0, os, final, cN.
  rewrite length_app. simpl length.
  replace (length os + 1)%nat with (S (length os)) by lia.
  repeat split; try done; [lia|].
  destruct final; [done|].
  destruct Hfin as (? & ? & [?|?]); repeat split; auto. right. lia.
Qed.

Definition flaky : client nat :=
  scripted (fun _ => true)
           (fun _ _ n => if (n <? 2)%nat then Failed "timeout" else Returned (JInt 7)).

Lemma safe_call_retry_policy_witness :
  exists t0 c0 os final cN,
    perf_counter flaky O = (t0, c0) /\
    tries flaky "get_x" [] c0 (os ++ [final]) cN /\
    Forall retryable os /\
    Z.of_nat (length (os ++ [final])) <= 1 + 1 /\
    [("get_x", []); ("get_x", [])]
    = replicate (length (os ++ [final])) ("get_x", ([] : kwargs)) /\
    match final with
    | Returned v =>
        exists t1, perf_counter flaky cN = (t1, 4%nat) /\
                   Ok (JInt 7, 3) = Ok (v, t1 - t0)
    | Failed text =>
        4%nat = cN /\ Ok (JInt 7, 3) = Raise (RemoteError text) /\
        (is_client_error text = true
         \/ Z.of_nat (length (os ++ [final])) = 1 + 1)
    end.
Proof.
  apply (safe_call_retry_policy flaky "get_x" [] 1 empty_world (Ok (JInt 7, 3))
           (mk_world 4%nat [("get_x", []); ("get_x", [])] ∅ [])).
  - lia.
  - reflexivity.
  - vm_compute. reflexivity.
Defined.

Definition rejecting : client nat :=
  scripted (fun _ => true) (fun _ _ _ => Failed "(400) feature not available").

(** C6 (as stated) fails: a failure whose text does not contain
    [400 Client Error] but contains [(400)] is raised after one call, although
    two retries are allowed. *)
Lemma safe_call_paren_400_not_retried :
  Str.contains "400 Client Error" "(400) feature not available" = false /\
  (forall n kw, invoke rejecting "get_x" kw n
                = (Failed "(400) feature not available", S n)) /\
  exists w', safe_call rejecting "get_x" [] 2 empty_world
             = (Raise (RemoteError "(400) feature not available"), w') /\
             w_calls w' = [("get_x", [])] /\
             length (w_calls w') <> 3%nat.
Proof.
  split; [reflexivity|]. split; [reflexivity|].
  eexists. split; [vm_compute; reflexivity|]. split; [reflexivity | simpl; lia].
Qed.

(** ** Idempotence of a finished method *)

Lemma clock_inv {C} (cl : client C) w r w' :
  clock cl w = (r, w') ->
  exists t, r = Ok t /\ w_calls w' = w_calls w /\ w_files w' = w_files w
            /\ w_writes w' = w_writes w.
Proof.
  unfold clock. destruct (perf_counter cl (w_remote w)) as [t c].
  intros H; inversion H; subst; simpl. eauto.
Qed.

Lemma try_except_inv {C A} (body : M C A) (handler : exn -> M C A) w r w' :
  try_except body handler w = (r, w') ->
  (body w = (r, w') /\ forall e, r <> Raise e)
  \/ exists e w1, body w = (Raise e, w1) /\ handler e w1 = (r, w').
Proof.
  unfold try_except. destruct (body w) as [[a|e|] w1] eqn:Hb; intros H.
  - left. inversion H; subst. split; [done | congruence].
  - right. eauto.
  - left. inversion H; subst. split; [done | congruence].
Qed.

Section Idempotence.
Context {C : Type} (cl : client C).

Lemma run_and_write_file spec ctx incl out existing w e w' :
  run_and_write cl spec ctx incl out existing w = (Ok e, w') ->
  w_files w' !! out = Some (FEnvelope e).
Proof.
  unfold run_and_write. intros H.
  apply bind_inv in H as [(t & w1 & _ & H) | [(? & _ & ?) | (_ & ?)]]; try done.
  apply bind_inv in H as [(e1 & w2 & _ & H) | [(? & _ & ?) | (_ & ?)]]; try done.
  apply bind_inv in H as [([] & w3 & Hw & H) | [(? & _ & ?) | (_ & ?)]]; try done.
  apply bind_inv in H as [(t' & w4 & Hc & H) | [(? & _ & ?) | (_ & ?)]]; try done.
  inversion H; subst.
  apply clock_inv in Hc as (? & _ & _ & -> & _).
  unfold write_json in Hw. inversion Hw; subst; simpl.
  apply lookup_insert_eq.
Qed.

Lemma method_envelope_file year ctx overwrite incl spec w e w' :
  method_envelope cl year ctx overwrite incl spec w = (Ok e, w') ->
  w_files w' !! output_file_of year spec = Some (FEnvelope e).
Proof.
  unfold method_envelope. intros H.
  apply try_except_inv in H as [[H _] | (exc & w1 & _ & H)].
  - unfold mbind at 1, M_bind at 1, path_exists in H.
    destruct (bool_decide _ && negb overwrite) eqn:Hp;
      [|by eapply run_and_write_file].
    unfold mbind, M_bind, read_json_if_exists in H.
    destruct (w_files w !! output_file_of year spec) as [[e0| |]|] eqn:Hf;
      try by eapply run_and_write_file.
    destruct (is_done e0); [|by eapply run_and_write_file].
    inversion H; subst. done.
  - unfold mbind, M_bind, write_json in H. inversion H; subst; simpl.
    apply lookup_insert_eq.
Qed.

Lemma method_envelope_done year ctx incl spec w e :
  w_files w !! output_file_of year spec = Some (FEnvelope e) ->
  is_done e = true ->
  method_envelope cl year ctx false incl spec w = (Ok e, w).
Proof.
  intros Hf Hd. unfold method_envelope, try_except, mbind, M_bind, path_exists,
    read_json_if_exists.
  rewrite Hf. simpl. rewrite Hf, Hd. reflexivity.
Qed.

(** C3. When overwrite is not requested and the file of the method holds an
    envelope whose status is [success] or [skipped], [run_method] takes
    that envelope as it is: the remote service, the log of remote calls,
    the files and the log of writes are unchanged, and the manifest entry
    is the one of that envelope. Hence a method that a run left in one of
    these two states is left alone by the next run. *)
Theorem run_method_idempotent year ctx incl spec :
  (forall w e,
      w_files w !! output_file_of year spec = Some (FEnvelope e) ->
      env_status e = success \/ env_status e = skipped ->
      method_envelope cl year ctx false incl spec w = (Ok e, w)
      /\ run_method cl year ctx false incl spec w = (Ok (item_of year spec e), w))
  /\ (forall overwrite w item w1,
         run_method cl year ctx overwrite incl spec w = (Ok item, w1) ->
         mi_status item = success \/ mi_status item = skipped ->
         run_method cl year ctx false incl spec w1 = (Ok item, w1)).
Proof.
  assert (Hdone : forall e, env_status e = success \/ env_status e = skipped ->
                            is_done e = true).
  { intros e [He|He]; unfold is_done; by rewrite He. }
  split.
  - intros w e Hf Hs. apply Hdone in Hs.
    pose proof (method_envelope_done year ctx incl spec w e Hf Hs) as He.
    split; [done|]. unfold run_method. by rewrite (bind_Ok _ _ _ _ _ He).
  - intros overwrite w item w1 H Hs. unfold run_method in H.
    apply bind_inv in H as [(e & w2 & He & H) | [(? & _ & ?) | (_ & ?)]]; try done.
    inversion H; subst. simpl in Hs. apply Hdone in Hs.
    apply method_envelope_file in He.
    pose proof (method_envelope_done year ctx incl spec w1 e He Hs) as He'.
    unfold run_method. by rewrite (bind_Ok _ _ _ _ _ He').
Qed.

End Idempotence.

(** ** What a computation adds to the logs *)

(** [w'] comes after [w]: the calls added satisfy [Pc], the writes added
    satisfy [Pw]. *)
Definition world_ext {C} (Pc : string * kwargs -> Prop) (Pw : path * file -> Prop)
    (w w' : world C) : Prop :=
  (exists lc, w_calls w' = (w_calls w ++ lc)%list /\ Forall Pc lc)
  /\ (exists lw, w_writes w' = (w_writes w ++ lw)%list /\ Forall Pw lw).

Section WorldExt.
Context {C : Type}.
Implicit Types (w : world C) (Pc : string * kwargs -> Prop) (Pw : path * file -> Prop).

Lemma world_ext_refl Pc Pw w : world_ext Pc Pw w w.
Proof. split; exists []; by rewrite app_nil_r. Qed.

Lemma world_ext_same Pc Pw w w' :
  w_calls w' = w_calls w -> w_writes w' = w_writes w -> world_ext Pc Pw w w'.
Proof. intros Hc Hw. split; exists []; by rewrite app_nil_r. Qed.

Lemma world_ext_trans Pc Pw w1 w2 w3 :
  world_ext Pc Pw w1 w2 -> world_ext Pc Pw w2 w3 -> world_ext Pc Pw w1 w3.
Proof.
  intros [(lc1 & Hc1 & Fc1) (lw1 & Hw1 & Fw1)] [(lc2 & Hc2 & Fc2) (lw2 & Hw2 & Fw2)].
  split.
  - exists (lc1 ++ lc2)%list. rewrite Hc2, Hc1, app_assoc. split; [done|].
    by apply Forall_app.
  - exists (lw1 ++ lw2)%list. rewrite Hw2, Hw1, app_assoc. split; [done|].
    by apply Forall_app.
Qed.

Lemma world_ext_mono Pc Pw (Qc : string * kwargs -> Prop) (Qw : path * file -> Prop) w w' :
  (forall c, Pc c -> Qc c) -> (forall x, Pw x -> Qw x) ->
  world_ext Pc Pw w w' -> world_ext Qc Qw w w'.
Proof.
  intros Hc Hw [(lc & ? & Fc) (lw & ? & Fw)]. split.
  - exists lc. split; [done|]. eapply Forall_impl; eauto.
  - exists lw. split; [done|]. eapply Forall_impl; eauto.
Qed.

Lemma world_ext_write Pc Pw w p f w' r :
  write_json p f w = (r, w') -> Pw (p, f) -> r = Ok tt /\ world_ext Pc Pw w w'.
Proof.
  unfold write_json. intros H HP; inversion H; subst. split; [done|].
  split; simpl.
  - exists []. by rewrite app_nil_r.
  - exists [(p, f)]. split; [done|]. by constructor.
Qed.

Lemma world_ext_clock (cl : client C) Pc Pw w r w' :
  clock cl w = (r, w') -> (exists t, r = Ok t) /\ world_ext Pc Pw w w'.
Proof.
  intros H. apply clock_inv in H as (t & -> & Hc & _ & Hw).
  split; [eauto|]. by apply world_ext_same.
Qed.

Lemma safe_call_ext (cl : client C) method kw retries w r w' :
  safe_call cl method kw retries w = (r, w') ->
  r <> OutOfFuel /\ w_files w' = w_files w /\
  world_ext (fun c => c = (method, kw)) (fun _ => False) w w'.
Proof.
  unfold safe_call. destruct (has_method cl method).
  - intros H. apply bind_inv in H as [(t & w1 & Hc & H) | [(? & Hc & ?) | (Hc & ?)]].
    + pose proof Hc as Hc'. apply clock_inv in Hc' as (_ & _ & _ & Hf1 & _).
      apply (world_ext_clock cl (fun c => c = (method, kw)) (fun _ => False)) in Hc
        as [_ He1].
      apply safe_call_loop_spec in H as (Hf & Hw & H).
      assert (r <> OutOfFuel /\ exists n,
                 w_calls w' = (w_calls w1 ++ replicate n (method, kw))%list)
        as [Hr [n Hn]].
      { destruct H as [(_ & -> & ->) | (os & final & cN & _ & _ & _ & Hcalls & Hfin)].
        - split; [done|]. exists O. simpl. by rewrite app_nil_r.
        - split; [|eauto].
          destruct final as [v|text];
            [destruct Hfin as (? & _ & ->) | destruct Hfin as (_ & -> & _)]; done. }
      split; [done|]. split; [congruence|].
      eapply world_ext_trans; [exact He1|]. split.
      * exists (replicate n (method, kw)). split; [done|].
        apply Forall_forall. intros x Hx. by apply elem_of_replicate in Hx as [-> _].
      * exists []. by rewrite app_nil_r.
    + apply clock_inv in Hc as (? & ? & _); done.
    + apply clock_inv in Hc as (? & ? & _); done.
  - intros H; inversion H; subst. split; [done|]. split; [done|].
    apply world_ext_refl.
Qed.

End WorldExt.

(** ** The loops that run the calls of a method *)

Section Loops.
Context {C : Type} (cl : client C).

Definition snapshot_of (output_file : option path) (I : envelope -> Prop)
    (x : path * file) : Prop :=
  exists p e, x = (p, FEnvelope e) /\ output_file = Some p /\ I e.

Lemma maybe_write_ext Pc (I : envelope -> Prop) out e w r w' :
  maybe_write (C := C) out e w = (r, w') -> I e ->
  r = Ok tt /\ world_ext Pc (snapshot_of out I) w w'.
Proof.
  unfold maybe_write. destruct out as [p|]; intros H HI.
  - eapply world_ext_write; [exact H|]. by exists p, e.
  - inversion H; subst. split; [done | apply world_ext_refl].
Qed.

Lemma run_pending_inv (I : envelope -> Prop) method out pending :
  (forall kw response took e,
      kw ∈ pending -> I e -> I (record_success kw response took e)) ->
  (forall kw text took e,
      kw ∈ pending -> I e -> I (record_failure kw text took e)) ->
  forall e w r w',
    run_pending cl method out pending e w = (r, w') -> I e ->
    exists e1, r = Ok e1 /\ I e1 /\
      world_ext (fun c => c.1 = method /\ c.2 ∈ pending) (snapshot_of out I) w w'.
Proof.
  induction pending as [|kw pending IH]; intros Hs Hf e w r w' H HI; simpl in H.
  - inversion H; subst. exists e. split; [done|]. split; [done|].
    apply world_ext_refl.
  - set (Pc := fun c : string * kwargs => c.1 = method /\ c.2 ∈ kw :: pending).
    apply bind_inv in H as [(t0 & w1 & Hc & H) | [(? & Hc & ?) | (Hc & ?)]];
      try (apply clock_inv in Hc as (? & ? & _); done).
    apply (world_ext_clock cl Pc (snapshot_of out I)) in Hc as [_ E1].
    apply bind_inv in H as [(a & w2 & Ha & H) | [(? & Ha & ?) | (Ha & ?)]].
    2,3: apply attempt_inv in Ha;
         destruct (safe_call cl method kw 1 w1) as [[?|?|] ?] eqn:Hsc;
         destruct Ha as [Ha _]; try done;
         by apply safe_call_ext in Hsc as [? _].
    apply attempt_inv in Ha.
    destruct (safe_call cl method kw 1 w1) as [[[result took]|exc|] w2'] eqn:Hsc;
      destruct Ha as [Ha ->]; try done; inversion Ha; subst a; clear Ha;
      apply safe_call_ext in Hsc as (_ & _ & E2);
      apply (world_ext_mono _ _ Pc (snapshot_of out I)) in E2;
      try (intros c ->; split; [done | by left]); try done.
    + (* the call returned *)
      apply bind_inv in H as [(e1 & w3 & He1 & H) | [(? & He1 & ?) | (He1 & ?)]];
        try done.
      inversion He1; subst e1 w3; clear He1.
      apply bind_inv in H as [([] & w4 & Hw & H) | [(? & Hw & ?) | (Hw & ?)]].
      2,3: eapply (maybe_write_ext Pc I) in Hw as [? _]; [done|];
           apply Hs; [by left | done].
      eapply (maybe_write_ext Pc I) in Hw as [_ E3]; [|apply Hs; [by left | done]].
      eapply IH in H as (e1 & -> & HI1 & E4); [| | |apply Hs; [by left | done]].
      * exists e1. split; [done|]. split; [done|].
        eapply world_ext_trans; [exact E1|].
        eapply world_ext_trans; [exact E2|].
        eapply world_ext_trans; [exact E3|].
        eapply world_ext_mono; [| |exact E4]; [|done].
        intros c [? ?]; split; [done | by right].
      * intros; apply Hs; [by right | done].
      * intros; apply Hf; [by right | done].
    + (* the call raised *)
      apply bind_inv in H as [(e1 & w3 & He1 & H) | [(? & He1 & ?) | (He1 & ?)]].
      2,3: apply bind_inv in He1 as [(? & ? & ? & He1) | [(? & Hc & ?) | (Hc & ?)]];
           try done; apply clock_inv in Hc as (? & ? & _); done.
      apply bind_inv in He1 as [(t1 & w2'' & Hc & He1) | [(? & Hc & ?) | (Hc & ?)]];
        try done.
      apply (world_ext_clock cl Pc (snapshot_of out I)) in Hc as [_ E2'].
      inversion He1; subst e1 w3; clear He1.
      apply bind_inv in H as [([] & w4 & Hw & H) | [(? & Hw & ?) | (Hw & ?)]].
      2,3: eapply (maybe_write_ext Pc I) in Hw as [? _]; [done|];
           apply Hf; [by left | done].
      eapply (maybe_write_ext Pc I) in Hw as [_ E3]; [|apply Hf; [by left | done]].
      eapply IH in H as (e1 & -> & HI1 & E4); [| | |apply Hf; [by left | done]].
      * exists e1. split; [done|]. split; [done|].
        eapply world_ext_trans; [exact E1|].
        eapply world_ext_trans; [exact E2|].
        eapply world_ext_trans; [exact E2'|].
        eapply world_ext_trans; [exact E3|].
        eapply world_ext_mono; [| |exact E4]; [|done].
        intros c [? ?]; split; [done | by right].
      * intros; apply Hs; [by right | done].
      * intros; apply Hf; [by right | done].
Qed.

End Loops.

Section PagedLoop.
Context {C : Type} (cl : client C).

Lemma safe_call_calls method kw retries w r w' :
  safe_call cl method kw retries w = (r, w') ->
  exists n, w_calls w' = (w_calls w ++ replicate n (method, kw))%list
            /\ (forall a, r = Ok a -> (0 < n)%nat)
            /\ (has_method cl method = true -> 0 <= retries -> (0 < n)%nat).
Proof.
  unfold safe_call. destruct (has_method cl method).
  - intros H. apply bind_inv in H as [(t & w1 & Hc & H) | [(? & Hc & ?) | (Hc & ?)]];
      try (apply clock_inv in Hc as (? & ? & _); done).
    apply clock_inv in Hc as (_ & _ & Hc & _).
    apply safe_call_loop_spec in H as (_ & _ & H).
    destruct H as [(Hn & -> & ->) | (os & final & cN & _ & _ & _ & Hcalls & Hfin)].
    + exists O. simpl. rewrite app_nil_r. split; [done|]. split; [done|].
      intros _ Hr. lia.
    + exists (S (length os)). rewrite Hcalls, Hc. split; [done|]. split; intros; lia.
  - intros H; inversion H; subst. exists O. simpl. rewrite app_nil_r.
    split; [done|]. split; [intros a Ha|]; done.
Qed.

Lemma callback_inv out req response error took e (w : world C) r w' :
  run_callback (Some (on_paged_chunk_done (C := C) out)) req response error took e w
  = (r, w') ->
  exists e', r = Ok e' /\ maybe_write out e' w = (Ok tt, w') /\
    e' = match error with
         | None => record_success req (default JNull response) took e
         | Some text => record_failure req text took e
         end.
Proof.
  unfold run_callback, on_paged_chunk_done. intros H. inversion H; subst.
  eexists. split; [done|]. split.
  - unfold maybe_write. destruct out; [|done]. by unfold write_json.
  - by destruct error.
Qed.

Lemma paged_loop_inv (I : envelope -> Prop) method base limit out p0 :
  0 < limit ->
  (forall s response took e,
      p0 <= s -> I e -> I (record_success (page_kwargs base s limit) response took e)) ->
  (forall s text took e,
      p0 <= s -> I e -> I (record_failure (page_kwargs base s limit) text took e)) ->
  forall fuel page_start elapsed e w r w',
    p0 <= page_start ->
    20000 - page_start <= Z.of_nat fuel * limit ->
    paged_loop cl method base limit (Some (on_paged_chunk_done out)) fuel
               page_start elapsed e w = (r, w') ->
    I e ->
    exists el e1, r = Ok (el, e1) /\ I e1 /\
      world_ext (fun c => c.1 = method
                          /\ exists s, page_start <= s /\ c.2 = page_kwargs base s limit)
                (snapshot_of out I) w w'.
Proof.
  intros Hlim Hs Hf. induction fuel as [|fuel IH];
    intros page_start elapsed e w r w' Hp0 Hfuel H HI;
    unfold paged_loop in H; fold (@paged_loop C cl envelope) in H;
    destruct (page_start <? 20000) eqn:Hlt;
    try (inversion H; subst; exists elapsed, e; split; [done|]; split; [done|];
         apply world_ext_refl).
  { apply Z.ltb_lt in Hlt. simpl in Hfuel. lia. }
  apply Z.ltb_lt in Hlt.
  fold (page_kwargs base page_start limit) in H.
  set (kw := page_kwargs base page_start limit) in *.
  set (Pc := fun c : string * kwargs =>
               c.1 = method /\ exists s, page_start <= s /\ c.2 = page_kwargs base s limit).
  assert (Hkw : forall c, c = (method, kw) -> Pc c).
  { intros c ->. split; [done|]. exists page_start. split; [lia | done]. }
  apply bind_inv in H as [(a & w1 & Ha & H) | [(? & Ha & ?) | (Ha & ?)]].
  2,3: apply attempt_inv in Ha;
       destruct (safe_call cl method kw 1 w) as [[?|?|] ?] eqn:Hsc;
       destruct Ha as [Ha _]; try done;
       by apply safe_call_ext in Hsc as [? _].
  apply attempt_inv in Ha.
  destruct (safe_call cl method kw 1 w) as [[[result took]|exc|] w1'] eqn:Hsc;
    destruct Ha as [Ha ->]; try done; inversion Ha; subst a; clear Ha;
    apply safe_call_ext in Hsc as (_ & _ & E1);
    apply (world_ext_mono _ _ Pc (snapshot_of out I)) in E1; try done.
  - apply bind_inv in H as [(e' & w2 & Hcb & H) | [(? & Hcb & ?) | (Hcb & ?)]];
      try (apply callback_inv in Hcb as (? & ? & _); done).
    apply callback_inv in Hcb as (? & Heq & Hw & ->). inversion Heq; subst e'; clear Heq.
    simpl default in *.
    assert (HI' : I (record_success kw (serialize_response_data result) took e))
      by (apply Hs; [lia | done]).
    eapply (maybe_write_ext Pc I) in Hw as [_ E2]; [|exact HI'].
    assert (E12 : world_ext Pc (snapshot_of out I) w w2)
      by (eapply world_ext_trans; eauto).
    destruct (extract_items result) as [|it items].
    { inversion H; subst. eauto 10. }
    destruct (Z.of_nat (length (it :: items)) <? limit).
    { inversion H; subst. eauto 10. }
    eapply IH in H as (el & e1 & -> & HI1 & E3); [| lia | lia | exact HI'].
    exists el, e1. split; [done|]. split; [done|].
    eapply world_ext_trans; [exact E12|].
    eapply world_ext_mono; [| |exact E3]; [|done].
    intros c [? (s & ? & ?)]. split; [done|]. exists s. split; [lia | done].
  - apply bind_inv in H as [(e' & w2 & Hcb & H) | [(? & Hcb & ?) | (Hcb & ?)]];
      try (apply callback_inv in Hcb as (? & ? & _); done).
    apply callback_inv in Hcb as (? & Heq & Hw & ->). inversion Heq; subst e'; clear Heq.
    assert (HI' : I (record_failure kw (exn_str exc) 0 e))
      by (apply Hf; [lia | done]).
    eapply (maybe_write_ext Pc I) in Hw as [_ E2]; [|exact HI'].
    inversion H; subst. eexists _, _. split; [done|]. split; [done|].
    eapply world_ext_trans; eauto.
Qed.

Lemma paged_fuel_enough page_start limit :
  0 < limit -> 20000 - page_start <= Z.of_nat (paged_fuel page_start limit) * limit.
Proof.
  intros Hl. unfold paged_fuel. destruct (limit <=? 0) eqn:E; [lia|].
  destruct (Z.le_gt_cases (20000 - page_start) 0) as [Hle|Hgt]; [nia|].
  rewrite Z2Nat.id by (apply Z.div_pos; lia).
  pose proof (Z.div_mod (20000 - page_start + limit - 1) limit ltac:(lia)).
  pose proof (Z.mod_pos_bound (20000 - page_start + limit - 1) limit Hl).
  nia.
Qed.

End PagedLoop.

(** ** The four ways through [execute_method_for_year] *)

(** Where a paged run starts: past the highest page of [data]. *)
Definition resume_cursor (e : envelope) : Z :=
  match page_starts e with
  | [] => 0
  | starts => list_max starts + 100
  end.

Definition cache_envelope (cached_data : json) (e0 : envelope) : envelope :=
  set_status success
    (recount_cache
       (add_data (mk_data seed_cache_request (serialize_response_data cached_data))
                 (add_request seed_cache_request e0))).

Definition skip_envelope (reason : string) (e0 : envelope) : envelope :=
  recount (add_error (mk_error None reason) (set_status skipped e0)).

Definition pending_of (e0 : envelope) (plan : list kwargs) : list kwargs :=
  filter (fun kw => negb (bool_decide (request_key kw ∈ get_completed_request_keys e0)))
         plan.

Section Branches.
Context {C : Type} (cl : client C).

Lemma paged_extra_limit method :
  default (JInt 100) (dict_get "limit" (paged_extra method)) = JInt 100.
Proof.
  unfold paged_extra, set_if.
  destruct (String.eqb method "get_workouts"), (String.eqb method "get_activities");
    reflexivity.
Qed.

Lemma resume_start_of_extra e method :
  resume_start_of e (paged_extra method) = Ok (resume_cursor e).
Proof.
  unfold resume_start_of, resume_cursor. rewrite paged_extra_limit.
  by destruct (page_starts e).
Qed.

Lemma execute_paged_extra {S} method start_from (cb : option (chunk_callback S)) st :
  execute_paged_method cl method (paged_extra method) start_from cb st
  = paged_loop cl method (paged_extra method) 100 cb
               (paged_fuel (Z.max 0 start_from) 100) (Z.max 0 start_from) 0 st.
Proof.
  unfold execute_paged_method. rewrite paged_extra_limit. reflexivity.
Qed.

(** The paged branch. *)
Definition paged_run (method : string) (out : option path) (e0 : envelope)
    (w : world C) (r : res envelope) (w' : world C) : Prop :=
  exists r1,
    paged_loop cl method (paged_extra method) 100 (Some (on_paged_chunk_done out))
               (paged_fuel (Z.max 0 (resume_cursor e0)) 100)
               (Z.max 0 (resume_cursor e0)) 0 e0 w = (r1, w') /\
    r = '(_, e1) ← r1; mret (set_status (final_status_paged (env_stats e1)) e1).

(** The branch of the planner: no plan (the planner raised or stopped), a
    skip, or the planned calls. *)
Definition planned_run (method : string) (out : option path) (e0 : envelope)
    (planned : res (list kwargs * option string))
    (w : world C) (r : res envelope) (w' : world C) : Prop :=
  match planned with
  | Raise exc => r = Raise exc /\ w' = w
  | OutOfFuel => r = OutOfFuel /\ w' = w
  | Ok ([], Some reason) =>
      maybe_write out (skip_envelope reason e0) w = (Ok tt, w') /\
      r = Ok (skip_envelope reason e0)
  | Ok (plan, _) =>
      exists r1,
        run_pending cl method out (pending_of e0 plan) e0 w = (r1, w') /\
        r = e1 ← r1; mret (set_status (final_status (env_stats e1)) e1)
  end.

Lemma maybe_write_Ok out e (w : world C) :
  exists w', maybe_write out e w = (Ok tt, w').
Proof. unfold maybe_write, write_json. destruct out; eauto. Qed.

Lemma bind_res_inv {A B} (m : M C A) (f : A -> M C B) w r w' :
  (m ≫= f) w = (r, w') ->
  exists r1 w1, m w = (r1, w1) /\
    match r1 with
    | Ok a => f a w1 = (r, w')
    | Raise e => r = Raise e /\ w' = w1
    | OutOfFuel => r = OutOfFuel /\ w' = w1
    end.
Proof.
  unfold mbind, M_bind. destruct (m w) as [[a|e|] w1]; intros H;
    eexists _, _; (split; [done|]); simpl; try done; by inversion H.
Qed.

(** The run is one of: the seed-cache branch, the paged loop, or the branch
    of the planner. *)
Lemma execute_method_inv spec ctx incl out existing w r w' :
  execute_method_for_year cl spec ctx incl out existing w = (r, w') ->
  let method := ms_method spec in
  let ct := classify_call_type method (ms_signature spec) in
  let e0 := start_envelope spec ctx existing in
  (exists cached_data,
      usable_cache (cached_method_data ctx !! method) = Some cached_data /\
      env_data e0 = [] /\
      maybe_write out (cache_envelope cached_data e0) w = (Ok tt, w') /\
      r = Ok (cache_envelope cached_data e0))
  \/ ((usable_cache (cached_method_data ctx !! method) = None \/ env_data e0 <> []) /\
      ((ct = paged /\ paged_run method out e0 w r w')
       \/ (ct <> paged /\
           planned_run method out e0
             (build_calls_for_method method (ms_signature spec) ct ctx incl) w r w'))).
Proof.
  intros H method ct e0. unfold execute_method_for_year in H.
  fold method ct e0 in H.
  assert (Hnc :
    (match ct with
     | paged =>
         resume_start ← lift (resume_start_of e0 (paged_extra method));
         '(_, e1) ← execute_paged_method cl method (paged_extra method) resume_start
                      (Some (on_paged_chunk_done out)) e0;
         mret (set_status (final_status_paged (env_stats e1)) e1)
     | _ =>
         '(call_kwargs_list, skip_reason) ←
           lift (build_calls_for_method method (ms_signature spec) ct ctx incl);
         match skip_reason, call_kwargs_list with
         | Some reason, [] =>
             _ ← maybe_write out (skip_envelope reason e0); mret (skip_envelope reason e0)
         | _, _ =>
             e1 ← run_pending cl method out (pending_of e0 call_kwargs_list) e0;
             mret (set_status (final_status (env_stats e1)) e1)
         end
     end) w = (r, w') ->
    (ct = paged /\ paged_run method out e0 w r w')
    \/ (ct <> paged /\
        planned_run method out e0
          (build_calls_for_method method (ms_signature spec) ct ctx incl) w r w')).
  { intros H'.
    assert (Hplan :
      ('(call_kwargs_list, skip_reason) ←
           lift (build_calls_for_method method (ms_signature spec) ct ctx incl);
         match skip_reason, call_kwargs_list with
         | Some reason, [] =>
             _ ← maybe_write out (skip_envelope reason e0); mret (skip_envelope reason e0)
         | _, _ =>
             e1 ← run_pending cl method out (pending_of e0 call_kwargs_list) e0;
             mret (set_status (final_status (env_stats e1)) e1)
         end) w = (r, w') ->
      planned_run method out e0
        (build_calls_for_method method (ms_signature spec) ct ctx incl) w r w').
    { clear H'. unfold mbind at 1, M_bind at 1, lift, planned_run.
      destruct (build_calls_for_method method (ms_signature spec) ct ctx incl)
        as [[plan reason]|exc|] eqn:Hb; [|intros H'; by inversion H'..].
      intros H'.
      assert (Hrun :
        (e1 ← run_pending cl method out (pending_of e0 plan) e0;
         mret (set_status (final_status (env_stats e1)) e1)) w = (r, w') ->
        exists r1, run_pending cl method out (pending_of e0 plan) e0 w = (r1, w') /\
                   r = e1 ← r1; mret (set_status (final_status (env_stats e1)) e1)).
      { unfold mbind at 1, M_bind at 1.
        destruct (run_pending cl method out (pending_of e0 plan) e0 w)
          as [[e1|e|] w1]; intros Hx; inversion Hx; subst; eauto. }
      destruct reason as [reason|]; destruct plan as [|kw plan]; try by apply Hrun.
      destruct (maybe_write_Ok out (skip_envelope reason e0) w) as [w1 Hw].
      unfold mbind, M_bind in H'. rewrite Hw in H'. by inversion H'; subst. }
    destruct ct; try (right; split; [done|]; by apply Hplan).
    left. split; [done|]. clear Hplan.
    unfold mbind at 1, M_bind at 1, lift in H'.
    rewrite resume_start_of_extra in H'. rewrite execute_paged_extra in H'.
    unfold mbind, M_bind in H'. unfold paged_run.
    destruct (paged_loop _ _ _ _ _ _ _ _ _ w) as [r1 w1] eqn:Hl.
    exists r1. destruct r1 as [[el e1]|e|]; inversion H'; subst; done. }
  destruct (usable_cache (cached_method_data ctx !! method)) as [cached|] eqn:Hu.
  - change (success_calls (env_stats e0)) with (length (env_data e0)) in H.
    destruct (env_data e0) as [|d l] eqn:Hd; cbn [length] in H.
    + left. exists cached. split; [done|]. split; [done|].
      fold (cache_envelope cached e0) in H.
      destruct (maybe_write_Ok out (cache_envelope cached e0) w) as [w1 Hw].
      unfold mbind, M_bind in H. rewrite Hw in H. by inversion H; subst.
    + right. split; [by right|]. apply Hnc. exact H.
  - right. split; [by left|]. apply Hnc.
    destruct (success_calls (env_stats e0)); exact H.
Qed.

End Branches.

(** ** The counters and the status table *)

(** The counters are the lengths of the three lists. *)
Definition counted (e : envelope) : Prop :=
  attempted_calls (env_stats e) = length (env_request_args e)
  /\ success_calls (env_stats e) = length (env_data e)
  /\ failed_calls (env_stats e) = length (env_errors e).

(** The status table of the specification. *)
Definition table_ok (e : envelope) : Prop :=
  let s := env_stats e in
  (env_status e = success <-> (0 < success_calls s /\ failed_calls s = 0)%nat)
  /\ (env_status e = partial <-> (0 < success_calls s /\ 0 < failed_calls s)%nat)
  /\ (env_status e = failed <-> (0 < attempted_calls s /\ success_calls s = 0)%nat)
  /\ (env_status e = skipped <-> attempted_calls s = 0%nat).

(** No more successes than attempts. *)
Definition data_within_args (e : envelope) : Prop :=
  (length (env_data e) <= length (env_request_args e))%nat.

Section PagedStep.
Context {C : Type} (cl : client C).

(** One turn of the paged loop below the ceiling. *)
Lemma paged_loop_unfold method base limit out fuel page_start elapsed e w r w' :
  page_start < 20000 ->
  paged_loop cl method base limit (Some (on_paged_chunk_done out)) (S fuel)
             page_start elapsed e w = (r, w') ->
  let kw := page_kwargs base page_start limit in
  exists n w2 e',
    w_calls w2 = (w_calls w ++ replicate n (method, kw))%list /\
    (has_method cl method = true -> (0 < n)%nat) /\
    ((exists response took,
         e' = record_success kw response took e /\ (0 < n)%nat /\
         ((exists el, r = Ok (el, e') /\ w' = w2)
          \/ exists el, paged_loop cl method base limit (Some (on_paged_chunk_done out))
                                   fuel (page_start + limit) el e' w2 = (r, w')))
     \/ (exists text, e' = record_failure kw text 0 e /\
                      exists el, r = Ok (el, e') /\ w' = w2)).
Proof.
  intros Hlt H kw. unfold paged_loop in H; fold (@paged_loop C cl envelope) in H.
  apply Z.ltb_lt in Hlt. rewrite Hlt in H.
  fold (page_kwargs base page_start limit) in H. fold kw in H.
  apply bind_res_inv in H as (r1 & w1 & Ha & H).
  apply attempt_inv in Ha.
  destruct (safe_call cl method kw 1 w) as [[[result took]|exc|] w1'] eqn:Hsc;
    destruct Ha as [-> ->].
  - apply safe_call_calls in Hsc as (n & Hn & Hpos & Hhas).
    apply bind_res_inv in H as (r2 & w2 & Hcb & H).
    apply callback_inv in Hcb as (e' & -> & Hw & ->). simpl default.
    assert (Hc2 : w_calls w2 = w_calls w1').
    { unfold maybe_write, write_json in Hw. destruct out; by inversion Hw. }
    exists n, w2, (record_success kw (serialize_response_data result) took e).
    split; [congruence|]. split; [intros; apply Hhas; [done | lia]|].
    left. eexists _, _. split; [done|].
    split; [by eapply Hpos|].
    destruct (extract_items result) as [|it items]; [inversion H; subst; eauto|].
    destruct (Z.of_nat (length (it :: items)) <? limit); [inversion H; subst; eauto|].
    right. eauto.
  - apply safe_call_calls in Hsc as (n & Hn & _ & Hhas).
    apply bind_res_inv in H as (r2 & w2 & Hcb & H).
    apply callback_inv in Hcb as (e' & -> & Hw & ->).
    assert (Hc2 : w_calls w2 = w_calls w1').
    { unfold maybe_write, write_json in Hw. destruct out; by inversion Hw. }
    exists n, w2, (record_failure kw (exn_str exc) 0 e).
    split; [congruence|]. split; [intros; apply Hhas; [done | lia]|]. right. eexists. split; [done|]. inversion H; subst. eauto.
  - by apply safe_call_ext in Hsc as [? _].
Qed.

Lemma record_success_args kw response took e :
  env_request_args (record_success kw response took e) = (env_request_args e ++ [kw])%list.
Proof. reflexivity. Qed.

Lemma record_failure_args kw text took e :
  env_request_args (record_failure kw text took e) = (env_request_args e ++ [kw])%list.
Proof. reflexivity. Qed.

(** Below the ceiling the paged loop records at least one request. *)
Lemma paged_loop_progress method base limit out fuel page_start elapsed e w r w' :
  0 < limit -> page_start < 20000 ->
  20000 - page_start <= Z.of_nat fuel * limit ->
  paged_loop cl method base limit (Some (on_paged_chunk_done out)) fuel
             page_start elapsed e w = (r, w') ->
  exists el e1, r = Ok (el, e1)
                /\ (length (env_request_args e) < length (env_request_args e1))%nat.
Proof.
  intros Hlim Hlt Hfuel H. destruct fuel as [|fuel]; [simpl in Hfuel; lia|].
  apply paged_loop_unfold in H as (n & w2 & e' & _ & _ & H); [|done].
  set (I := fun x : envelope =>
              (length (env_request_args e) < length (env_request_args x))%nat).
  assert (HI' : I e').
  { unfold I. destruct H as [(? & ? & -> & _) | (? & -> & _)];
      [rewrite record_success_args | rewrite record_failure_args];
      rewrite length_app; simpl; lia. }
  destruct H as [(? & ? & _ & _ & [(el & -> & _) | (el & H)]) | (? & _ & el & -> & _)];
    eauto.
  eapply (paged_loop_inv cl I _ _ _ _ (page_start + limit)) in H
    as (el' & e1 & -> & HI1 & _); eauto; try lia.
  - intros s response took env' _ Hx. unfold I in *.
    rewrite record_success_args, length_app. simpl. lia.
  - intros s text took env' _ Hx. unfold I in *.
    rewrite record_failure_args, length_app. simpl. lia.
Qed.

End PagedStep.

Lemma table_final e1 :
  counted e1 -> data_within_args e1 ->
  table_ok (set_status (final_status (env_stats e1)) e1).
Proof.
  unfold counted, data_within_args, table_ok, final_status.
  destruct e1 as [m sec y ct st args dat errs [a s f d]]; simpl.
  intros (-> & -> & ->) Hle.
  destruct (length dat) as [|s'], (length errs) as [|f'], (length args) as [|a'];
    simpl; repeat split; intros; try done; try lia; intuition (try done; try lia).
Qed.

Lemma table_final_paged e1 :
  counted e1 -> data_within_args e1 -> (0 < length (env_request_args e1))%nat ->
  table_ok (set_status (final_status_paged (env_stats e1)) e1).
Proof.
  unfold counted, data_within_args, table_ok, final_status_paged.
  destruct e1 as [m sec y ct st args dat errs [a s f d]]; simpl.
  intros (-> & -> & ->) Hle Hpos.
  destruct (length dat) as [|s'], (length errs) as [|f'], (length args) as [|a'];
    simpl; repeat split; intros; try done; try lia; intuition (try done; try lia).
Qed.

Lemma page_starts_nil e : env_data e = [] -> resume_cursor e = 0.
Proof. unfold resume_cursor, page_starts. by intros ->. Qed.

Section StatusTable.
Context {C : Type} (cl : client C).

(** What the counters need along a run that starts from [e0]. *)
Definition growing (e0 e : envelope) : Prop :=
  counted e /\ data_within_args e
  /\ (length (env_data e0) <= length (env_data e))%nat.

Lemma growing_success e0 kw response took e :
  growing e0 e -> growing e0 (record_success kw response took e).
Proof.
  unfold growing, counted, data_within_args. simpl. rewrite !length_app. simpl.
  intros (_ & ? & ?). repeat split; lia.
Qed.

Lemma growing_failure e0 kw text took e :
  growing e0 e -> growing e0 (record_failure kw text took e).
Proof.
  unfold growing, counted, data_within_args. simpl. rewrite !length_app. simpl.
  intros (_ & ? & ?). repeat split; lia.
Qed.

Lemma growing_refl e : counted e -> data_within_args e -> growing e e.
Proof. intros H1 H2. repeat split; try apply H1; [done | lia]. Qed.

Lemma counted_start spec ctx existing : counted (start_envelope spec ctx existing).
Proof. repeat split. Qed.

(** C1 (as amended). Let the run start from an envelope with no more
    successes than attempted calls (a fresh envelope is one). Then the
    returned envelope satisfies the status table, except in two branches that
    set the status without looking at the counters: the seed-cache branch,
    taken when the cache is usable and the prior envelope holds no data,
    returns [success] although the prior envelope holds errors, and the skip
    branch returns [skipped] although the prior envelope holds attempted
    calls. A run that starts from a fresh envelope always satisfies the
    table; so does every run outside the seed-cache branch of a paged method,
    and of any method for which the planner gives no skip reason. *)
Theorem status_derivation spec ctx incl out existing w e w' :
  data_within_args (start_envelope spec ctx existing) ->
  execute_method_for_year cl spec ctx incl out existing w = (Ok e, w') ->
  (table_ok e
   \/ ((exists cached_data,
           usable_cache (cached_method_data ctx !! ms_method spec) = Some cached_data)
       /\ env_data (start_envelope spec ctx existing) = []
       /\ env_errors (start_envelope spec ctx existing) <> []
       /\ env_status e = success /\ ~ table_ok e)
   \/ ((exists reason,
           build_calls_for_method (ms_method spec) (ms_signature spec)
             (classify_call_type (ms_method spec) (ms_signature spec)) ctx incl
           = Ok ([], Some reason))
       /\ env_request_args (start_envelope spec ctx existing) <> []
       /\ env_status e = skipped /\ ~ table_ok e))
  /\ (existing = None -> table_ok e)
  /\ (usable_cache (cached_method_data ctx !! ms_method spec) = None
      \/ env_data (start_envelope spec ctx existing) <> [] ->
      classify_call_type (ms_method spec) (ms_signature spec) = paged ->
      table_ok e)
  /\ (usable_cache (cached_method_data ctx !! ms_method spec) = None
      \/ env_data (start_envelope spec ctx existing) <> [] ->
      (forall reason,
          build_calls_for_method (ms_method spec) (ms_signature spec)
            (classify_call_type (ms_method spec) (ms_signature spec)) ctx incl
          <> Ok ([], Some reason)) ->
      table_ok e).
Proof.
  intros Hle H.
  pose proof (counted_start spec ctx existing) as Hc0.
  assert (Hfresh : existing = None ->
                   env_errors (start_envelope spec ctx existing) = []
                   /\ env_request_args (start_envelope spec ctx existing) = []).
  { by intros ->. }
  apply execute_method_inv in H.
  remember (start_envelope spec ctx existing) as e0 eqn:He0.
  assert (Hmain :
    table_ok e
    \/ ((exists cached_data,
            usable_cache (cached_method_data ctx !! ms_method spec) = Some cached_data)
        /\ env_data e0 = []
        /\ env_errors e0 <> [] /\ env_status e = success /\ ~ table_ok e)
    \/ ((exists reason,
            build_calls_for_method (ms_method spec) (ms_signature spec)
              (classify_call_type (ms_method spec) (ms_signature spec)) ctx incl
            = Ok ([], Some reason))
        /\ env_request_args e0 <> [] /\ env_status e = skipped /\ ~ table_ok e)).
  { clear Hfresh He0.
    destruct H as [(cached & Hu & Hd & _ & He) | (_ & [[Hct Hp] | [Hct Hp]])].
    - (* seed cache *)
      inversion He; subst e; clear He.
      destruct (env_errors e0) as [|x errs] eqn:Herr.
      + left. destruct Hc0 as (_ & _ & Hf0).
        unfold table_ok, cache_envelope. simpl. rewrite Hf0, Hd, Herr, !length_app.
        simpl. repeat split; intros; try done; try lia; intuition (try done; try lia).
      + right; left. split; [eauto|]. split; [exact Hd|]. split; [done|]. split; [done|].
        destruct Hc0 as (_ & _ & Hf0).
        unfold table_ok, cache_envelope. simpl. rewrite Hf0, Herr. simpl.
        intros ((Hs & _) & _). specialize (Hs eq_refl). lia.
    - (* paged loop *)
      left. destruct Hp as (r1 & Hl & Hr).
      destruct r1 as [[el e1]|?|]; try done. inversion Hr; subst e; clear Hr.
      destruct (paged_loop_inv cl (growing e0) (ms_method spec)
                  (paged_extra (ms_method spec)) 100 out (Z.max 0 (resume_cursor e0))
                  ltac:(lia)
                  (fun s response took x _ => growing_success e0 _ response took x)
                  (fun s text took x _ => growing_failure e0 _ text took x)
                  _ _ _ _ _ _ _ (Z.le_refl _)
                  (paged_fuel_enough _ 100 ltac:(lia)) Hl (growing_refl e0 Hc0 Hle))
        as (? & ? & Heq & (Hc & Hda & Hmono) & _).
      pose proof Hl as Hl'.
      inversion Heq; subst; clear Heq.
      apply table_final_paged; [done | done |].
      destruct (env_data e0) as [|d l] eqn:Hd.
      + rewrite (page_starts_nil e0 Hd) in Hl'.
        apply paged_loop_progress in Hl' as (? & ? & Heq & Hlt);
          [|lia|done|by apply paged_fuel_enough].
        inversion Heq; subst. lia.
      + unfold data_within_args in Hda. simpl in Hmono. lia.
    - (* the planner *)
      unfold planned_run in Hp.
      destruct (build_calls_for_method _ _ _ ctx incl) as [[plan reason]|?|] eqn:Hb;
        [|by destruct Hp..].
      assert (Hrun :
        (exists r1, run_pending cl (ms_method spec) out (pending_of e0 plan) e0 w = (r1, w')
                    /\ Ok e = e1 ← r1; mret (set_status (final_status (env_stats e1)) e1))
        -> table_ok e).
      { intros (r1 & Hrp & Hr). destruct r1 as [e1|?|]; try done.
        inversion Hr; subst e; clear Hr.
        eapply (run_pending_inv cl (growing e0)) in Hrp
          as (? & Heq & (Hc & Hda & _) & _);
          eauto using growing_success, growing_failure, growing_refl.
        inversion Heq; subst. by apply table_final. }
      destruct plan as [|kw plan]; [destruct reason as [reason|]|]; try by left; apply Hrun.
      destruct Hp as [_ He]. inversion He; subst e; clear He.
      destruct (env_request_args e0) as [|a args] eqn:Ha.
      + left. unfold data_within_args in Hle. rewrite Ha in Hle.
        destruct (env_data e0) as [|d l] eqn:Hd; [|simpl in Hle; lia].
        unfold table_ok, skip_envelope. simpl. rewrite Ha, Hd, !length_app. simpl.
        repeat split; intros; try done; try lia; intuition (try done; try lia).
      + right; right. split; [eauto|]. split; [done|]. split; [done|].
        unfold table_ok, skip_envelope. simpl. rewrite Ha. simpl.
        intros (_ & _ & _ & Hs). destruct Hs as [Hs _]. by specialize (Hs eq_refl). }
  split; [exact Hmain|]. split.
  { intros Hn. destruct (Hfresh Hn) as [He Ha].
    destruct Hmain as [?|[(_ & _ & Hne & _) | (_ & Hne & _)]]; [done|..]; by destruct Hne. }
  split.
  - intros Hnc Hct.
    destruct Hmain as [?|[((c & Hu) & Hd & _) | ((reason & Hb) & _)]]; [done| |].
    + destruct Hnc as [Hn|Hn]; [by rewrite Hn in Hu | done].
    + rewrite Hct in Hb. unfold build_calls_for_method in Hb. discriminate Hb.
  - intros Hnc Hns.
    destruct Hmain as [?|[((c & Hu) & Hd & _) | ((reason & Hb) & _)]]; [done| |].
    + destruct Hnc as [Hn|Hn]; [by rewrite Hn in Hu | done].
    + by destruct (Hns reason).
Qed.

End StatusTable.

Definition plain_ctx : seed_context :=
  mk_ctx 2025 "2025-01-01" "2025-12-31" [] [] [] [] [] [] [] [] ∅.

Definition devices_payload : json := JList [JDict [("deviceId", JInt 7)]].

Definition devices_spec : method_spec :=
  mk_spec "Device & Technical" "device_technical" "get_devices" "get_devices()".

(** A service whose device list fails at first and answers later. *)
Definition late_devices : client nat :=
  scripted (fun _ => true)
    (fun m kw n =>
       if String.eqb m "get_devices" then
         (if (n <? 30)%nat then Failed "503 Server Error" else Returned devices_payload)
       else if String.eqb m "get_activities" then Returned (JList [])
       else if String.eqb m "get_workouts" then Returned (JDict [("workouts", JList [])])
       else Returned (JDict [])).

Lemma status_derivation_witness :
  exists e w',
    execute_method_for_year late_devices devices_spec plain_ctx true None None empty_world
    = (Ok e, w')
    /\ table_ok e.
Proof.
  eexists _, _. split; [vm_compute; reflexivity|].
  refine (proj1 (proj2 (status_derivation late_devices devices_spec plain_ctx true None
                          None empty_world _ _ _ _)) eq_refl).
  - vm_compute. lia.
  - vm_compute. reflexivity.
Defined.

Definition first_year_run : res path * world nat :=
  collect_year_data late_devices [devices_spec] 2025 false true None empty_world.

Definition second_year_run : res path * world nat :=
  collect_year_data late_devices [devices_spec] 2025 false true None first_year_run.2.

(** C1 (as stated) fails. In a first run of the year the device list fails,
    both in the bootstrap and as a method, and its envelope is persisted as
    [failed] with one error. In the next run the bootstrap gets the list, the
    method resumes, and the seed-cache branch marks the envelope [success]
    with [failed_calls = 1], where the table asks for [partial]. *)
Lemma seed_cache_success_despite_failures :
  exists e1 e2,
    w_files first_year_run.2 !! EnvelopePath 2025 "device_technical" "get_devices"
    = Some (FEnvelope e1)
    /\ env_status e1 = failed
    /\ w_files second_year_run.2 !! EnvelopePath 2025 "device_technical" "get_devices"
       = Some (FEnvelope e2)
    /\ env_status e2 = success
    /\ success_calls (env_stats e2) = 1%nat
    /\ failed_calls (env_stats e2) = 1%nat
    /\ ~ table_ok e2.
Proof.
  eexists _, _. split; [vm_compute; reflexivity|]. split; [reflexivity|].
  split; [vm_compute; reflexivity|]. split; [reflexivity|].
  split; [reflexivity|]. split; [reflexivity|].
  intros ((Hs & _) & _). specialize (Hs eq_refl). simpl in Hs. lia.
Qed.

(** ** Every attempted call is recorded once *)

(** The requests recorded in [data] and in [errors]. *)
Definition requests_of (e : envelope) : list kwargs :=
  (map di_request (env_data e) ++ omap ei_request (env_errors e))%list.

(** Each attempted call is recorded once, in [data] or in [errors]. *)
Definition accounted (e : envelope) : Prop :=
  env_request_args e ≡ₚ requests_of e.

(** The error entries that belong to no call: skip reasons and unexpected
    exceptions. *)
Definition stray_errors (e : envelope) : nat :=
  length (filter (fun x => ei_request x = None) (env_errors e)).

(** [success_calls + failed_calls <= attempted_calls]. *)
Definition bounded (e : envelope) : Prop :=
  (success_calls (env_stats e) + failed_calls (env_stats e)
   <= attempted_calls (env_stats e))%nat.

Definition well_recorded (e : envelope) : Prop :=
  counted e /\ accounted e
  /\ (success_calls (env_stats e) + failed_calls (env_stats e)
      = attempted_calls (env_stats e) + stray_errors e)%nat.

Lemma omap_request_length (errs : list error_item) :
  (length errs
   = length (omap ei_request errs) + length (filter (fun x => ei_request x = None) errs))%nat.
Proof.
  induction errs as [|x errs IH]; [done|].
  rewrite filter_cons. simpl.
  destruct (decide (ei_request x = None)) as [E|E]; destruct (ei_request x);
    simpl; try done; unfold omap in IH; lia.
Qed.

Lemma well_recorded_intro e : counted e -> accounted e -> well_recorded e.
Proof.
  intros Hc Ha. split; [done|]. split; [done|].
  destruct Hc as (-> & -> & ->). unfold stray_errors.
  apply Permutation_length in Ha. unfold requests_of in Ha.
  rewrite length_app, length_map in Ha.
  pose proof (omap_request_length (env_errors e)). lia.
Qed.

Lemma accounted_success kw response took e :
  accounted e -> accounted (record_success kw response took e).
Proof.
  unfold accounted, requests_of. simpl. intros ->. rewrite map_app. simpl.
  solve_Permutation.
Qed.

Lemma accounted_failure kw text took e :
  accounted e -> accounted (record_failure kw text took e).
Proof.
  unfold accounted, requests_of. simpl. intros ->. rewrite omap_app. simpl.
  solve_Permutation.
Qed.

Lemma stray_failure kw text took e :
  stray_errors (record_failure kw text took e) = stray_errors e.
Proof.
  unfold stray_errors. simpl. rewrite filter_app, length_app, filter_cons. simpl.
  destruct (decide (Some kw = None)); [done|]. simpl. lia.
Qed.

(** An envelope of a run that started from [e0]: its counters are the lengths
    of its lists, every attempted call is recorded once, and it holds the
    stray errors of [e0], or one more when the run was skipped. *)
Definition recorded_from (e0 e : envelope) : Prop :=
  well_recorded e
  /\ (stray_errors e = stray_errors e0
      \/ (env_status e = skipped /\ stray_errors e = S (stray_errors e0))).

Section Recording.
Context {C : Type} (cl : client C).

Definition kept (e0 e : envelope) : Prop :=
  counted e /\ accounted e /\ stray_errors e = stray_errors e0.

Lemma kept_success e0 kw response took e :
  kept e0 e -> kept e0 (record_success kw response took e).
Proof.
  intros (_ & Ha & Hs). split; [by repeat split|].
  split; [by apply accounted_success | exact Hs].
Qed.

Lemma kept_failure e0 kw text took e :
  kept e0 e -> kept e0 (record_failure kw text took e).
Proof.
  intros (_ & Ha & Hs). split; [by repeat split|].
  split; [by apply accounted_failure | by rewrite stray_failure].
Qed.

Lemma kept_recorded e0 e : kept e0 e -> recorded_from e0 e.
Proof. intros (Hc & Ha & Hs). split; [by apply well_recorded_intro | by left]. Qed.

Lemma kept_set_status e0 st e : kept e0 e -> kept e0 (set_status st e).
Proof. intros (Hc & Ha & Hs). done. Qed.

Lemma kept_cache e0 cached :
  counted e0 -> accounted e0 -> kept e0 (cache_envelope cached e0).
Proof.
  intros (_ & _ & Hf) Ha. split; [|split; [|done]].
  - split; [done|]. split; [done|]. exact Hf.
  - revert Ha. unfold accounted, requests_of, cache_envelope. simpl. intros ->.
    rewrite map_app. simpl. solve_Permutation.
Qed.

Lemma skip_recorded e0 reason :
  accounted e0 -> recorded_from e0 (skip_envelope reason e0).
Proof.
  intros Ha. split.
  - apply well_recorded_intro; [by repeat split|].
    revert Ha. unfold accounted, requests_of, skip_envelope. simpl. intros ->.
    rewrite omap_app. simpl. by rewrite app_nil_r.
  - right. split; [done|]. unfold stray_errors, skip_envelope. simpl.
    rewrite filter_app, length_app, filter_cons. simpl.
    destruct (decide (@None kwargs = None)); [|done]. simpl. lia.
Qed.

Lemma synthetic_stray year spec exc :
  well_recorded (synthetic_envelope year spec exc)
  /\ stray_errors (synthetic_envelope year spec exc) = 1%nat
  /\ ~ bounded (synthetic_envelope year spec exc).
Proof.
  split; [|split].
  - apply well_recorded_intro; [by repeat split|].
    unfold accounted, requests_of. simpl. done.
  - reflexivity.
  - unfold bounded. simpl. lia.
Qed.

(** C2 (as amended). A run that starts from an envelope in which every
    attempted call is recorded once (a fresh envelope is one) persists and
    returns only envelopes in which the counters are the lengths of the
    lists, every attempted call is recorded once, in [data] or in [errors],
    and [success_calls + failed_calls] is [attempted_calls] plus the number
    of error entries that belong to no call. The run adds such an entry only
    when it is skipped; so from an envelope without one, the sum is bounded
    by [attempted_calls] unless the run is skipped, and then it exceeds it by
    one. The envelope made of an unexpected exception holds one such entry
    for no attempted call, and exceeds the bound too. *)
Theorem calls_recorded_once spec ctx incl out existing w r w' :
  accounted (start_envelope spec ctx existing) ->
  execute_method_for_year cl spec ctx incl out existing w = (r, w') ->
  world_ext (fun _ => True)
            (snapshot_of out (recorded_from (start_envelope spec ctx existing))) w w'
  /\ (forall e, r = Ok e ->
        recorded_from (start_envelope spec ctx existing) e
        /\ (stray_errors (start_envelope spec ctx existing) = O ->
            bounded e \/ (env_status e = skipped /\ ~ bounded e)))
  /\ (forall year exc,
        well_recorded (synthetic_envelope year spec exc)
        /\ stray_errors (synthetic_envelope year spec exc) = 1%nat
        /\ ~ bounded (synthetic_envelope year spec exc)).
Proof.
  intros Ha H.
  pose proof (counted_start spec ctx existing) as Hc0.
  apply execute_method_inv in H.
  remember (start_envelope spec ctx existing) as e0 eqn:He0. clear He0.
  assert (Hk0 : kept e0 e0) by done.
  assert (Hmain :
    world_ext (fun _ => True) (snapshot_of out (recorded_from e0)) w w'
    /\ forall e, r = Ok e -> recorded_from e0 e).
  { destruct H as [(cached & Hu & Hd & Hw & He) | (_ & [[Hct Hp] | [Hct Hp]])].
    - pose proof (kept_recorded _ _ (kept_cache e0 cached Hc0 Ha)) as Hr.
      eapply (maybe_write_ext (fun _ => True) (recorded_from e0)) in Hw as [_ E]; [|exact Hr].
      split; [done|]. intros e ->. by inversion He.
    - destruct Hp as (r1 & Hl & Hr).
      destruct (paged_loop_inv cl (kept e0) (ms_method spec)
                  (paged_extra (ms_method spec)) 100 out (Z.max 0 (resume_cursor e0))
                  ltac:(lia)
                  (fun s response took x _ => kept_success e0 _ response took x)
                  (fun s text took x _ => kept_failure e0 _ text took x)
                  _ _ _ _ _ _ _ (Z.le_refl _)
                  (paged_fuel_enough _ 100 ltac:(lia)) Hl Hk0)
        as (el & e1 & -> & Hk1 & E).
      split.
      + eapply world_ext_mono; [| |exact E]; [done|].
        intros x (p & e & -> & -> & Hk). exists p, e. eauto using kept_recorded.
      + intros e ->. inversion Hr; subst. by apply kept_recorded, kept_set_status.
    - unfold planned_run in Hp.
      destruct (build_calls_for_method _ _ _ ctx incl) as [[plan reason]|?|] eqn:Hb;
        [|destruct Hp as [-> ->]; split; [apply world_ext_refl | done]..].
      assert (Hrun :
        (exists r1, run_pending cl (ms_method spec) out (pending_of e0 plan) e0 w = (r1, w')
                    /\ r = e1 ← r1; mret (set_status (final_status (env_stats e1)) e1))
        -> world_ext (fun _ => True) (snapshot_of out (recorded_from e0)) w w'
           /\ forall e, r = Ok e -> recorded_from e0 e).
      { intros (r1 & Hrp & Hr).
        eapply (run_pending_inv cl (kept e0)) in Hrp as (e1 & -> & Hk1 & E);
          eauto using kept_success, kept_failure.
        split.
        + eapply world_ext_mono; [| |exact E]; [done|].
          intros x (p & e & -> & -> & Hk). exists p, e. eauto using kept_recorded.
        + intros e ->. inversion Hr; subst. by apply kept_recorded, kept_set_status. }
      destruct plan as [|kw plan]; [destruct reason as [reason|]|]; try by apply Hrun.
      destruct Hp as [Hw ->].
      pose proof (skip_recorded e0 reason Ha) as Hr.
      eapply (maybe_write_ext (fun _ => True) (recorded_from e0)) in Hw as [_ E]; [|exact Hr].
      split; [done|]. intros e He. by inversion He. }
  destruct Hmain as [E Hres]. split; [exact E|]. split; [|intros; apply synthetic_stray].
  intros e He. specialize (Hres e He). split; [exact Hres|].
  intros H0. destruct Hres as [(_ & _ & Hsum) [Hs | [Hst Hs]]]; rewrite Hs, H0 in Hsum.
  - left. unfold bounded. lia.
  - right. split; [done|]. unfold bounded. lia.
Qed.

End Recording.

Lemma calls_recorded_once_witness :
  exists r w',
    execute_method_for_year late_devices devices_spec plain_ctx true None None empty_world
    = (r, w')
    /\ world_ext (fun _ => True)
         (snapshot_of None (recorded_from (start_envelope devices_spec plain_ctx None)))
         empty_world w'
    /\ (forall e, r = Ok e ->
          recorded_from (start_envelope devices_spec plain_ctx None) e
          /\ (stray_errors (start_envelope devices_spec plain_ctx None) = O ->
              bounded e \/ (env_status e = skipped /\ ~ bounded e)))
    /\ (forall year exc,
          well_recorded (synthetic_envelope year devices_spec exc)
          /\ stray_errors (synthetic_envelope year devices_spec exc) = 1%nat
          /\ ~ bounded (synthetic_envelope year devices_spec exc)).
Proof.
  eexists _, _. split; [vm_compute; reflexivity|].
  apply (calls_recorded_once late_devices devices_spec plain_ctx true None None).
  - unfold accounted, requests_of. simpl. constructor.
  - vm_compute. reflexivity.
Defined.

Definition download_spec : method_spec :=
  mk_spec "Activities & Workouts" "activities_workouts" "download_activity"
          "download_activity(activity_id, dl_fmt=ActivityDownloadFormat.TCX)".

Definition battery_spec : method_spec :=
  mk_spec "Daily Health & Activity" "daily_health_activity" "get_body_battery"
          "get_body_battery(startdate, enddate=None)".

Definition ctx_999 : seed_context :=
  mk_ctx 999 "999-01-01" "999-12-31" [] [] [] [] [] [] [] [] ∅.

(** C2 (as stated) fails on skipped envelopes and on the envelope of an
    unexpected exception. A download method run from a fresh envelope with
    downloads disabled is skipped with one error entry for no attempted call:
    [0 + 1 <= 0] does not hold. For the year 999 the planner of
    [get_body_battery] raises on the unpadded start date, and the envelope
    made of that exception has the same counters. *)
Lemma skipped_envelope_exceeds_attempts :
  (exists e w',
      execute_method_for_year late_devices download_spec plain_ctx false None None
                              empty_world = (Ok e, w')
      /\ env_status e = skipped
      /\ attempted_calls (env_stats e) = 0%nat
      /\ success_calls (env_stats e) = 0%nat
      /\ failed_calls (env_stats e) = 1%nat
      /\ ~ bounded e)
  /\ (exists e w',
         method_envelope late_devices 999 ctx_999 false true battery_spec empty_world
         = (Ok e, w')
         /\ env_status e = failed
         /\ attempted_calls (env_stats e) = 0%nat
         /\ failed_calls (env_stats e) = 1%nat
         /\ ~ bounded e).
Proof.
  split.
  - eexists _, _. split; [vm_compute; reflexivity|].
    repeat (split; [reflexivity|]). unfold bounded. simpl. lia.
  - eexists _, _. split; [vm_compute; reflexivity|].
    repeat (split; [reflexivity|]). unfold bounded. simpl. lia.
Qed.

(** ** Resuming a paged run *)

Lemma dict_get_set_eq {A} k (v : A) d : dict_get k (dict_set k v d) = Some v.
Proof.
  induction d as [|[k' v'] d IH]; simpl.
  - by rewrite String.eqb_refl.
  - destruct (String.eqb k' k) eqn:E; simpl; rewrite E; done.
Qed.

Lemma dict_get_set_ne {A} k k' (v : A) d :
  k <> k' -> dict_get k' (dict_set k v d) = dict_get k' d.
Proof.
  intros Hne. induction d as [|[k0 v0] d IH]; simpl.
  - destruct (String.eqb k k') eqn:E; [|done]. by apply String.eqb_eq in E.
  - destruct (String.eqb k0 k) eqn:E; simpl.
    + apply String.eqb_eq in E as ->.
      destruct (String.eqb k k') eqn:E'; [|done]. by apply String.eqb_eq in E'.
    + by rewrite IH.
Qed.

Lemma page_kwargs_start base s limit :
  dict_get "start" (page_kwargs base s limit) = Some (JInt s).
Proof.
  unfold page_kwargs. rewrite dict_get_set_ne by done. apply dict_get_set_eq.
Qed.

Lemma page_kwargs_limit base s limit :
  dict_get "limit" (page_kwargs base s limit) = Some (JInt limit).
Proof. unfold page_kwargs. apply dict_get_set_eq. Qed.

(** A call of the page at cursor [s] with page size [limit]. *)
Definition page_call (method : string) (s limit : Z) (c : string * kwargs) : Prop :=
  c.1 = method
  /\ dict_get "start" c.2 = Some (JInt s)
  /\ dict_get "limit" c.2 = Some (JInt limit).

Section PagedCalls.
Context {C : Type} (cl : client C).

(** The calls of the paged loop: none below the cursor it starts from, and
    the first one, if any, at that cursor. *)
Lemma paged_loop_calls method base limit out fuel page_start elapsed e w r w' :
  0 < limit ->
  20000 - page_start <= Z.of_nat fuel * limit ->
  paged_loop cl method base limit (Some (on_paged_chunk_done out)) fuel
             page_start elapsed e w = (r, w') ->
  exists calls,
    w_calls w' = (w_calls w ++ calls)%list
    /\ Forall (fun c => exists s, page_start <= s /\ page_call method s limit c) calls
    /\ (forall c, head calls = Some c -> page_call method page_start limit c)
    /\ (page_start < 20000 -> has_method cl method = true -> calls <> []).
Proof.
  intros Hlim Hfuel H.
  destruct (Z.lt_ge_cases page_start 20000) as [Hlt|Hge].
  2: { exists []. rewrite app_nil_r.
       assert (Hb : (page_start <? 20000) = false) by (apply Z.ltb_ge; lia).
       destruct fuel; simpl in H; rewrite Hb in H; inversion H; subst;
         repeat split; try done; lia. }
  destruct fuel as [|fuel]; [simpl in Hfuel; lia|].
  apply paged_loop_unfold in H as (n & w2 & e' & Hc2 & Hhas & H); [|done].
  set (c0 := (method, page_kwargs base page_start limit)) in *.
  assert (Hc0 : page_call method page_start limit c0).
  { split; [done|]. split; [apply page_kwargs_start | apply page_kwargs_limit]. }
  assert (Hrep : Forall (fun c => exists s, page_start <= s /\ page_call method s limit c)
                        (replicate n c0)).
  { apply Forall_forall. intros c Hc. apply elem_of_replicate in Hc as [-> _].
    exists page_start. split; [lia | done]. }
  assert (Hhead : forall l c, (0 < n)%nat -> head (replicate n c0 ++ l) = Some c ->
                              page_call method page_start limit c).
  { intros l c Hn. destruct n; [lia|]. simpl. by intros [= <-]. }
  assert (Hdone : w' = w2 ->
    exists calls,
      w_calls w' = (w_calls w ++ calls)%list
      /\ Forall (fun c => exists s, page_start <= s /\ page_call method s limit c) calls
      /\ (forall c, head calls = Some c -> page_call method page_start limit c)
      /\ (page_start < 20000 -> has_method cl method = true -> calls <> [])).
  { intros ->. exists (replicate n c0). split; [done|]. split; [done|]. split.
    - intros c. destruct n; [done|]. simpl. by intros [= <-].
    - intros _ Hm. specialize (Hhas Hm). destruct n; [lia | done]. }
  destruct H as [(response & took & _ & Hn & [(el & _ & Hw) | (el & H)])
                | (text & _ & el & _ & Hw)]; try by apply Hdone.
  eapply (paged_loop_inv cl (fun _ => True) _ _ _ _ (page_start + limit)) in H
    as (? & ? & _ & _ & [(lc & Hlc & Flc) _]); try done; try lia.
  exists (replicate n c0 ++ lc)%list. split; [by rewrite Hlc, Hc2, app_assoc|].
  split; [|split].
  - apply Forall_app. split; [done|]. eapply Forall_impl; [exact Flc|].
    intros c (Hm & s & Hs & Hkw). exists s. split; [lia|]. split; [done|].
    rewrite Hkw. split; [apply page_kwargs_start | apply page_kwargs_limit].
  - intros c. by apply Hhead.
  - intros _ _. destruct n; [lia | done].
Qed.

Lemma start_envelope_prior spec ctx e :
  env_method e = ms_method spec ->
  env_data (start_envelope spec ctx (Some e)) = env_data e
  /\ env_request_args (start_envelope spec ctx (Some e)) = env_request_args e
  /\ env_errors (start_envelope spec ctx (Some e)) = env_errors e.
Proof.
  intros Hm. unfold start_envelope. rewrite Hm, String.eqb_refl. done.
Qed.

(** C4. A paged method resumed from a prior envelope of that method whose
    successful pages have the highest cursor [K] (cursors are not negative):
    every remote call of the run is a page of that method with page size 100
    at a cursor above [K], the first call, if there is one, is the page at
    [K + 100], and there is one when that cursor is below the ceiling and the
    client has the method. *)
Theorem paged_resume_after_last_page spec ctx incl out prior K w r w' :
  classify_call_type (ms_method spec) (ms_signature spec) = paged ->
  env_method prior = ms_method spec ->
  page_starts prior <> [] ->
  list_max (page_starts prior) = K ->
  0 <= K ->
  execute_method_for_year cl spec ctx incl out (Some prior) w = (r, w') ->
  exists calls,
    w_calls w' = (w_calls w ++ calls)%list
    /\ Forall (fun c => exists s, K < s /\ page_call (ms_method spec) s 100 c) calls
    /\ (forall c, head calls = Some c -> page_call (ms_method spec) (K + 100) 100 c)
    /\ (K + 100 < 20000 -> has_method cl (ms_method spec) = true -> calls <> []).
Proof.
  intros Hct Hm Hne HK H0 H.
  destruct (start_envelope_prior spec ctx prior Hm) as (Hd & _ & _).
  apply execute_method_inv in H.
  remember (start_envelope spec ctx (Some prior)) as e0 eqn:He0. clear He0.
  assert (Hps : page_starts e0 = page_starts prior) by (unfold page_starts; by rewrite Hd).
  assert (Hrc : resume_cursor e0 = K + 100).
  { unfold resume_cursor. rewrite Hps. destruct (page_starts prior); [done|].
    by rewrite HK. }
  destruct H as [(cached & _ & Hd0 & _) | (_ & [[_ Hp] | [Hct' _]])].
  - destruct Hne. rewrite <- Hps. unfold page_starts. by rewrite Hd0.
  - destruct Hp as (r1 & Hl & _). rewrite Hrc in Hl.
    replace (Z.max 0 (K + 100)) with (K + 100) in Hl by lia.
    apply paged_loop_calls in Hl as (calls & Hc & Hall & Hhead & Hprog);
      [|lia|by apply paged_fuel_enough].
    exists calls. split; [done|]. split; [|done].
    eapply Forall_impl; [exact Hall|]. intros c (s & Hs & Hpc). exists s. split; [lia|done].
  - by rewrite Hct in Hct'.
Qed.

End PagedCalls.

(** ** Canonical keys tell hashable values apart *)

Definition hex_val (a : ascii) : option nat :=
  (fix go (l : list ascii) (i : nat) : option nat :=
     match l with
     | [] => None
     | x :: l' => if Ascii.eqb x a then Some i else go l' (S i)
     end) (list_ascii_of_string "0123456789abcdef") O.

(** Reads back one escaped character from the front of a string. *)
Definition unescape1 (s : string) : option (ascii * string) :=
  match s with
  | "" => None
  | String a r =>
      if Ascii.eqb a backslash then
        match r with
        | "" => None
        | String b r' =>
            if Ascii.eqb b quote_char then Some (quote_char, r')
            else if Ascii.eqb b backslash then Some (backslash, r')
            else if Ascii.eqb b "n" then Some ("010"%char, r')
            else if Ascii.eqb b "r" then Some ("013"%char, r')
            else if Ascii.eqb b "t" then Some ("009"%char, r')
            else if Ascii.eqb b "b" then Some ("008"%char, r')
            else if Ascii.eqb b "f" then Some ("012"%char, r')
            else
              match r' with
              | String _ (String _ (String h1 (String h2 r''))) =>
                  match hex_val h1, hex_val h2 with
                  | Some x, Some y => Some (ascii_of_nat (16 * x + y), r'')
                  | _, _ => None
                  end
              | _ => None
              end
        end
      else Some (a, r)
  end.

Lemma string_app_assoc s1 s2 s3 : (s1 +:+ s2) +:+ s3 = s1 +:+ (s2 +:+ s3).
Proof.
  induction s1 as [|a s1 IH]; [done|].
  change (String a ((s1 +:+ s2) +:+ s3) = String a (s1 +:+ (s2 +:+ s3))).
  by rewrite IH.
Qed.

Lemma unescape1_escape_char c rest :
  unescape1 (escape_char c +:+ rest) = Some (c, rest).
Proof. destruct c as [[] [] [] [] [] [] [] []]; reflexivity. Qed.

Lemma escape_quoted_inj s1 s2 :
  escape s1 +:+ String quote_char "" = escape s2 +:+ String quote_char "" -> s1 = s2.
Proof.
  revert s2. induction s1 as [|a s1 IH]; intros [|b s2] H; simpl in H.
  - done.
  - apply (f_equal unescape1) in H.
    rewrite string_app_assoc, unescape1_escape_char in H.
    simpl in H. inversion H as [[Hb Hr]]. by destruct (escape s2).
  - apply (f_equal unescape1) in H.
    rewrite string_app_assoc, unescape1_escape_char in H.
    simpl in H. inversion H as [[Hb Hr]]. by destruct (escape s1).
  - apply (f_equal unescape1) in H.
    rewrite !string_app_assoc, !unescape1_escape_char in H.
    inversion H; subst. f_equal. by apply IH.
Qed.

Lemma json_quote_inj s1 s2 : json_quote s1 = json_quote s2 -> s1 = s2.
Proof. unfold json_quote. intros [= H]. by apply escape_quoted_inj. Qed.

Lemma string_length_app s1 s2 :
  String.length (s1 +:+ s2) = (String.length s1 + String.length s2)%nat.
Proof.
  induction s1 as [|a s1 IH]; [done|].
  change (S (String.length (s1 +:+ s2)) = S (String.length s1 + String.length s2)).
  by rewrite IH.
Qed.

Lemma string_app_inv_tail s1 s2 t : s1 +:+ t = s2 +:+ t -> s1 = s2.
Proof.
  revert s2. induction s1 as [|a s1 IH]; intros [|b s2] H.
  - done.
  - apply (f_equal String.length) in H. rewrite !string_length_app in H.
    simpl in H. lia.
  - apply (f_equal String.length) in H. rewrite !string_length_app in H.
    simpl in H. lia.
  - inversion H; subst. f_equal. by apply IH.
Qed.

Definition is_digit (a : ascii) : Prop := is_Some (Ascii.is_nat a).

Lemma pretty_N_char_digit n : is_digit (pretty_N_char n).
Proof. unfold pretty_N_char, is_digit. repeat case_match; by eexists. Qed.

Lemma pretty_N_go_head x s :
  (0 < x)%N -> exists c r, pretty_N_go x s = String c r /\ is_digit c.
Proof.
  revert s. induction (N.lt_wf_0 x) as [x _ IH]; intros s Hx.
  rewrite pretty_N_go_step by done.
  destruct (decide (x `div` 10 = 0)%N) as [E|E].
  - rewrite E, pretty_N_go_0. eexists _, _. split; [done|]. apply pretty_N_char_digit.
  - apply IH; [apply N.div_lt; [done | reflexivity] | by apply N.neq_0_lt_0].
Qed.

(** A decimal numeral starts with a digit or a minus sign. *)
Lemma pretty_Z_head (z : Z) :
  exists c r, pretty z = String c r /\ (is_digit c \/ c = "-"%char).
Proof.
  destruct z as [|p|p]; unfold pretty, pretty_Z.
  - eexists _, _. split; [done|]. left. by eexists.
  - unfold pretty, pretty_positive, pretty, pretty_N. rewrite decide_False by done.
    destruct (pretty_N_go_head (N.pos p) "") as (c & r & -> & Hd); [lia|]. eauto.
  - eexists _, _. split; [done|]. by right.
Qed.

Lemma json_dumps_scalar_inj v1 v2 :
  hashable v1 = true -> hashable v2 = true ->
  json_dumps v1 = json_dumps v2 -> v1 = v2.
Proof.
  assert (Hnum : forall (z : Z) s c, pretty z = String c s ->
                               ~ (is_digit c \/ c = "-"%char) -> False).
  { intros z s c Hz Hc. destruct (pretty_Z_head z) as (c' & r & Hp & Hd).
    rewrite Hz in Hp. inversion Hp; subst. done. }
  assert (Hn : ~ (is_digit "n" \/ "n"%char = "-"%char))
    by (intros [[? [=]]|[=]]).
  assert (Ht : ~ (is_digit "t" \/ "t"%char = "-"%char))
    by (intros [[? [=]]|[=]]).
  assert (Hf : ~ (is_digit "f" \/ "f"%char = "-"%char))
    by (intros [[? [=]]|[=]]).
  assert (Hq : ~ (is_digit quote_char \/ quote_char = "-"%char))
    by (intros [[? [=]]|[=]]).
  destruct v1 as [|b1|z1|s1|?|?], v2 as [|b2|z2|s2|?|?]; try done; simpl;
    try destruct b1; try destruct b2; try done; intros _ _ H;
    try (by (exfalso; eapply Hnum; [exact H|done]));
    try (by (exfalso; symmetry in H; eapply Hnum; [exact H|done])).
  - f_equal. by apply (inj pretty).
  - f_equal. by apply json_quote_inj.
Qed.

(** The keys of two one-argument calls with the same parameter differ when
    the values do. *)
Lemma request_key_single_inj param v1 v2 :
  hashable v1 = true -> hashable v2 = true ->
  request_key [(param, v1)] = request_key [(param, v2)] -> v1 = v2.
Proof.
  intros H1 H2 H. unfold request_key in H. simpl in H.
  change (merge_sort key_le [(param, json_dumps v1)]) with [(param, json_dumps v1)] in H.
  change (merge_sort key_le [(param, json_dumps v2)]) with [(param, json_dumps v2)] in H.
  simpl in H. unfold dumps_item in H. simpl in H.
  apply (inj (String.app "{")) in H. apply string_app_inv_tail in H.
  apply (inj (String.app (json_quote param))) in H.
  apply (inj (String.app ":")) in H.
  by apply json_dumps_scalar_inj.
Qed.

(** ** The seed lists hold distinct hashable values *)

Lemma py_eqb_refl v : hashable v = true -> py_eqb v v = true.
Proof.
  destruct v as [|b|z|s| |]; try done; intros _; unfold py_eqb; simpl.
  - apply Z.eqb_refl.
  - apply Z.eqb_refl.
  - apply String.eqb_refl.
Qed.

Lemma py_set_subseteq l x : x ∈ py_set l -> x ∈ l.
Proof.
  revert x. induction l as [|y l IH]; intros x; simpl; [done|].
  rewrite elem_of_cons, list_elem_of_filter. intros [->|[_ Hx]].
  - by left.
  - right. by apply IH.
Qed.

Lemma py_set_NoDup l : forallb hashable l = true -> NoDup (py_set l).
Proof.
  induction l as [|x l IH]; simpl; [constructor|].
  intros [Hx Hl]%andb_true_iff. constructor.
  - rewrite list_elem_of_filter. intros [Hne _].
    rewrite py_eqb_refl in Hne by done. done.
  - by apply NoDup_filter, IH.
Qed.

Lemma sorted_set_spec l l' :
  sorted_set l = Ok l' ->
  NoDup l' /\ Forall (fun v => hashable v = true) l' /\ forall x, x ∈ l' -> x ∈ l.
Proof.
  unfold sorted_set. destruct (forallb hashable l) eqn:Hh; [|done].
  pose proof (py_set_NoDup l Hh) as Hnd.
  assert (Hsub : forall x, x ∈ py_set l -> x ∈ l) by apply py_set_subseteq.
  assert (Hall : Forall (fun v => hashable v = true) l).
  { apply Forall_forall. intros x Hx. rewrite forallb_forall in Hh.
    by apply Hh, list_elem_of_In. }
  assert (Hperm : forall k, k ≡ₚ py_set l ->
            NoDup k /\ Forall (fun v => hashable v = true) k /\ forall x, x ∈ k -> x ∈ l).
  { intros k Hk. split; [by rewrite Hk|]. split.
    - apply Forall_forall. intros x Hx. rewrite Hk in Hx.
      rewrite Forall_forall in Hall. by apply Hall, Hsub.
    - intros x Hx. rewrite Hk in Hx. by apply Hsub. }
  destruct (py_set l) as [|a [|b s]] eqn:Hs.
  - intros [= <-]. by apply Hperm.
  - intros [= <-]. by apply Hperm.
  - destruct (forallb is_num (a :: b :: s)).
    { intros [= <-]. apply Hperm, merge_sort_Permutation. }
    destruct (forallb is_str (a :: b :: s)); [|done].
    intros [= <-]. apply Hperm, merge_sort_Permutation.
Qed.

(** What [build_seed_context] returns: the dates of the year and seed lists
    that come from [sorted_set]. *)
Definition seed_lists_ok (ctx : seed_context) : Prop :=
  forall seed_key,
    NoDup (ctx_get seed_key ctx)
    /\ Forall (fun v => hashable v = true) (ctx_get seed_key ctx).

Ltac bind_ok H :=
  let a := fresh "a" in
  let w := fresh "w" in
  let Hs := fresh "Hstep" in
  apply bind_inv in H as [(a & w & Hs & H) | [(? & ? & ?) | (? & ?)]]; [|done..].

Lemma lift_inv {C A} (r : res A) (w : world C) r' w' :
  lift r w = (r', w') -> r' = r /\ w' = w.
Proof. unfold lift. by intros [= <- <-]. Qed.

Lemma build_seed_context_inv {C} (cl : client C) year w ctx w' :
  build_seed_context cl year w = (Ok ctx, w') ->
  ctx_year ctx = year
  /\ ctx_start_date ctx = pretty year +:+ "-01-01"
  /\ ctx_end_date ctx = pretty year +:+ "-12-31"
  /\ iter_year_dates year = Ok (ctx_dates ctx)
  /\ seed_lists_ok ctx.
Proof.
  unfold build_seed_context. intros H.
  bind_ok H. apply lift_inv in Hstep as [Hdates _].
  do 5 bind_ok H.
  bind_ok H. apply lift_inv in Hstep4 as [Hpn _].
  bind_ok H. apply lift_inv in Hstep4 as [Hdev _].
  do 2 bind_ok H.
  bind_ok H. apply lift_inv in Hstep6 as [Hact _].
  bind_ok H. apply lift_inv in Hstep6 as [Hwk _].
  bind_ok H. apply lift_inv in Hstep6 as [Hsch _].
  bind_ok H. apply lift_inv in Hstep6 as [Hgear _].
  bind_ok H. apply lift_inv in Hstep6 as [Hplan _].
  inversion H; subst ctx; clear H. simpl.
  repeat (split; [done|]).
  symmetry in Hpn, Hdev, Hact, Hwk, Hsch, Hgear, Hplan.
  apply sorted_set_spec in Hpn as (? & ? & _), Hdev as (? & ? & _),
    Hact as (? & ? & _), Hwk as (? & ? & _), Hsch as (? & ? & _),
    Hgear as (? & ? & _), Hplan as (? & ? & _).
  intros key. unfold ctx_get. simpl.
  repeat match goal with
         | |- context [if String.eqb key ?k then _ else _] =>
             destruct (String.eqb key k); [by split|]
         end.
  split; constructor.
Qed.

(** ** Request keys of the success records *)

(** The canonical keys of the requests in [data]. *)
Definition data_keys (e : envelope) : list string :=
  map (fun item => request_key (di_request item)) (env_data e).

Section Dedup.
Context {C : Type} (cl : client C).

Lemma run_pending_unfold method out kw rest e w r w' :
  run_pending cl method out (kw :: rest) e w = (r, w') ->
  exists e2 w2,
    ((exists response took, e2 = record_success kw response took e)
     \/ (exists text took, e2 = record_failure kw text took e))
    /\ run_pending cl method out rest e2 w2 = (r, w').
Proof.
  simpl. intros H.
  apply bind_res_inv in H as (r0 & w0 & Hc & H).
  apply clock_inv in Hc as (t0 & -> & _).
  apply bind_res_inv in H as (r1 & w1 & Ha & H).
  apply attempt_inv in Ha.
  destruct (safe_call cl method kw 1 w0) as [[[result took]|exc|] w1'] eqn:Hsc;
    destruct Ha as [-> ->].
  - apply bind_res_inv in H as (r2 & w2 & He & H). inversion He; subst r2 w2; clear He.
    apply bind_res_inv in H as (r3 & w3 & Hw & H).
    destruct (maybe_write_Ok (C := C) out
                (recount (add_duration took
                   (add_data (mk_data kw (serialize_response_data result))
                             (add_request kw e)))) w1') as [w3' Hw'].
    rewrite Hw' in Hw. inversion Hw; subst r3 w3; clear Hw.
    eexists _, _. split; [|exact H]. left. by eexists _, _.
  - apply bind_res_inv in H as (r2 & w2 & He & H).
    apply bind_res_inv in He as (r2' & w2' & Hc & He).
    apply clock_inv in Hc as (t1 & -> & _). inversion He; subst r2 w2; clear He.
    apply bind_res_inv in H as (r3 & w3 & Hw & H).
    destruct (maybe_write_Ok (C := C) out
                (recount (add_duration (t1 - t0)
                   (add_error (mk_error (Some kw) (exn_str exc))
                              (add_request kw e)))) w2') as [w3' Hw'].
    rewrite Hw' in Hw. inversion Hw; subst r3 w3; clear Hw.
    eexists _, _. split; [|exact H]. right. by eexists _, _.
  - by apply safe_call_ext in Hsc as [? _].
Qed.

(** The planned calls add to [data], in order, the calls that returned. *)
Lemma run_pending_data method out pending :
  forall e w e1 w',
    run_pending cl method out pending e w = (Ok e1, w') ->
    exists new,
      env_data e1 = (env_data e ++ new)%list
      /\ map di_request new `sublist_of` pending.
Proof.
  induction pending as [|kw pending IH]; intros e w e1 w' H.
  - simpl in H. inversion H; subst. exists []. by rewrite app_nil_r.
  - apply run_pending_unfold in H as (e2 & w2 & Hstep & H).
    apply IH in H as (new & Hd & Hsub).
    destruct Hstep as [(response & took & ->) | (text & took & ->)].
    + exists (mk_data kw response :: new). split.
      * rewrite Hd. simpl. by rewrite <- app_assoc.
      * simpl. by constructor.
    + exists new. split; [exact Hd|]. by constructor.
Qed.

(** The plan of an id-based method: one call per id of one seed list. *)
Lemma build_calls_id_based method signature ctx incl plan reason :
  build_calls_for_method method signature id_based ctx incl = Ok (plan, reason) ->
  exists param seed_key,
    plan = map (fun id_value => [(param, id_value)]) (ctx_get seed_key ctx).
Proof.
  unfold build_calls_for_method.
  destruct (first_id_param _ _) as [[param seed_key]|].
  - destruct (ctx_get seed_key ctx) as [|x ids] eqn:E; intros [= <- _];
      exists param, seed_key; by rewrite E.
  - intros [= <- _]. exists "", "". reflexivity.
Qed.

Lemma plan_keys_NoDup param ids :
  NoDup ids -> Forall (fun v => hashable v = true) ids ->
  NoDup (map request_key (map (fun id_value : json => [(param, id_value)]) ids)).
Proof.
  intros Hnd Hh. rewrite map_map. apply (NoDup_fmap_2_strong _); [|done].
  intros x y Hx Hy. rewrite Forall_forall in Hh.
  apply request_key_single_inj; by apply Hh.
Qed.

(** One run of an id-based method keeps the keys of [data] distinct, and
    calls nothing whose key is in [data] already. *)
Lemma execute_keeps_keys_distinct spec ctx incl out existing w e w' :
  seed_lists_ok ctx ->
  classify_call_type (ms_method spec) (ms_signature spec) = id_based ->
  NoDup (data_keys (start_envelope spec ctx existing)) ->
  execute_method_for_year cl spec ctx incl out existing w = (Ok e, w') ->
  NoDup (data_keys e)
  /\ exists calls,
       w_calls w' = (w_calls w ++ calls)%list
       /\ Forall (fun c => c.1 = ms_method spec
                           /\ request_key c.2 ∉ data_keys (start_envelope spec ctx existing))
                 calls.
Proof.
  intros Hseed Hct Hnd H. apply execute_method_inv in H.
  remember (start_envelope spec ctx existing) as e0 eqn:He0. clear He0.
  assert (Hnone : forall (w1 w2 : world C), w_calls w2 = w_calls w1 ->
            exists calls, w_calls w2 = (w_calls w1 ++ calls)%list
              /\ Forall (fun c => c.1 = ms_method spec
                                  /\ request_key c.2 ∉ data_keys e0) calls).
  { intros w1 w2 Hc. exists []. by rewrite app_nil_r. }
  assert (Hmw : forall x (w1 w2 : world C), maybe_write out x w1 = (Ok tt, w2) ->
                                            w_calls w2 = w_calls w1).
  { intros x w1 w2. unfold maybe_write, write_json. destruct out; by intros [= <-]. }
  destruct H as [(cached & _ & Hd & Hw & He) | (_ & [[Hct' _] | [_ Hp]])].
  - inversion He; subst e. split; [|eauto].
    unfold data_keys, cache_envelope. simpl. rewrite Hd. simpl.
    apply NoDup_singleton.
  - by rewrite Hct in Hct'.
  - rewrite Hct in Hp. unfold planned_run in Hp.
    destruct (build_calls_for_method _ _ _ ctx incl) as [[plan reason]|?|] eqn:Hb;
      [|by destruct Hp..].
    apply build_calls_id_based in Hb as (param & seed_key & Hplan).
    assert (Hrun :
      (exists r1, run_pending cl (ms_method spec) out (pending_of e0 plan) e0 w = (r1, w')
                  /\ Ok e = e1 ← r1; mret (set_status (final_status (env_stats e1)) e1))
      -> NoDup (data_keys e)
         /\ exists calls, w_calls w' = (w_calls w ++ calls)%list
              /\ Forall (fun c => c.1 = ms_method spec
                                  /\ request_key c.2 ∉ data_keys e0) calls).
    { intros (r1 & Hrp & Hr). destruct r1 as [e1|?|]; try done.
      inversion Hr; subst e; clear Hr.
      assert (Hpend : forall kw, kw ∈ pending_of e0 plan -> request_key kw ∉ data_keys e0).
      { intros kw. unfold pending_of. rewrite list_elem_of_filter.
        intros [Hk _]. apply negb_prop_elim in Hk. intros Hin. apply Hk.
        apply bool_decide_pack. unfold get_completed_request_keys.
        by apply elem_of_list_to_set. }
      split.
      - apply run_pending_data in Hrp as (new & Hd & Hsub).
        unfold data_keys. simpl. rewrite Hd, map_app. apply NoDup_app.
        split; [exact Hnd|]. split.
        + intros k Hk Hk'. apply list_elem_of_fmap in Hk' as (item & -> & Hitem).
          apply (Hpend (di_request item)); [|exact Hk].
          eapply elem_of_sublist; [|exact Hsub].
          apply list_elem_of_fmap. eauto.
        + rewrite <- (map_map di_request request_key).
          eapply sublist_NoDup; [|apply (fmap_sublist request_key); exact Hsub].
          eapply sublist_NoDup; [|apply (fmap_sublist request_key), sublist_filter].
          rewrite Hplan. destruct (Hseed seed_key). by apply plan_keys_NoDup.
      - eapply (run_pending_inv cl (fun _ => True)) in Hrp as (? & _ & _ & [Hc _]);
          try done.
        destruct Hc as (calls & Hc & Hall). exists calls. split; [done|].
        eapply Forall_impl; [exact Hall|]. intros c [? ?]. split; [done|].
        by apply Hpend. }
    destruct plan as [|kw plan]; [destruct reason as [reason|]|]; try by apply Hrun.
    destruct Hp as [Hw He]. inversion He; subst e. split; [exact Hnd | eauto].
Qed.

End Dedup.

Section TwoRuns.
Context {C : Type} (cl : client C).

Lemma execute_method_name spec ctx incl out existing w e w' :
  execute_method_for_year cl spec ctx incl out existing w = (Ok e, w') ->
  env_method e = ms_method spec.
Proof.
  intros H. apply execute_method_inv in H.
  assert (H0 : env_method (start_envelope spec ctx existing) = ms_method spec).
  { unfold start_envelope. destruct existing as [e0|]; [|done]. by case_match. }
  remember (start_envelope spec ctx existing) as e0 eqn:He0. clear He0.
  set (I := fun x : envelope => env_method x = ms_method spec).
  destruct H as [(cached & _ & _ & _ & He) | (_ & [[_ Hp] | [_ Hp]])].
  - by inversion He.
  - destruct Hp as (r1 & Hl & Hr).
    destruct (paged_loop_inv cl I (ms_method spec)
                (paged_extra (ms_method spec)) 100 out (Z.max 0 (resume_cursor e0))
                ltac:(lia) (fun s response took x _ Hx => Hx)
                (fun s text took x _ Hx => Hx)
                _ _ _ _ _ _ _ (Z.le_refl _)
                (paged_fuel_enough _ 100 ltac:(lia)) Hl H0)
      as (el & e1 & -> & Hk1 & _).
    by inversion Hr.
  - unfold planned_run in Hp.
    destruct (build_calls_for_method _ _ _ ctx incl) as [[plan reason]|?|] eqn:Hb;
      [|by destruct Hp..].
    assert (Hrun :
      (exists r1, run_pending cl (ms_method spec) out (pending_of e0 plan) e0 w = (r1, w')
                  /\ Ok e = e1 ← r1; mret (set_status (final_status (env_stats e1)) e1))
      -> env_method e = ms_method spec).
    { intros (r1 & Hrp & Hr).
      eapply (run_pending_inv cl I) in Hrp as (e1 & -> & Hk1 & _); try done.
      by inversion Hr. }
    destruct plan as [|kw plan]; [destruct reason as [reason|]|]; try by apply Hrun.
    destruct Hp as [_ He]. by inversion He.
Qed.

(** C5. Over a seed context built by [build_seed_context], take two
    successive runs of an id-based method, the first from an envelope whose
    success records have distinct canonical request keys (a fresh envelope
    has none), the second from the envelope the first returned. Then the
    success records of both returned envelopes have distinct keys, and no
    remote call of the second run has the key of a success record of the
    first: those planned calls are left out before execution. *)
Theorem id_based_runs_share_no_key year w0 ctx w1 spec incl out existing
    wa e1 wb incl' out' wc e2 wd :
  build_seed_context cl year w0 = (Ok ctx, w1) ->
  classify_call_type (ms_method spec) (ms_signature spec) = id_based ->
  NoDup (data_keys (start_envelope spec ctx existing)) ->
  execute_method_for_year cl spec ctx incl out existing wa = (Ok e1, wb) ->
  execute_method_for_year cl spec ctx incl' out' (Some e1) wc = (Ok e2, wd) ->
  NoDup (data_keys e1)
  /\ NoDup (data_keys e2)
  /\ exists calls,
       w_calls wd = (w_calls wc ++ calls)%list
       /\ Forall (fun c => c.1 = ms_method spec /\ request_key c.2 ∉ data_keys e1) calls.
Proof.
  intros Hctx Hct Hnd H1 H2.
  apply build_seed_context_inv in Hctx as (_ & _ & _ & _ & Hseed).
  pose proof (execute_method_name _ _ _ _ _ _ _ _ H1) as Hm.
  destruct (execute_keeps_keys_distinct cl _ _ _ _ _ _ _ _ Hseed Hct Hnd H1) as [Hnd1 _].
  destruct (start_envelope_prior spec ctx e1 Hm) as (Hd & _ & _).
  assert (Hk : data_keys (start_envelope spec ctx (Some e1)) = data_keys e1).
  { unfold data_keys. by rewrite Hd. }
  split; [exact Hnd1|].
  destruct (execute_keeps_keys_distinct cl _ _ _ _ _ _ _ _ Hseed Hct
              ltac:(by rewrite Hk) H2) as [Hnd2 (calls & Hc & Hall)].
  split; [exact Hnd2|]. exists calls. split; [exact Hc|]. by rewrite Hk in Hall.
Qed.

End TwoRuns.

(** A service with two profile numbers; the statistics of the second one fail
    at first. *)
Definition gear_client : client nat :=
  scripted (fun _ => true)
    (fun m kw n =>
       if String.eqb m "get_user_profile"
       then Returned (JDict [("userProfileNumber", JInt 123); ("profileId", JInt 456)])
       else if String.eqb m "get_gear_stats" then
         match dict_get "userProfileNumber" kw with
         | Some (JInt 456) =>
             if (n <? 45)%nat then Failed "timeout" else Returned (JDict [("ok", JBool true)])
         | _ => Returned (JDict [("ok", JBool true)])
         end
       else if String.eqb m "get_activities" then Returned (JList [])
       else if String.eqb m "get_workouts" then Returned (JDict [("workouts", JList [])])
       else Returned (JDict [])).

Definition gear_stats_spec : method_spec :=
  mk_spec "Gear & Equipment" "gear_equipment" "get_gear_stats"
          "get_gear_stats(userProfileNumber)".

Definition ok_or {A} (d : A) (r : res A) : A :=
  match r with
  | Ok a => a
  | _ => d
  end.

Definition gear_seed : res seed_context * world nat :=
  build_seed_context gear_client 2025 empty_world.
Definition gear_ctx : seed_context := ok_or plain_ctx gear_seed.1.
Definition gear_run1 : res envelope * world nat :=
  execute_method_for_year gear_client gear_stats_spec gear_ctx true None None gear_seed.2.
Definition gear_e1 : envelope :=
  ok_or (start_envelope gear_stats_spec gear_ctx None) gear_run1.1.
Definition gear_run2 : res envelope * world nat :=
  execute_method_for_year gear_client gear_stats_spec gear_ctx true None (Some gear_e1)
                          gear_run1.2.
Definition gear_e2 : envelope :=
  ok_or (start_envelope gear_stats_spec gear_ctx None) gear_run2.1.

Lemma id_based_runs_share_no_key_witness :
  NoDup (data_keys gear_e1)
  /\ NoDup (data_keys gear_e2)
  /\ exists calls,
       w_calls gear_run2.2 = (w_calls gear_run1.2 ++ calls)%list
       /\ Forall (fun c => c.1 = ms_method gear_stats_spec
                           /\ request_key c.2 ∉ data_keys gear_e1) calls.
Proof.
  apply (id_based_runs_share_no_key gear_client 2025 empty_world gear_ctx gear_seed.2
           gear_stats_spec true None None gear_seed.2 gear_e1 gear_run1.2
           true None gear_run1.2 gear_e2 gear_run2.2).
  - vm_compute. reflexivity.
  - reflexivity.
  - vm_compute. constructor.
  - vm_compute. reflexivity.
  - vm_compute. reflexivity.
Defined.

Definition activities_spec : method_spec :=
  mk_spec "Activities & Workouts" "activities_workouts" "get_activities"
          "get_activities(start=0, limit=20, activitytype=None)".

(** A prior envelope with the pages at 0 and 100 done and page 200 failed. *)
Definition two_pages_done : envelope :=
  let page s := page_kwargs (paged_extra "get_activities") s 100 in
  mk_envelope "get_activities" "Activities & Workouts" 2025 paged partial
    [page 0; page 100; page 200]
    [mk_data (page 0) (JList []); mk_data (page 100) (JList [])]
    [mk_error (Some (page 200)) "timeout"]
    (mk_stats 3 2 1 0).

Definition activities_resumed : res envelope * world nat :=
  execute_method_for_year late_devices activities_spec plain_ctx true None
                          (Some two_pages_done) empty_world.

Lemma paged_resume_after_last_page_witness :
  exists calls,
    w_calls activities_resumed.2 = (w_calls empty_world ++ calls)%list
    /\ Forall (fun c => exists s, 100 < s /\ page_call (ms_method activities_spec) s 100 c)
              calls
    /\ (forall c, head calls = Some c ->
                  page_call (ms_method activities_spec) (100 + 100) 100 c)
    /\ (100 + 100 < 20000 -> has_method late_devices (ms_method activities_spec) = true ->
        calls <> []).
Proof.
  apply (paged_resume_after_last_page late_devices activities_spec plain_ctx true None
           two_pages_done 100 empty_world activities_resumed.1 activities_resumed.2).
  - reflexivity.
  - reflexivity.
  - vm_compute. discriminate.
  - reflexivity.
  - lia.
  - vm_compute. reflexivity.
Defined.

Example activities_resumed_calls :
  w_calls activities_resumed.2
  = [("get_activities", [("limit", JInt 100); ("start", JInt 200)])].
Proof. vm_compute. reflexivity. Qed.

(** ** The calendar of a year *)

(** The days of one month and of one year, as (month, day), by the lengths of
    the months. *)
Definition month_days (leap : bool) (m : Z) : list (Z * Z) :=
  (fun d => (m, d)) <$> seqZ 1 (month_length leap m).

Definition calendar (leap : bool) : list (Z * Z) :=
  flat_map (month_days leap) (seqZ 1 12).

(** The calendar days of year [y], January 1 to December 31. *)
Definition year_days (y : Z) : list date :=
  (fun md => mk_date y md.1 md.2) <$> calendar (is_leap y).

(** The day after (month, day) within a year; none after December 31. *)
Definition next_md (leap : bool) (md : Z * Z) : option (Z * Z) :=
  if md.2 <? month_length leap md.1 then Some (md.1, md.2 + 1)
  else if md.1 <? 12 then Some (md.1 + 1, 1)
  else None.

Fixpoint chain_md (leap : bool) (l : list (Z * Z)) (cur : option (Z * Z)) : bool :=
  match l, cur with
  | [], None => true
  | x :: l', Some c =>
      (c.1 =? x.1) && (c.2 =? x.2) && chain_md leap l' (next_md leap c)
  | _, _ => false
  end.

(** [l] lists [cur], the day after, and so on; [stop] is the day after the
    last one. *)
Fixpoint run_of (l : list date) (cur stop : date) : Prop :=
  match l with
  | [] => cur = stop
  | d :: l' => d = cur /\ run_of l' (next_day cur) stop
  end.

Lemma next_day_md y m d :
  next_day (mk_date y m d)
  = match next_md (is_leap y) (m, d) with
    | Some md => mk_date y md.1 md.2
    | None => mk_date (y + 1) 1 1
    end.
Proof.
  unfold next_day, next_md, days_in_month. simpl.
  destruct (d <? month_length (is_leap y) m); [done|]. by destruct (m <? 12).
Qed.

Lemma calendar_chain leap : chain_md leap (calendar leap) (Some (1, 1)) = true.
Proof. destruct leap; vm_compute; reflexivity. Qed.

Lemma chain_md_run y l cur :
  chain_md (is_leap y) l cur = true ->
  run_of ((fun md => mk_date y md.1 md.2) <$> l)
         (match cur with Some c => mk_date y c.1 c.2 | None => mk_date (y + 1) 1 1 end)
         (mk_date (y + 1) 1 1).
Proof.
  revert cur. induction l as [|x l IH]; intros [[m d]|]; simpl; try done.
  intros [[Hm Hd]%andb_true_iff Hc]%andb_true_iff.
  apply Z.eqb_eq in Hm, Hd. simpl in Hm, Hd. subst. destruct x as [m d]. simpl.
  split; [done|]. rewrite next_day_md. by apply IH.
Qed.

Lemma year_days_run y :
  run_of (year_days y) (mk_date y 1 1) (mk_date (y + 1) 1 1).
Proof. apply (chain_md_run y (calendar (is_leap y)) (Some (1, 1))), calendar_chain. Qed.

Lemma year_days_length y :
  length (year_days y) = if is_leap y then 366%nat else 365%nat.
Proof.
  unfold year_days. rewrite length_fmap. destruct (is_leap y); vm_compute; reflexivity.
Qed.

Lemma date_leb_same_year y m d m' d' :
  date_leb (mk_date y m d) (mk_date y m' d')
  = (m <? m') || ((m =? m') && (d <=? d')).
Proof. unfold date_leb. simpl. by rewrite Z.ltb_irrefl, Z.eqb_refl. Qed.

Lemma date_leb_next_year y m d m' d' :
  date_leb (mk_date (y + 1) m d) (mk_date y m' d') = false.
Proof.
  unfold date_leb. simpl.
  replace (y + 1 <? y) with false by (symmetry; apply Z.ltb_ge; lia).
  replace (y + 1 =? y) with false by (symmetry; apply Z.eqb_neq; lia). done.
Qed.

Lemma next_day_year dt : d_year (next_day dt) <= d_year dt + 1.
Proof. unfold next_day. repeat case_match; simpl; lia. Qed.

Lemma calendar_before_year_end leap :
  forallb (fun md => (md.1 <? 12) || ((md.1 =? 12) && (md.2 <=? 31))) (calendar leap) = true.
Proof. destruct leap; vm_compute; reflexivity. Qed.

Lemma year_days_in_year y dt :
  dt ∈ year_days y ->
  d_year dt = y /\ date_leb dt (mk_date y 12 31) = true.
Proof.
  unfold year_days. intros ([m d] & -> & Hin)%list_elem_of_fmap. simpl.
  split; [done|]. rewrite date_leb_same_year.
  pose proof (calendar_before_year_end (is_leap y)) as Hall.
  rewrite forallb_forall in Hall. by apply (Hall (m, d)), list_elem_of_In.
Qed.

(** The loop of [iter_year_dates] along a run of days up to [end_]. *)
Lemma iter_dates_loop_run end_ l :
  forall cur stop fuel,
    run_of l cur stop ->
    Forall (fun d => date_leb d end_ = true /\ d_year (next_day d) <= 9999) l ->
    date_leb stop end_ = false ->
    (length l < fuel)%nat ->
    iter_dates_loop fuel cur end_ = Ok (isoformat <$> l).
Proof.
  induction l as [|d l IH]; intros cur stop fuel Hrun Hall Hstop Hfuel;
    (destruct fuel as [|fuel]; [simpl in Hfuel; lia|]); simpl in *.
  - subst. by rewrite Hstop.
  - destruct Hrun as [-> Hrun]. apply Forall_cons in Hall as [[Hle Hy] Hall].
    rewrite Hle. unfold add_days. simpl.
    replace (d_year (next_day cur) <=? 9999) with true by (symmetry; by apply Z.leb_le).
    simpl. erewrite IH; eauto. lia.
Qed.

Lemma date_new_jan1 y : 1 <= y <= 9999 -> date_new y 1 1 = Ok (mk_date y 1 1).
Proof.
  intros Hy. unfold date_new, fits_int.
  replace (-2147483648 <=? y) with true by (symmetry; apply Z.leb_le; lia).
  replace (y <=? 2147483647) with true by (symmetry; apply Z.leb_le; lia).
  replace (1 <=? y) with true by (symmetry; apply Z.leb_le; lia).
  replace (y <=? 9999) with true by (symmetry; apply Z.leb_le; lia).
  reflexivity.
Qed.

Lemma date_new_dec31 y : 1 <= y <= 9999 -> date_new y 12 31 = Ok (mk_date y 12 31).
Proof.
  intros Hy. unfold date_new, fits_int.
  replace (-2147483648 <=? y) with true by (symmetry; apply Z.leb_le; lia).
  replace (y <=? 2147483647) with true by (symmetry; apply Z.leb_le; lia).
  replace (1 <=? y) with true by (symmetry; apply Z.leb_le; lia).
  replace (y <=? 9999) with true by (symmetry; apply Z.leb_le; lia).
  reflexivity.
Qed.

(** The dates of a year are its calendar days in ISO form. *)
Lemma iter_year_dates_calendar year :
  1 <= year <= 9998 ->
  iter_year_dates year = Ok (isoformat <$> year_days year).
Proof.
  intros Hy. unfold iter_year_dates.
  rewrite date_new_jan1, date_new_dec31 by lia. unfold mbind, res_bind.
  eapply iter_dates_loop_run.
  - apply year_days_run.
  - apply Forall_forall. intros dt Hdt.
    destruct (year_days_in_year year dt Hdt) as [Hyr Hle]. split; [done|].
    pose proof (next_day_year dt). lia.
  - apply date_leb_next_year.
  - rewrite year_days_length. destruct (is_leap year); lia.
Qed.

Lemma calendar_NoDup leap : NoDup (calendar leap).
Proof. destruct leap; apply (bool_decide_unpack _); vm_compute; exact I. Qed.

Lemma year_days_NoDup y : NoDup (year_days y).
Proof.
  unfold year_days. apply NoDup_fmap_2_strong; [|apply calendar_NoDup].
  intros [m d] [m' d'] _ _ [= -> ->]. done.
Qed.

Lemma daily_has_date_param method signature :
  classify_call_type method signature = daily ->
  Str.mem "cdate" (parse_signature_params signature)
  || Str.mem "fordate" (parse_signature_params signature) = true.
Proof.
  unfold classify_call_type. repeat case_match; try done.
Qed.

(** C7. For a method classified [daily] and a target year from 1 to 9998
    (the years whose days and the day after them are dates), over the seed
    context of that year, the plan is one call per calendar day of the year,
    in calendar order, January 1 first and December 31 last, 365 calls or 366
    in a leap year, each with the ISO date under the date parameter that the
    signature declares ([cdate], or [fordate] when there is no [cdate]). *)
Theorem daily_plan_covers_year {C} (cl : client C) year w0 ctx w1 method signature incl :
  1 <= year <= 9998 ->
  classify_call_type method signature = daily ->
  build_seed_context cl year w0 = (Ok ctx, w1) ->
  exists date_param,
    (date_param = "cdate" \/ date_param = "fordate")
    /\ Str.mem date_param (parse_signature_params signature) = true
    /\ build_calls_for_method method signature daily ctx incl
       = Ok ((fun d => [(date_param, JStr (isoformat d))]) <$> year_days year, None)
    /\ NoDup (year_days year)
    /\ length (year_days year) = (if is_leap year then 366%nat else 365%nat)
    /\ head (year_days year) = Some (mk_date year 1 1)
    /\ last (year_days year) = Some (mk_date year 12 31).
Proof.
  intros Hy Hct Hctx.
  apply build_seed_context_inv in Hctx as (_ & _ & _ & Hdates & _).
  rewrite iter_year_dates_calendar in Hdates by done.
  assert (Hd : ctx_dates ctx = isoformat <$> year_days year) by congruence.
  clear Hdates. apply daily_has_date_param in Hct.
  assert (Hplan : forall p : string,
    (Ok ((fun d : string => [(p, JStr d)]) <$> ctx_dates ctx, None)
       : res (list kwargs * option string))
    = Ok ((fun d => [(p, JStr (isoformat d))]) <$> year_days year, None)).
  { intros p. rewrite Hd, <- list_fmap_compose. done. }
  assert (Hrest : NoDup (year_days year)
    /\ length (year_days year) = (if is_leap year then 366%nat else 365%nat)
    /\ head (year_days year) = Some (mk_date year 1 1)
    /\ last (year_days year) = Some (mk_date year 12 31)).
  { split; [apply year_days_NoDup|]. split; [apply year_days_length|].
    unfold year_days. destruct (is_leap year); split; reflexivity. }
  unfold build_calls_for_method.
  destruct (Str.mem "cdate" (parse_signature_params signature)) eqn:Hc.
  - exists "cdate". split; [by left|]. split; [done|]. split; [|done].
    unfold mbind, res_bind. apply Hplan.
  - simpl in Hct. rewrite Hct. exists "fordate". split; [by right|]. split; [done|].
    split; [|done]. unfold mbind, res_bind. apply Hplan.
Qed.

Definition seed_2025 : res seed_context * world nat :=
  build_seed_context late_devices 2025 empty_world.
Definition ctx_2025 : seed_context := ok_or plain_ctx seed_2025.1.

Lemma daily_plan_covers_year_witness :
  exists date_param,
    (date_param = "cdate" \/ date_param = "fordate")
    /\ Str.mem date_param (parse_signature_params "get_sleep_data(cdate)") = true
    /\ build_calls_for_method "get_sleep_data" "get_sleep_data(cdate)" daily ctx_2025 true
       = Ok ((fun d => [(date_param, JStr (isoformat d))]) <$> year_days 2025, None)
    /\ NoDup (year_days 2025)
    /\ length (year_days 2025) = (if is_leap 2025 then 366%nat else 365%nat)
    /\ head (year_days 2025) = Some (mk_date 2025 1 1)
    /\ last (year_days 2025) = Some (mk_date 2025 12 31).
Proof.
  apply (daily_plan_covers_year late_devices 2025 empty_world ctx_2025 seed_2025.2
           "get_sleep_data" "get_sleep_data(cdate)" true).
  - lia.
  - reflexivity.
  - vm_compute. reflexivity.
Defined.

(** ** Reading the bounds of a four-digit year *)

Lemma digit_pretty_N_char (n : N) :
  (n < 10)%N -> digit (pretty_N_char n) = Some (Z.of_N n).
Proof.
  intros Hn. destruct n as [|p]; [reflexivity|].
  do 4 (try destruct p as [p|p|]); try reflexivity; lia.
Qed.

Lemma pretty_four_digits (y : Z) :
  1000 <= y <= 9999 ->
  exists n3 n2 n1 n0 : N,
    (n3 < 10 /\ n2 < 10 /\ n1 < 10 /\ n0 < 10)%N
    /\ pretty y
       = String (pretty_N_char n3) (String (pretty_N_char n2)
           (String (pretty_N_char n1) (String (pretty_N_char n0) "")))
    /\ 1000 * Z.of_N n3 + 100 * Z.of_N n2 + 10 * Z.of_N n1 + Z.of_N n0 = y.
Proof.
  intros Hy. destruct y as [|p|p]; try lia.
  unfold pretty, pretty_Z, pretty, pretty_positive, pretty, pretty_N.
  rewrite decide_False by done.
  set (x := N.pos p). assert (Hx : (1000 <= x <= 9999)%N) by (unfold x; lia).
  assert (Hzx : Z.pos p = Z.of_N x) by done. rewrite Hzx. clearbody x. clear Hy Hzx p.
  pose proof (N.div_mod x 10 ltac:(done)) as E0.
  pose proof (N.mod_lt x 10 ltac:(done)) as B0.
  pose proof (N.div_mod (x `div` 10) 10 ltac:(done)) as E1.
  pose proof (N.mod_lt (x `div` 10) 10 ltac:(done)) as B1.
  pose proof (N.div_mod (x `div` 10 `div` 10) 10 ltac:(done)) as E2.
  pose proof (N.mod_lt (x `div` 10 `div` 10) 10 ltac:(done)) as B2.
  pose proof (N.div_mod (x `div` 10 `div` 10 `div` 10) 10 ltac:(done)) as E3.
  pose proof (N.mod_lt (x `div` 10 `div` 10 `div` 10) 10 ltac:(done)) as B3.
  assert (H0 : (0 < x)%N) by lia.
  assert (H1 : (0 < x `div` 10)%N) by lia.
  assert (H2 : (0 < x `div` 10 `div` 10)%N) by lia.
  assert (H3 : (0 < x `div` 10 `div` 10 `div` 10)%N) by lia.
  pose proof (N.le_0_l (x `mod` 10)) as P0.
  pose proof (N.le_0_l (x `div` 10 `mod` 10)) as P1.
  pose proof (N.le_0_l (x `div` 10 `div` 10 `mod` 10)) as P2.
  assert (H4 : (x `div` 10 `div` 10 `div` 10 `div` 10 = 0)%N)
    by (apply N.div_small; lia).
  pose proof (N.le_0_l (x `div` 10 `div` 10 `div` 10 `mod` 10)) as P3.
  exists (x `div` 10 `div` 10 `div` 10 `mod` 10)%N, (x `div` 10 `div` 10 `mod` 10)%N,
         (x `div` 10 `mod` 10)%N, (x `mod` 10)%N.
  split; [lia|]. split; [|lia].
  rewrite (pretty_N_go_step x) by done.
  rewrite (pretty_N_go_step (x `div` 10)) by done.
  rewrite (pretty_N_go_step (x `div` 10 `div` 10)) by done.
  rewrite (pretty_N_go_step (x `div` 10 `div` 10 `div` 10)) by done.
  rewrite H4. apply pretty_N_go_0.
Qed.

Lemma strptime_year_bound (y : Z) (tail : string) m d :
  1000 <= y <= 9999 ->
  Str.has_char "-" tail = true ->
  parse_month (Str.before_first "-" tail) = Some m ->
  parse_day (Str.after_first "-" tail) = Some d ->
  strptime_ymd (pretty y +:+ String "-" tail) = date_new y m d.
Proof.
  intros Hy Hc Hm Hd.
  destruct (pretty_four_digits y Hy) as (n3 & n2 & n1 & n0 & (B3 & B2 & B1 & B0) & -> & Hsum).
  change (strptime_ymd
            (String (pretty_N_char n3) (String (pretty_N_char n2)
               (String (pretty_N_char n1) (String (pretty_N_char n0) (String "-" tail)))))
          = date_new y m d).
  unfold strptime_ymd.
  rewrite !digit_pretty_N_char by done. rewrite Hc, Hm, Hd, Hsum. done.
Qed.

Lemma strptime_jan1 y :
  1000 <= y <= 9999 -> strptime_ymd (pretty y +:+ "-01-01") = Ok (mk_date y 1 1).
Proof.
  intros Hy. rewrite (strptime_year_bound y "01-01" 1 1) by done.
  apply date_new_jan1. lia.
Qed.

Lemma strptime_dec31 y :
  1000 <= y <= 9999 -> strptime_ymd (pretty y +:+ "-12-31") = Ok (mk_date y 12 31).
Proof.
  intros Hy. rewrite (strptime_year_bound y "12-31" 12 31) by done.
  apply date_new_dec31. lia.
Qed.

Lemma year_span y :
  Z.to_nat (toordinal (mk_date y 12 31) - toordinal (mk_date y 1 1) + 2)
  = if is_leap y then 367%nat else 366%nat.
Proof.
  unfold toordinal. cbn [d_year d_month d_day].
  generalize (days_before_year y). intros n.
  destruct (is_leap y).
  - change (days_before_month_go true (Z.to_nat (12 - 1))) with 335.
    change (days_before_month_go true (Z.to_nat (1 - 1))) with 0. lia.
  - change (days_before_month_go false (Z.to_nat (12 - 1))) with 334.
    change (days_before_month_go false (Z.to_nat (1 - 1))) with 0. lia.
Qed.

(** ** Windows of at most 31 days *)

(** A day of the year [y] or of the one after it, as (years after [y], month,
    day); the windows of a year are computed on such days and read at [y]. *)
Definition rel_day : Type := Z * Z * Z.

Definition at_year (y : Z) (t : rel_day) : date :=
  mk_date (y + t.1.1) t.1.2 t.2.

(** The day after; it is known up to January 31 of the next year. *)
Definition next_rel (leap : bool) (t : rel_day) : option rel_day :=
  if t.1.1 =? 0 then
    match next_md leap (t.1.2, t.2) with
    | Some md => Some (0, md.1, md.2)
    | None => Some (1, 1, 1)
    end
  else if (t.1.1 =? 1) && (t.1.2 =? 1) && (t.2 <? 31) then Some (1, 1, t.2 + 1)
  else None.

Definition add_rel (leap : bool) (n : nat) (t : rel_day) : option rel_day :=
  r ← Nat.iter n (fun o => o ≫= next_rel leap) (Some t);
  if r.1.1 <=? 1 then Some r else None.

Definition rel_leb (a b : rel_day) : bool :=
  (a.1.1 <? b.1.1)
  || ((a.1.1 =? b.1.1)
      && ((a.1.2 <? b.1.2) || ((a.1.2 =? b.1.2) && (a.2 <=? b.2)))).

Fixpoint chunk_rel (leap : bool) (fuel : nat) (current end_dt : rel_day)
  : option (list (rel_day * rel_day)) :=
  match fuel with
  | O => None
  | S fuel' =>
      if rel_leb current end_dt then
        far ← add_rel leap 30 current;
        let chunk_end := if rel_leb far end_dt then far else end_dt in
        nxt ← add_rel leap 1 chunk_end;
        rest ← chunk_rel leap fuel' nxt end_dt;
        Some ((current, chunk_end) :: rest)
      else Some []
  end.

(** The windows of a year: month and day of the first and of the last day. *)
Definition year_windows (leap : bool) : list ((Z * Z) * (Z * Z)) :=
  (fun w : rel_day * rel_day => ((w.1.1.2, w.1.2), (w.2.1.2, w.2.2)))
    <$> default [] (chunk_rel leap 367 (0, 1, 1) (0, 12, 31)).

(** The calendar cut into blocks of [n] days. *)
Fixpoint blocks_go {A} (fuel n : nat) (l : list A) : list (list A) :=
  match fuel with
  | O => []
  | S fuel' =>
      match l with
      | [] => []
      | _ => take n l :: blocks_go fuel' n (drop n l)
      end
  end.

Definition blocks {A} (n : nat) (l : list A) : list (list A) :=
  blocks_go (length l) n l.

Definition window_of (y : Z) (w : (Z * Z) * (Z * Z)) : date * date :=
  (mk_date y w.1.1 w.1.2, mk_date y w.2.1 w.2.2).

Definition day_of (y : Z) (md : Z * Z) : date := mk_date y md.1 md.2.

Lemma next_rel_sound y t t' :
  next_rel (is_leap y) t = Some t' -> next_day (at_year y t) = at_year y t'.
Proof.
  destruct t as [[o m] d]. unfold next_rel, at_year. cbn [fst snd].
  destruct (Z.eqb_spec o 0) as [->|Ho].
  - rewrite Z.add_0_r, next_day_md.
    destruct (next_md (is_leap y) (m, d)) as [[m' d']|]; intros [= <-]; cbn [fst snd].
    + by rewrite Z.add_0_r.
    + done.
  - destruct (Z.eqb_spec o 1) as [->|]; [|done].
    destruct (Z.eqb_spec m 1) as [->|]; [|done].
    destruct (Z.ltb_spec d 31) as [Hd|]; [|done]. cbn [andb]. intros [= <-].
    unfold next_day, days_in_month. cbn [d_year d_month d_day fst snd].
    change (month_length (is_leap (y + 1)) 1) with 31.
    destruct (Z.ltb_spec d 31); [done|lia].
Qed.

Lemma iter_rel_sound y n t r :
  Nat.iter n (fun o => o ≫= next_rel (is_leap y)) (Some t) = Some r ->
  Nat.iter n next_day (at_year y t) = at_year y r.
Proof.
  revert r. induction n as [|n IH]; intros r.
  - by intros [= <-].
  - rewrite !Nat.iter_succ.
    destruct (Nat.iter n _ (Some t)) as [r0|] eqn:E; [|done].
    intros Hr. rewrite (IH r0 eq_refl). by apply next_rel_sound.
Qed.

Lemma add_rel_sound y n t r :
  y <= 9998 ->
  add_rel (is_leap y) n t = Some r -> add_days (at_year y t) n = Ok (at_year y r).
Proof.
  intros Hy. unfold add_rel, add_days.
  destruct (Nat.iter n _ (Some t)) as [r0|] eqn:E; [|done]. cbn.
  destruct (Z.leb_spec r0.1.1 1) as [Ho|]; [|done]. intros [= <-].
  rewrite (iter_rel_sound y n t r0 E). unfold at_year at 1. cbn [d_year].
  destruct (Z.leb_spec (y + r0.1.1) 9999); [done|lia].
Qed.

Lemma rel_leb_sound y a b : date_leb (at_year y a) (at_year y b) = rel_leb a b.
Proof.
  unfold date_leb, rel_leb, at_year. cbn [d_year d_month d_day].
  replace (y + a.1.1 <? y + b.1.1) with (a.1.1 <? b.1.1)
    by (destruct (Z.ltb_spec a.1.1 b.1.1), (Z.ltb_spec (y + a.1.1) (y + b.1.1)); lia).
  replace (y + a.1.1 =? y + b.1.1) with (a.1.1 =? b.1.1)
    by (destruct (Z.eqb_spec a.1.1 b.1.1), (Z.eqb_spec (y + a.1.1) (y + b.1.1)); lia).
  done.
Qed.

Lemma chunk_rel_sound y fuel t e ws :
  y <= 9998 ->
  chunk_rel (is_leap y) fuel t e = Some ws ->
  chunk_loop fuel (at_year y t) (at_year y e) 31
  = Ok ((fun w => (at_year y w.1, at_year y w.2)) <$> ws).
Proof.
  intros Hy. revert t ws. induction fuel as [|fuel IH]; intros t ws; [done|].
  cbn [chunk_rel chunk_loop]. rewrite rel_leb_sound.
  destruct (rel_leb t e); [|by intros [= <-]].
  destruct (add_rel (is_leap y) 30 t) as [far|] eqn:Hfar; [|done].
  change (Z.to_nat (31 - 1)) with 30%nat.
  rewrite (add_rel_sound y 30 t far Hy Hfar). cbn [mbind option_bind res_bind].
  unfold date_min. rewrite rel_leb_sound.
  set (ce := if rel_leb far e then far else e).
  replace (if rel_leb far e then at_year y far else at_year y e) with (at_year y ce)
    by (unfold ce; by destruct (rel_leb far e)).
  destruct (add_rel (is_leap y) 1 ce) as [nxt|] eqn:Hnxt; [|done].
  rewrite (add_rel_sound y 1 ce nxt Hy Hnxt). cbn [mbind option_bind res_bind].
  destruct (chunk_rel (is_leap y) fuel nxt e) as [rest|] eqn:Hrest; [|done].
  rewrite (IH nxt rest Hrest). cbn. by intros [= <-].
Qed.

Lemma chunk_rel_year leap :
  chunk_rel leap (if leap then 367 else 366) (0, 1, 1) (0, 12, 31)
  = Some ((fun w : (Z * Z) * (Z * Z) => ((0, w.1.1, w.1.2), (0, w.2.1, w.2.2)))
            <$> year_windows leap).
Proof. destruct leap; vm_compute; reflexivity. Qed.

(** The windows that [chunk_date_range] cuts out of the bounds of a year. *)
Lemma chunk_date_range_year y :
  1000 <= y <= 9998 ->
  chunk_date_range (pretty y +:+ "-01-01") (pretty y +:+ "-12-31") 31
  = Ok ((fun c => (isoformat c.1, isoformat c.2))
          <$> (window_of y <$> year_windows (is_leap y))).
Proof.
  intros Hy. unfold chunk_date_range.
  rewrite strptime_jan1, strptime_dec31 by lia. cbn [mbind res_bind].
  change (31 <=? 0) with false. cbv iota. rewrite year_span.
  pose proof (chunk_rel_sound y _ _ _ _ ltac:(lia) (chunk_rel_year (is_leap y))) as H.
  unfold at_year in H at 1 2. cbn [fst snd] in H. rewrite Z.add_0_r in H.
  rewrite <- list_fmap_compose in H.
  rewrite (list_fmap_ext _ (window_of y) (year_windows (is_leap y))) in H.
  - rewrite H. done.
  - intros i [[m d] [m' d']] _. unfold window_of, at_year. cbn. by rewrite Z.add_0_r.
Qed.

Lemma blocks_go_fmap {A B} (g : A -> B) fuel n (l : list A) :
  blocks_go fuel n (g <$> l) = (fun p : list A => g <$> p) <$> blocks_go fuel n l.
Proof.
  revert l. induction fuel as [|fuel IH]; intros l; [done|].
  destruct l as [|a l]; [done|].
  change (blocks_go (S fuel) n (g <$> a :: l))
    with (take n (g <$> a :: l) :: blocks_go fuel n (drop n (g <$> a :: l))).
  change (blocks_go (S fuel) n (a :: l))
    with (take n (a :: l) :: blocks_go fuel n (drop n (a :: l))).
  rewrite <- fmap_take, <- fmap_drop, IH. done.
Qed.

Lemma blocks_year_days y :
  blocks 31 (year_days y)
  = (fun p : list (Z * Z) => day_of y <$> p) <$> blocks 31 (calendar (is_leap y)).
Proof. unfold blocks, year_days. rewrite length_fmap. apply blocks_go_fmap. Qed.

Lemma blocks_calendar leap :
  concat (blocks 31 (calendar leap)) = calendar leap.
Proof. destruct leap; vm_compute; reflexivity. Qed.

Lemma blocks_calendar_length leap :
  Forall (fun p : list (Z * Z) => (1 <= length p <= 31)%nat) (blocks 31 (calendar leap)).
Proof. destruct leap; apply (bool_decide_unpack _); vm_compute; exact I. Qed.

Lemma year_windows_bounds leap :
  Forall2 (fun (w : (Z * Z) * (Z * Z)) p => head p = Some w.1 /\ last p = Some w.2)
          (year_windows leap) (blocks 31 (calendar leap)).
Proof. destruct leap; apply (bool_decide_unpack _); vm_compute; exact I. Qed.

Fixpoint contiguous (leap : bool) (ws : list ((Z * Z) * (Z * Z))) : bool :=
  match ws with
  | w1 :: ws' =>
      match ws' with
      | w2 :: _ => bool_decide (next_md leap w1.2 = Some w2.1) && contiguous leap ws'
      | [] => true
      end
  | [] => true
  end.

Lemma contiguous_lookup leap ws i w1 w2 :
  contiguous leap ws = true ->
  ws !! i = Some w1 -> ws !! S i = Some w2 -> next_md leap w1.2 = Some w2.1.
Proof.
  revert i. induction ws as [|a ws IH]; intros i Hc; [done|].
  destruct ws as [|b ws]; [by destruct i|].
  cbn [contiguous] in Hc. apply andb_true_iff in Hc as [Hab Hc].
  destruct i as [|i].
  - intros [= <-] [= <-]. by apply bool_decide_eq_true in Hab.
  - intros H1 H2. by apply (IH i).
Qed.

Lemma year_windows_contiguous leap : contiguous leap (year_windows leap) = true.
Proof. destruct leap; vm_compute; reflexivity. Qed.

Lemma body_battery_plan signature ctx incl :
  Str.mem "startdate" (parse_signature_params signature) = true ->
  Str.mem "enddate" (parse_signature_params signature) = true ->
  build_calls_for_method "get_body_battery" signature date_range ctx incl
  = (chunks ← chunk_date_range (ctx_start_date ctx) (ctx_end_date ctx) 31;
     Ok (map (fun c => [("startdate", JStr (fst c)); ("enddate", JStr (snd c))]) chunks,
         None)).
Proof.
  intros Hs He. unfold build_calls_for_method. rewrite Hs, He.
  destruct (Str.mem "start_date" (parse_signature_params signature)),
    (Str.mem "end_date" (parse_signature_params signature)),
    (Str.mem "start" (parse_signature_params signature)),
    (Str.mem "end" (parse_signature_params signature)); reflexivity.
Qed.

(** C8. For [get_body_battery] with the parameters [startdate] and [enddate],
    over the seed context of a target year from 1000 to 9998 (four digits, and
    the days after the year are dates), the [date_range] plan is one call per
    window, with the ISO dates of the window under [startdate] and [enddate].
    The windows are the first and last days of the blocks of 31 days into
    which the calendar of the year is cut: the blocks put end to end are the
    days of the year, which are distinct and follow one another from January
    1 to December 31, each block has from 1 to 31 days, and each window
    starts the day after the one before it ends. *)
Theorem body_battery_windows {C} (cl : client C) year w0 ctx w1 signature incl :
  1000 <= year <= 9998 ->
  Str.mem "startdate" (parse_signature_params signature) = true ->
  Str.mem "enddate" (parse_signature_params signature) = true ->
  build_seed_context cl year w0 = (Ok ctx, w1) ->
  exists windows : list (date * date),
    build_calls_for_method "get_body_battery" signature date_range ctx incl
    = Ok ((fun w => [("startdate", JStr (isoformat w.1));
                     ("enddate", JStr (isoformat w.2))]) <$> windows, None)
    /\ Forall2 (fun w p => head p = Some w.1 /\ last p = Some w.2)
               windows (blocks 31 (year_days year))
    /\ concat (blocks 31 (year_days year)) = year_days year
    /\ NoDup (year_days year)
    /\ run_of (year_days year) (mk_date year 1 1) (mk_date (year + 1) 1 1)
    /\ Forall (fun p : list date => (1 <= length p <= 31)%nat) (blocks 31 (year_days year))
    /\ (forall i a b, windows !! i = Some a -> windows !! S i = Some b ->
          b.1 = next_day a.2)
    /\ fst <$> head windows = Some (mk_date year 1 1)
    /\ snd <$> last windows = Some (mk_date year 12 31).
Proof.
  intros Hy Hs He Hctx.
  apply build_seed_context_inv in Hctx as (_ & Hstart & Hend & _ & _).
  exists (window_of year <$> year_windows (is_leap year)).
  split; [|split; [|split; [|split; [apply year_days_NoDup|split;
    [apply year_days_run|split; [|split; [|split]]]]]]].
  - rewrite body_battery_plan, Hstart, Hend, chunk_date_range_year by done.
    cbn [mbind res_bind]. f_equal. f_equal.
    change (map ?f ?l) with (f <$> l). by rewrite <- list_fmap_compose.
  - rewrite blocks_year_days. apply Forall2_fmap.
    eapply Forall2_impl; [apply year_windows_bounds|].
    intros [[m d] [m' d']] p [Hh Hl]. cbn [fst snd] in *. split.
    + destruct p as [|x p]; [done|]. cbn in Hh |- *. by injection Hh as ->.
    + rewrite fmap_last, Hl. done.
  - rewrite blocks_year_days. unfold year_days.
    rewrite <- (blocks_calendar (is_leap year)) at 2.
    generalize (blocks 31 (calendar (is_leap year))). intros ps.
    induction ps as [|p ps IH]; [done|].
    cbn [fmap list_fmap concat]. rewrite fmap_app. f_equal. apply IH.
  - rewrite blocks_year_days. apply Forall_fmap.
    eapply Forall_impl; [apply blocks_calendar_length|].
    intros p Hp. cbn. by rewrite length_fmap.
  - intros i a b Ha Hb.
    apply list_lookup_fmap_Some in Ha as (wa & -> & Ha).
    apply list_lookup_fmap_Some in Hb as (wb & -> & Hb).
    pose proof (contiguous_lookup _ _ _ _ _ (year_windows_contiguous _) Ha Hb) as Hn.
    destruct wa as [sa [ma da]], wb as [[mb db] eb]. cbn [window_of fst snd] in *.
    rewrite next_day_md, Hn. done.
  - destruct (is_leap year); reflexivity.
  - destruct (is_leap year); reflexivity.
Qed.

Lemma body_battery_windows_witness :
  exists windows : list (date * date),
    build_calls_for_method "get_body_battery" "get_body_battery(startdate, enddate=None)"
      date_range ctx_2025 true
    = Ok ((fun w => [("startdate", JStr (isoformat w.1));
                     ("enddate", JStr (isoformat w.2))]) <$> windows, None)
    /\ Forall2 (fun w p => head p = Some w.1 /\ last p = Some w.2)
               windows (blocks 31 (year_days 2025))
    /\ concat (blocks 31 (year_days 2025)) = year_days 2025
    /\ NoDup (year_days 2025)
    /\ run_of (year_days 2025) (mk_date 2025 1 1) (mk_date (2025 + 1) 1 1)
    /\ Forall (fun p : list date => (1 <= length p <= 31)%nat) (blocks 31 (year_days 2025))
    /\ (forall i a b, windows !! i = Some a -> windows !! S i = Some b ->
          b.1 = next_day a.2)
    /\ fst <$> head windows = Some (mk_date 2025 1 1)
    /\ snd <$> last windows = Some (mk_date 2025 12 31).
Proof.
  apply (body_battery_windows late_devices 2025 empty_world ctx_2025 seed_2025.2
           "get_body_battery(startdate, enddate=None)" true).
  - lia.
  - reflexivity.
  - reflexivity.
  - vm_compute. reflexivity.
Defined.

(** ** Failures of the bootstrap calls *)

(** A bootstrap step from [w]: the value of its body, or the default when the
    body raises; [w'] is the world that the body leaves. *)
Definition guarded {C A} (body : M C A) (dflt : A) (w : world C) (v : A) (w' : world C)
  : Prop :=
  match body w with
  | (Ok a, w1) => v = a /\ w' = w1
  | (Raise _, w1) => v = dflt /\ w' = w1
  | (OutOfFuel, _) => False
  end.

Definition page_request (page : Z) : kwargs :=
  [("start", JInt (page * 100)); ("limit", JInt 100)].

Section BootstrapFaults.
Context {C : Type} (cl : client C).

Lemma call_or_inv {A} (body : M C A) (dflt : A) w r w' :
  call_or body dflt w = (r, w') ->
  (exists v, r = Ok v /\ guarded body dflt w v w')
  \/ (r = OutOfFuel /\ body w = (OutOfFuel, w')).
Proof.
  unfold call_or, try_except, guarded. destruct (body w) as [[a|e|] w1]; intros H.
  - inversion H; subst. left. eauto.
  - inversion H; subst. left. eauto.
  - inversion H; subst. by right.
Qed.

Lemma fmap_fst_inv {A B} (m : M C (A * B)) w r w' :
  (fst <$> m) w = (r, w') ->
  match m w with
  | (Ok a, w1) => r = Ok a.1 /\ w' = w1
  | (Raise e, w1) => r = Raise e /\ w' = w1
  | (OutOfFuel, w1) => r = OutOfFuel /\ w' = w1
  end.
Proof.
  unfold fmap, M_fmap. destruct (m w) as [[a|e|] w1]; intros H; by inversion H.
Qed.

Lemma safe_call_fst_fuel method kw retries w w' :
  (fst <$> safe_call cl method kw retries) w <> (OutOfFuel, w').
Proof.
  intros H. apply fmap_fst_inv in H.
  destruct (safe_call cl method kw retries w) as [[a|e|] w1] eqn:Hs; try by destruct H.
  by apply safe_call_ext in Hs as [? _].
Qed.

(** The activity feed never raises: a page whose call fails ends it with the
    activities found on the pages before. *)
Lemma fetch_activities_loop_total year remaining page empty_pages activities w :
  exists more w',
    fetch_activities_loop cl year remaining page empty_pages activities w
    = (Ok (activities ++ more)%list, w')
    /\ ((exists e w1, safe_call cl "get_activities" (page_request page) 1 w = (Raise e, w1))
        -> more = []).
Proof.
  revert page empty_pages activities w.
  induction remaining as [|n IH]; intros page ep acts w.
  { exists [], w. rewrite app_nil_r. split; [done|]. done. }
  cbn [fetch_activities_loop]. fold (page_request page).
  destruct (attempt (safe_call cl "get_activities" (page_request page) 1) w)
    as [r0 w0] eqn:Ha.
  pose proof (attempt_inv _ _ _ _ Ha) as Hi.
  unfold mbind, M_bind. rewrite Ha.
  destruct (safe_call cl "get_activities" (page_request page) 1 w) as [[[v t]|e|] w1] eqn:Hs.
  - destruct Hi as [-> ->].
    assert (Hno : (exists e w2, (Ok (v, t), w1) = (Raise e, w2)) -> False)
      by (intros (? & ? & ?); done).
    assert (Hempty :
      exists more w',
        (if 2 <=? ep + 1 then mret acts
         else fetch_activities_loop cl year n (page + 1) (ep + 1) acts) w1
        = (Ok (acts ++ more)%list, w')).
    { destruct (2 <=? ep + 1).
      - exists [], w1. by rewrite app_nil_r.
      - destruct (IH (page + 1) (ep + 1) acts w1) as (more & w' & -> & _). eauto. }
    destruct v as [| | | |l|]; try (destruct Hempty as (more & w' & ->);
      exists more, w'; split; [done|]; intros Hf; by destruct (Hno Hf)).
    destruct l as [|act batch]; [destruct Hempty as (more & w' & ->);
      exists more, w'; split; [done|]; intros Hf; by destruct (Hno Hf)|].
    destruct (scan_batch year (act :: batch)) as [hits has_older].
    destruct (match hits with [] => has_older | _ => false end).
    + exists hits, w1. split; [done|]. intros Hf. by destruct (Hno Hf).
    + destruct (IH (page + 1) 0 (acts ++ hits)%list w1) as (more & w' & -> & _).
      exists (hits ++ more)%list, w'. rewrite app_assoc. split; [done|].
      intros Hf. by destruct (Hno Hf).
  - destruct Hi as [-> ->]. exists [], w1. rewrite app_nil_r. done.
  - apply safe_call_ext in Hs as [? _]. done.
Qed.

Lemma fetch_workouts_loop_fuel remaining start workouts w w' :
  fetch_workouts_loop cl remaining start workouts w <> (OutOfFuel, w').
Proof.
  revert start workouts w. induction remaining as [|n IH]; intros start wk w; [done|].
  cbn [fetch_workouts_loop]. intros H.
  apply bind_inv in H as [([payload t] & w1 & Hs & H) | [(? & ? & ?) | (Hs & _)]];
    [|done|by apply safe_call_ext in Hs as [? _]].
  destruct (extract_items payload) as [|i items]; [done|].
  destruct (Z.of_nat (length (i :: items)) <? 100); [done|]. by apply IH in H.
Qed.

(** The call for the gear of a profile number. *)
Definition gear_call (first : json) : M C (list json) :=
  '(gear_payload, _) ← safe_call cl "get_gear" [("userProfileNumber", first)] 1;
  mret (gear_of_payload gear_payload).

Lemma gear_call_fuel first w w' : gear_call first w <> (OutOfFuel, w').
Proof.
  unfold gear_call. intros H.
  apply bind_inv in H as [([payload t] & w1 & Hs & H) | [(? & ? & ?) | (Hs & _)]];
    [done|done|by apply safe_call_ext in Hs as [? _]].
Qed.

Lemma sorted_set_raise l e :
  sorted_set l = Raise e -> exists text, e = LocalError "TypeError" text.
Proof.
  unfold sorted_set. destruct (forallb hashable l); [|intros [= <-]; eauto].
  destruct (py_set l) as [|a [|b s]]; try done.
  destruct (forallb is_num (a :: b :: s)); [done|].
  destruct (forallb is_str (a :: b :: s)); [done|]. intros [= <-]. eauto.
Qed.

Lemma sorted_set_fuel l : sorted_set l <> OutOfFuel.
Proof.
  unfold sorted_set. destruct (forallb hashable l); [|done].
  destruct (py_set l) as [|a [|b s]]; try done.
  destruct (forallb is_num (a :: b :: s)); [done|].
  by destruct (forallb is_str (a :: b :: s)).
Qed.

(** The ids that two sources give together. *)
Definition device_ids_of (devices last_used : json) : list json :=
  (match devices with
   | JList l => ids_not_none "deviceId" l
   | _ => []
   end ++
   (if is_dict last_used && negb (is_none (jget "deviceId" last_used))
    then [jget "deviceId" last_used] else []))%list.

Definition profile_numbers_of (profile last_used : json) : list json :=
  ((if is_dict profile then
      flat_map (fun key => if is_none (jget key profile) then []
                           else [jget key profile])
               ["userProfileNumber"; "profileId"]
    else []) ++
   (if is_dict last_used && negb (is_none (jget "userProfileNumber" last_used))
    then [jget "userProfileNumber" last_used] else []))%list.

Definition gear_uuids_of (gears : list json) : list json :=
  map (jget "uuid") (filter (fun g => truthy (jget "uuid" g)) gears).

Definition plan_ids_of (training_plans : json) : list json :=
  match training_plans with
  | JDict d =>
      match dict_get "trainingPlanList" d with
      | Some (JList plans) => ids_not_none "trainingPlanId" plans
      | _ => []
      end
  | _ => []
  end.

Definition cache_of (activities workouts : list json) (devices profile last_used : json)
    (gears : list json) (training_plans : json) : gmap string json :=
  <["get_training_plans" := training_plans]>
    (<["get_gear" := JList gears]>
       (<["get_device_last_used" := last_used]>
          (<["get_user_profile" := profile]>
             (<["get_devices" := devices]>
                (<["get_workouts" := JList workouts]>
                   (<["get_activities" := JList activities]> ∅)))))).

Lemma call_or_step {A B} (body : M C A) (dflt : A) (k : A -> M C B) w r w' :
  (forall w1, body w <> (OutOfFuel, w1)) ->
  (call_or body dflt ≫= k) w = (r, w') ->
  exists v w1, guarded body dflt w v w1 /\ k v w1 = (r, w').
Proof.
  intros Hfuel H.
  apply bind_inv in H as [(a & w1 & Hs & H) | [(? & Hs & ?) | (Hs & ?)]];
    apply call_or_inv in Hs as [(v & Hv & G) | (Hv & Hs)];
    try done; try (by apply Hfuel in Hs).
  injection Hv as <-. eauto.
Qed.

Lemma lift_step {A B} (x : res A) (k : A -> M C B) w r w' :
  (lift x ≫= k) w = (r, w') ->
  match x with
  | Ok a => k a w = (r, w')
  | Raise e => r = Raise e /\ w' = w
  | OutOfFuel => r = OutOfFuel /\ w' = w
  end.
Proof.
  unfold mbind, M_bind, lift. destruct x; intros H; [done| |]; by inversion H.
Qed.

Ltac lift_sorted H E v :=
  apply lift_step in H;
  match type of H with
  | match ?x with _ => _ end =>
      destruct x as [v|?|] eqn:E;
      [ | destruct H as [-> ->];
          (split; [done|]; split; [intros ? [= <-]; by eapply sorted_set_raise | done])
        | by apply sorted_set_fuel in E ]
  end.

Lemma fetch_activities_for_year_total year w :
  exists activities w', fetch_activities_for_year cl year w = (Ok activities, w').
Proof.
  destruct (fetch_activities_loop_total year 500 0 0 [] w) as (more & w' & H & _).
  exists ([] ++ more)%list, w'. exact H.
Qed.

Lemma guarded_Ok {A} (body : M C A) dflt w v w' a w1 :
  body w = (Ok a, w1) -> guarded body dflt w v w' -> v = a /\ w' = w1.
Proof. unfold guarded. by intros ->. Qed.

Lemma gear_step {B} (pn : list json) (k : list json -> M C B) w r w' :
  (match pn with
   | [] => mret []
   | first :: _ => call_or (gear_call first) []
   end ≫= k) w = (r, w') ->
  exists gears w6,
    match pn with
    | [] => gears = [] /\ w6 = w
    | first :: _ => guarded (gear_call first) [] w gears w6
    end
    /\ k gears w6 = (r, w').
Proof.
  destruct pn as [|first pn]; intros H.
  - exists [], w. done.
  - apply call_or_step in H as (gears & w6 & G & H); [|intros; apply gear_call_fuel].
    eauto.
Qed.

(** The context [ctx] that the construction from [w] returns, leaving [w']:
    the sources are read in this order, each from the world that the one
    before left; the value of a source is what its call returned, or its
    empty default when the call raised; [get_gear] is called only when a
    profile number was found, with the first one; each cached payload is the
    value of its source and each id list is the sorted set of the ids read
    from the values of its own sources. *)
Definition seed_steps (year : Z) (w : world C) (ctx : seed_context) (w' : world C)
  : Prop :=
  exists activities workouts devices profile last_used gears training_plans
         w1 w2 w3 w4 w5 w6,
    fetch_activities_for_year cl year w = (Ok activities, w1)
    /\ guarded (fetch_all_workouts cl) [] w1 workouts w2
    /\ guarded (fst <$> safe_call cl "get_devices" [] 1) (JList []) w2 devices w3
    /\ guarded (fst <$> safe_call cl "get_user_profile" [] 1) (JDict []) w3 profile w4
    /\ guarded (fst <$> safe_call cl "get_device_last_used" [] 1) (JDict []) w4
               last_used w5
    /\ match user_profile_numbers ctx with
       | [] => gears = [] /\ w6 = w5
       | first :: _ => guarded (gear_call first) [] w5 gears w6
       end
    /\ guarded (fst <$> safe_call cl "get_training_plans" [] 1) (JDict []) w6
               training_plans w'
    /\ cached_method_data ctx
       = cache_of activities workouts devices profile last_used gears training_plans
    /\ sorted_set (ids_truthy "activityId" activities) = Ok (activity_ids ctx)
    /\ sorted_set (ids_not_none "workoutId" workouts) = Ok (workout_ids ctx)
    /\ sorted_set (ids_not_none "scheduledWorkoutId" workouts)
       = Ok (scheduled_workout_ids ctx)
    /\ sorted_set (device_ids_of devices last_used) = Ok (device_ids ctx)
    /\ sorted_set (profile_numbers_of profile last_used)
       = Ok (user_profile_numbers ctx)
    /\ sorted_set (gear_uuids_of gears) = Ok (gear_uuids ctx)
    /\ sorted_set (plan_ids_of training_plans) = Ok (plan_ids ctx).

Lemma build_seed_context_steps year w r w' :
  1 <= year <= 9998 ->
  build_seed_context cl year w = (r, w') ->
  r <> OutOfFuel
  /\ (forall e, r = Raise e -> exists text, e = LocalError "TypeError" text)
  /\ (forall ctx, r = Ok ctx -> seed_steps year w ctx w').
Proof.
  intros Hy H. unfold build_seed_context in H.
  apply lift_step in H. rewrite iter_year_dates_calendar in H by done.
  set (dates := isoformat <$> year_days year) in H. clearbody dates.
  apply call_or_step in H as (activities & w1 & G1 & H).
  2:{ intros w1 Hf. destruct (fetch_activities_for_year_total year w) as (? & ? & Hl).
      rewrite Hl in Hf. discriminate Hf. }
  assert (Hacts : fetch_activities_for_year cl year w = (Ok activities, w1)).
  { destruct (fetch_activities_for_year_total year w) as (a & wa & Hl).
    destruct (guarded_Ok _ _ _ _ _ _ _ Hl G1) as [-> ->]. exact Hl. }
  apply call_or_step in H as (workouts & w2 & G2 & H);
    [|intros; apply fetch_workouts_loop_fuel].
  apply call_or_step in H as (devices & w3 & G3 & H);
    [|intros; apply safe_call_fst_fuel].
  apply call_or_step in H as (profile & w4 & G4 & H);
    [|intros; apply safe_call_fst_fuel].
  apply call_or_step in H as (last_used & w5 & G5 & H);
    [|intros; apply safe_call_fst_fuel].
  lift_sorted H Hpn pn. lift_sorted H Hdev dv.
  apply gear_step in H as (gears & w6 & G6 & H).
  apply call_or_step in H as (training_plans & w7 & G7 & H);
    [|intros; apply safe_call_fst_fuel].
  lift_sorted H Hact acts'. lift_sorted H Hwk wk'. lift_sorted H Hsch sch'.
  lift_sorted H Hgu gu'. lift_sorted H Hpl pl'.
  unfold mret, M_ret in H. injection H as <- <-.
  split; [discriminate|]. split; [intros ? [=]|]. intros ctx [= <-].
  unfold seed_steps. cbn [user_profile_numbers].
  exists activities, workouts, devices, profile, last_used, gears, training_plans,
         w1, w2, w3, w4, w5, w6.
  split; [exact Hacts|]. split; [exact G2|]. split; [exact G3|]. split; [exact G4|].
  split; [exact G5|]. split; [exact G6|]. split; [exact G7|]. split; [reflexivity|].
  split; [exact Hact|]. split; [exact Hwk|]. split; [exact Hsch|]. split; [exact Hdev|].
  split; [exact Hpn|]. split; [exact Hgu|]. exact Hpl.
Qed.

(** C9 (as amended). For a target year from 1 to 9998, the construction of
    the seed context ends without a remote failure reaching its caller: it
    returns a context, or raises the [TypeError] of a [sorted(set(...))] over
    ids that cannot be hashed or ordered. When it returns, [seed_steps] holds:
    every source after the activity feed is one guarded call, whose value is
    the empty default when the call raised, and the cached payload and the id
    lists of a source are read from that value (device ids and profile
    numbers from the two sources that give them; [get_gear] is called with
    the first profile number found, and not at all when there is none). The
    activity feed itself never raises: a page whose call fails ends it with
    the activities of the pages before, which is no activity only when
    nothing was found before that page. *)
Theorem bootstrap_failures_contained year w r w' :
  1 <= year <= 9998 ->
  build_seed_context cl year w = (r, w') ->
  r <> OutOfFuel
  /\ (forall e, r = Raise e -> exists text, e = LocalError "TypeError" text)
  /\ (forall ctx, r = Ok ctx -> seed_steps year w ctx w')
  /\ (forall remaining page empty_pages found w0,
        exists more w0',
          fetch_activities_loop cl year remaining page empty_pages found w0
          = (Ok (found ++ more)%list, w0')
          /\ ((exists e w1, safe_call cl "get_activities" (page_request page) 1 w0
                            = (Raise e, w1))
              -> more = [])).
Proof.
  intros Hy H. destruct (build_seed_context_steps year w r w' Hy H) as (Hf & He & Hs).
  split; [done|]. split; [done|]. split; [done|].
  intros remaining page empty_pages found w0. apply fetch_activities_loop_total.
Qed.

End BootstrapFaults.

(** A service whose activity feed has one page and fails after it, and whose
    profile call fails unless [profile_ok]. *)
Definition march_run : json :=
  JDict [("activityId", JInt 7); ("startTimeLocal", JStr "2025-03-01 08:00:00")].

Definition partial_feed (profile_ok : bool) : client nat :=
  scripted (fun _ => true)
    (fun m kw n =>
       if String.eqb m "get_activities" then
         match dict_get "start" kw with
         | Some (JInt 0) => Returned (JList [march_run])
         | _ => Failed "500 Server Error"
         end
       else if String.eqb m "get_user_profile" then
         if profile_ok then Returned (JDict [("userProfileNumber", JInt 5)])
         else Failed "500 Server Error"
       else if String.eqb m "get_gear" then
         Returned (JList [JDict [("uuid", JStr "g1")]])
       else if String.eqb m "get_workouts" then Returned (JList [])
       else Returned (JDict [])).

Definition partial_run : res seed_context * world nat :=
  build_seed_context (partial_feed false) 2025 empty_world.
Definition partial_ctx : seed_context := ok_or plain_ctx partial_run.1.

Definition healthy_run : res seed_context * world nat :=
  build_seed_context (partial_feed true) 2025 empty_world.
Definition healthy_ctx : seed_context := ok_or plain_ctx healthy_run.1.

Lemma bootstrap_failures_contained_witness :
  Ok partial_ctx <> OutOfFuel
  /\ (forall e, Ok partial_ctx = Raise e -> exists text, e = LocalError "TypeError" text)
  /\ (forall ctx, Ok partial_ctx = Ok ctx ->
        seed_steps (partial_feed false) 2025 empty_world ctx partial_run.2)
  /\ (forall remaining page empty_pages found w0,
        exists more w0',
          fetch_activities_loop (partial_feed false) 2025 remaining page empty_pages
                                found w0
          = (Ok (found ++ more)%list, w0')
          /\ ((exists e w1, safe_call (partial_feed false) "get_activities"
                                      (page_request page) 1 w0
                            = (Raise e, w1))
              -> more = [])).
Proof.
  apply (bootstrap_failures_contained (partial_feed false) 2025 empty_world
           (Ok partial_ctx) partial_run.2).
  - lia.
  - vm_compute. reflexivity.
Defined.

(** The second page of the activity feed fails and the activity of the first
    page stays in the context; the profile call fails and the gear, which the
    service would return for a profile number, is not asked for. *)
Lemma failed_page_keeps_activities :
  (forall n, invoke (partial_feed false) "get_activities" (page_request 1) n
             = (Failed "500 Server Error", S n))
  /\ (forall kw n, invoke (partial_feed false) "get_user_profile" kw n
                   = (Failed "500 Server Error", S n))
  /\ w_calls partial_run.2
     = [("get_activities", page_request 0);
        ("get_activities", page_request 1); ("get_activities", page_request 1);
        ("get_workouts", [("start", JInt 0); ("limit", JInt 100)]);
        ("get_devices", []);
        ("get_user_profile", []); ("get_user_profile", []);
        ("get_device_last_used", []);
        ("get_training_plans", [])]
  /\ partial_run.1 = Ok partial_ctx
  /\ activity_ids partial_ctx = [JInt 7]
  /\ cached_method_data partial_ctx !! "get_activities" = Some (JList [march_run])
  /\ gear_uuids partial_ctx = []
  /\ healthy_run.1 = Ok healthy_ctx
  /\ gear_uuids healthy_ctx = [JStr "g1"].
Proof.
  split; [done|]. split; [done|].
  split; [vm_compute; reflexivity|].
  split; [vm_compute; reflexivity|].
  split; [vm_compute; reflexivity|].
  split; [vm_compute; reflexivity|].
  split; [vm_compute; reflexivity|].
  split; vm_compute; reflexivity.
Qed.

(** ** The calls and the writes of a year *)

(** Whatever [m] does, the calls that it adds satisfy [Pc] and the writes
    that it adds satisfy [Pw]. *)
Definition adds_only {C A} (Pc : string * kwargs -> Prop) (Pw : path * file -> Prop)
    (m : M C A) : Prop :=
  forall w r w', m w = (r, w') -> world_ext Pc Pw w w'.

Section AddsOnly.
Context {C : Type} (cl : client C).
Implicit Types (Pc : string * kwargs -> Prop) (Pw : path * file -> Prop).

Lemma adds_only_ret {A} Pc Pw (a : A) : adds_only (C := C) Pc Pw (mret a).
Proof. intros w r w' [= <- <-]. apply world_ext_refl. Qed.

Lemma adds_only_lift {A} Pc Pw (x : res A) : adds_only (C := C) Pc Pw (lift x).
Proof. intros w r w' [= <- <-]. apply world_ext_refl. Qed.

Lemma adds_only_bind {A B} Pc Pw (m : M C A) (k : A -> M C B) :
  adds_only Pc Pw m -> (forall a, adds_only Pc Pw (k a)) -> adds_only Pc Pw (m ≫= k).
Proof.
  intros Hm Hk w r w' H.
  apply bind_inv in H as [(a & w1 & Hs & H) | [(? & Hs & ?) | (Hs & ?)]];
    [|by eapply Hm..].
  eapply world_ext_trans; [by eapply Hm | by eapply Hk].
Qed.

Lemma adds_only_fmap {A B} Pc Pw (f : A -> B) (m : M C A) :
  adds_only Pc Pw m -> adds_only Pc Pw (f <$> m).
Proof.
  intros Hm w r w'. unfold fmap, M_fmap.
  destruct (m w) as [[a|e|] w1] eqn:Hs; intros [= <- <-]; by eapply Hm.
Qed.

Lemma adds_only_try {A} Pc Pw (body : M C A) (handler : exn -> M C A) :
  adds_only Pc Pw body -> (forall e, adds_only Pc Pw (handler e)) ->
  adds_only Pc Pw (try_except body handler).
Proof.
  intros Hb Hh w r w' H.
  apply try_except_inv in H as [[H _] | (e & w1 & Hs & H)]; [by eapply Hb|].
  eapply world_ext_trans; [by eapply Hb | by eapply Hh].
Qed.

Lemma adds_only_mono {A} Pc Pw (Qc : string * kwargs -> Prop)
    (Qw : path * file -> Prop) (m : M C A) :
  (forall c, Pc c -> Qc c) -> (forall x, Pw x -> Qw x) ->
  adds_only Pc Pw m -> adds_only Qc Qw m.
Proof. intros Hc Hw Hm w r w' H. eapply world_ext_mono; [exact Hc|exact Hw|by eapply Hm]. Qed.

Lemma adds_only_safe_call Pc Pw method kw retries :
  Pc (method, kw) -> adds_only Pc Pw (safe_call cl method kw retries).
Proof.
  intros HP w r w' H. apply safe_call_ext in H as (_ & _ & E).
  eapply world_ext_mono; [| |exact E]; [by intros ? ->|done].
Qed.

Lemma adds_only_clock Pc Pw : adds_only Pc Pw (clock cl).
Proof. intros w r w' H. by eapply world_ext_clock. Qed.

Lemma adds_only_write Pc Pw p f : Pw (p, f) -> adds_only (C := C) Pc Pw (write_json p f).
Proof. intros HP w r w' H. by eapply world_ext_write. Qed.

(** The methods that the construction of the seed context calls. *)
Definition BOOTSTRAP_METHODS : list string :=
  ["get_activities"; "get_workouts"; "get_devices"; "get_user_profile";
   "get_device_last_used"; "get_gear"; "get_training_plans"].

Definition bootstrap_call (c : string * kwargs) : Prop :=
  Str.mem c.1 BOOTSTRAP_METHODS = true.

Lemma adds_only_fetch_activities Pw year remaining page empty_pages activities :
  adds_only bootstrap_call Pw
    (fetch_activities_loop cl year remaining page empty_pages activities).
Proof.
  revert page empty_pages activities.
  induction remaining as [|n IH]; intros page ep acts; [apply adds_only_ret|].
  cbn [fetch_activities_loop]. apply adds_only_bind.
  - apply adds_only_try; [|intros; apply adds_only_ret].
    apply adds_only_bind; [by apply adds_only_safe_call|intros; apply adds_only_ret].
  - intros [[v t]|e]; [|apply adds_only_ret].
    assert (Hempty : adds_only bootstrap_call Pw
      (if 2 <=? ep + 1 then mret acts
       else fetch_activities_loop cl year n (page + 1) (ep + 1) acts)).
    { destruct (2 <=? ep + 1); [apply adds_only_ret|apply IH]. }
    destruct v as [| | | |l|]; try exact Hempty.
    destruct l as [|act batch]; [exact Hempty|].
    destruct (scan_batch year (act :: batch)) as [hits has_older].
    destruct (match hits with [] => has_older | _ => false end);
      [apply adds_only_ret|apply IH].
Qed.

Lemma adds_only_fetch_workouts Pw remaining start workouts :
  adds_only bootstrap_call Pw (fetch_workouts_loop cl remaining start workouts).
Proof.
  revert start workouts.
  induction remaining as [|n IH]; intros start wk; [apply adds_only_ret|].
  cbn [fetch_workouts_loop]. apply adds_only_bind; [by apply adds_only_safe_call|].
  intros [payload t]. destruct (extract_items payload) as [|i items];
    [apply adds_only_ret|].
  destruct (Z.of_nat (length (i :: items)) <? 100); [apply adds_only_ret|apply IH].
Qed.

Lemma adds_only_fetch_activities_for_year Pw year :
  adds_only bootstrap_call Pw (fetch_activities_for_year cl year).
Proof. apply adds_only_fetch_activities. Qed.

Lemma adds_only_fetch_all_workouts Pw :
  adds_only bootstrap_call Pw (fetch_all_workouts cl).
Proof. apply adds_only_fetch_workouts. Qed.

Ltac adds_only_step :=
  cbv beta zeta;
  first
    [ apply adds_only_ret
    | apply adds_only_lift
    | apply adds_only_fetch_activities_for_year
    | apply adds_only_fetch_all_workouts
    | apply adds_only_safe_call; reflexivity
    | apply adds_only_fmap
    | apply adds_only_try; [|intros ?]
    | apply adds_only_bind; [|intros ?]
    | match goal with
      | |- adds_only _ _ (match ?p with (_, _) => _ end) => destruct p
      end ].

(** The construction of the seed context calls bootstrap methods only, and
    writes nothing. *)
Lemma adds_only_build_seed_context Pw year :
  adds_only bootstrap_call Pw (build_seed_context cl year).
Proof.
  unfold build_seed_context, call_or.
  do 8 (apply adds_only_bind; [repeat adds_only_step|intros ?]; cbv beta zeta).
  apply adds_only_bind.
  { match goal with |- adds_only _ _ (match ?l with _ => _ end) => destruct l end;
      repeat adds_only_step. }
  intros gears. repeat adds_only_step.
Qed.

Lemma adds_only_execute spec ctx incl out existing :
  adds_only (fun c => c.1 = ms_method spec) (snapshot_of out (fun _ => True))
            (execute_method_for_year cl spec ctx incl out existing).
Proof.
  intros w r w' H. apply execute_method_inv in H.
  remember (start_envelope spec ctx existing) as e0 eqn:He0. clear He0.
  set (I := fun _ : envelope => True).
  destruct H as [(cached & _ & _ & Hw & _) | (_ & [[_ Hp] | [_ Hp]])].
  - by eapply (maybe_write_ext _ I) in Hw as [_ E].
  - destruct Hp as (r1 & Hl & _).
    destruct (paged_loop_inv cl I (ms_method spec)
                (paged_extra (ms_method spec)) 100 out (Z.max 0 (resume_cursor e0))
                ltac:(lia) (fun s response took x _ Hx => Hx)
                (fun s text took x _ Hx => Hx)
                _ _ _ _ _ _ _ (Z.le_refl _)
                (paged_fuel_enough _ 100 ltac:(lia)) Hl Logic.I)
      as (el & e1 & _ & _ & E).
    eapply world_ext_mono; [| |exact E]; [by intros c [? _]|done].
  - unfold planned_run in Hp.
    destruct (build_calls_for_method _ _ _ ctx incl) as [[plan reason]|?|] eqn:Hb;
      [|destruct Hp as [_ ->]; apply world_ext_refl..].
    assert (Hrun :
      (exists r1, run_pending cl (ms_method spec) out (pending_of e0 plan) e0 w = (r1, w')
                  /\ r = e1 ← r1; mret (set_status (final_status (env_stats e1)) e1))
      -> world_ext (fun c => c.1 = ms_method spec) (snapshot_of out I) w w').
    { intros (r1 & Hrp & _).
      eapply (run_pending_inv cl I) in Hrp as (e1 & _ & _ & E); try done.
      eapply world_ext_mono; [| |exact E]; [by intros c [? _]|done]. }
    destruct plan as [|kw plan]; [destruct reason as [reason|]|]; try by apply Hrun.
    destruct Hp as [Hw _]. by eapply (maybe_write_ext _ I) in Hw as [_ E].
Qed.

Lemma adds_only_path_exists Pc Pw p : adds_only (C := C) Pc Pw (path_exists p).
Proof. intros w r w' [= <- <-]. apply world_ext_refl. Qed.

Lemma adds_only_read Pc Pw p : adds_only (C := C) Pc Pw (read_json_if_exists p).
Proof. intros w r w' [= <- <-]. apply world_ext_refl. Qed.

Lemma adds_only_run_and_write spec ctx incl out existing :
  adds_only (fun c => c.1 = ms_method spec) (fun x => x.1 = out)
            (run_and_write cl spec ctx incl out existing).
Proof.
  unfold run_and_write.
  apply adds_only_bind; [apply adds_only_clock|intros _].
  apply adds_only_bind.
  { eapply adds_only_mono; [| |apply adds_only_execute]; [done|].
    intros x (p & e & -> & [= ->] & _). done. }
  intros e. apply adds_only_bind; [by apply adds_only_write|intros _].
  apply adds_only_bind; [apply adds_only_clock|intros _]. apply adds_only_ret.
Qed.

Lemma adds_only_method_envelope year ctx overwrite incl spec :
  adds_only (fun c => c.1 = ms_method spec) (fun x => x.1 = output_file_of year spec)
            (method_envelope cl year ctx overwrite incl spec).
Proof.
  unfold method_envelope. apply adds_only_try.
  - apply adds_only_bind; [apply adds_only_path_exists|intros present].
    destruct (present && negb overwrite); [|apply adds_only_run_and_write].
    apply adds_only_bind; [apply adds_only_read|intros [e|]];
      [|apply adds_only_run_and_write].
    destruct (is_done e); [apply adds_only_ret|apply adds_only_run_and_write].
  - intros exc. cbv beta zeta.
    apply adds_only_bind; [by apply adds_only_write|intros _]. apply adds_only_ret.
Qed.

Definition excluded (method : string) : bool := Str.mem method EXCLUDED_METHODS.

(** A write of the run of the year: an envelope of a method that is not
    excluded, or the manifest. *)
Definition year_write (year : Z) (x : path * file) : Prop :=
  match x.1 with
  | EnvelopePath y _ method => y = year /\ excluded method = false
  | ManifestPath y => y = year
  end.

Lemma bootstrap_not_excluded c : bootstrap_call c -> excluded c.1 = false.
Proof.
  unfold bootstrap_call, BOOTSTRAP_METHODS, Str.mem. cbn [existsb].
  intros H. repeat (apply orb_true_iff in H as [H|H];
                    [apply String.eqb_eq in H; by rewrite H|]).
  done.
Qed.

Lemma adds_only_run_methods year ctx overwrite incl specs :
  Forall (fun ix : nat * method_spec => excluded (ms_method ix.2) = false) specs ->
  adds_only (fun c => excluded c.1 = false) (year_write year)
            (run_methods cl year ctx overwrite incl specs).
Proof.
  induction specs as [|[i spec] specs IH]; intros Hall; [apply adds_only_ret|].
  apply Forall_cons in Hall as [Hx Hall]. cbn [snd] in Hx.
  cbn [run_methods]. apply adds_only_bind.
  - unfold run_method. apply adds_only_bind; [|intros; apply adds_only_ret].
    eapply adds_only_mono; [| |apply adds_only_method_envelope].
    + intros c Hc. cbn beta in Hc. by rewrite Hc.
    + intros x Hp. unfold year_write. cbn beta in Hp. rewrite Hp. done.
  - intros item. apply adds_only_bind; [by apply IH|intros; apply adds_only_ret].
Qed.

Lemma run_methods_items year ctx overwrite incl specs w items w' :
  run_methods cl year ctx overwrite incl specs w = (Ok items, w') ->
  Forall2 (fun (item : manifest_item) (ix : nat * method_spec) =>
             mi_method item = ms_method ix.2
             /\ mi_output_file item = output_file_of year ix.2)
          items specs.
Proof.
  revert w items. induction specs as [|[i spec] specs IH]; intros w items.
  - intros [= <-]. constructor.
  - cbn [run_methods]. intros H.
    apply bind_inv in H as [(item & w1 & Hi & H) | [(? & ? & ?) | (? & ?)]]; [|done..].
    apply bind_inv in H as [(rest & w2 & Hr & H) | [(? & ? & ?) | (? & ?)]]; [|done..].
    injection H as <- <-. constructor; [|by eapply IH].
    unfold run_method in Hi.
    apply bind_inv in Hi as [(e & w3 & _ & Hi) | [(? & ? & ?) | (? & ?)]]; [|done..].
    by injection Hi as <- <-.
Qed.

Lemma indexed_specs_scheduled sections methods :
  Forall (fun ix : nat * method_spec => excluded (ms_method ix.2) = false)
         (indexed_specs sections methods).
Proof.
  unfold indexed_specs. apply Forall_forall. intros ix Hix.
  apply list_elem_of_filter in Hix as [Hs _]. unfold scheduled in Hs.
  apply Is_true_true, andb_true_iff in Hs as [_ Hs]. by apply negb_true_iff in Hs.
Qed.

(** The specs that are run are those of the feed, in its order, that pass
    the section filter and are not excluded. *)
Lemma indexed_specs_feed sections methods :
  snd <$> indexed_specs sections methods = filter (scheduled sections) methods.
Proof.
  unfold indexed_specs.
  assert (Hf : forall g : nat -> method_spec -> nat * method_spec,
             (forall k s, (g k s).2 = s) ->
             snd <$> filter (fun ix => scheduled sections ix.2) (imap g methods)
             = filter (scheduled sections) methods).
  { induction methods as [|spec methods IH]; intros g Hg; [done|].
    rewrite imap_cons, !filter_cons, Hg.
    destruct (decide (scheduled sections spec)).
    - rewrite fmap_cons, Hg. f_equal. apply IH. intros ? ?. apply Hg.
    - apply IH. intros ? ?. apply Hg. }
  by apply Hf.
Qed.

Lemma adds_only_collect methods year overwrite incl sections :
  adds_only (fun c => excluded c.1 = false) (year_write year)
            (collect_year_data cl methods year overwrite incl sections).
Proof.
  unfold collect_year_data. apply adds_only_bind.
  { destruct overwrite; [|apply adds_only_ret].
    intros w r w' [= <- <-]. by apply world_ext_same. }
  intros _. apply adds_only_bind.
  { eapply adds_only_mono; [| |apply (adds_only_build_seed_context (year_write year))];
      [apply bootstrap_not_excluded|done]. }
  intros ctx. cbv beta zeta. apply adds_only_bind.
  { apply adds_only_run_methods, indexed_specs_scheduled. }
  intros items. apply adds_only_bind; [by apply adds_only_write|intros _].
  apply adds_only_ret.
Qed.

(** C10. Whatever a run of the year does, every remote call that it adds is
    of a method that is not excluded, and every file that it writes is the
    manifest of the year or the envelope of a method that is not excluded.
    The specs that are run are those of the feed, in its order, that pass the
    section filter and are not excluded: a spec of the feed with an excluded
    method is not among them. When the run returns, it returns the path of
    the manifest, which is in the files; the manifest lists one item for each
    spec that was run, in that order, under the method and the output file of
    the spec, and [total_methods] is their number. *)
Theorem excluded_methods_omitted methods year overwrite incl sections w r w' :
  collect_year_data cl methods year overwrite incl sections w = (r, w') ->
  world_ext (fun c => excluded c.1 = false) (year_write year) w w'
  /\ (forall spec, spec ∈ methods -> excluded (ms_method spec) = true ->
        spec ∉ filter (scheduled sections) methods)
  /\ (forall p, r = Ok p ->
        p = ManifestPath year
        /\ exists m,
             w_files w' !! ManifestPath year = Some (FManifest m)
             /\ mf_total_methods m = length (filter (scheduled sections) methods)
             /\ Forall2 (fun (item : manifest_item) (spec : method_spec) =>
                           mi_method item = ms_method spec
                           /\ mi_output_file item = output_file_of year spec
                           /\ excluded (mi_method item) = false)
                        (mf_methods m) (filter (scheduled sections) methods)).
Proof.
  intros H. split; [by eapply adds_only_collect|]. split.
  { intros spec _ Hx Hin. apply list_elem_of_filter in Hin as [Hs _].
    unfold scheduled in Hs. apply Is_true_true, andb_true_iff in Hs as [_ Hs].
    apply negb_true_iff in Hs. unfold excluded in Hx. congruence. }
  intros p ->. unfold collect_year_data in H.
  apply bind_inv in H as [(? & w1 & _ & H) | [(? & ? & ?) | (? & ?)]]; [|done..].
  apply bind_inv in H as [(ctx & w2 & _ & H) | [(? & ? & ?) | (? & ?)]]; [|done..].
  cbv beta zeta in H.
  apply bind_inv in H as [(items & w3 & Hi & H) | [(? & ? & ?) | (? & ?)]]; [|done..].
  apply run_methods_items in Hi.
  apply bind_inv in H as [(? & w4 & Hw & H) | [(? & ? & ?) | (? & ?)]]; [|done..].
  injection H as <- <-. split; [done|].
  unfold write_json in Hw. injection Hw as _ <-. cbn [w_files].
  eexists. split; [apply lookup_insert_eq|]. cbn [mf_total_methods mf_methods].
  rewrite <- indexed_specs_feed. split.
  - rewrite length_fmap. by eapply Forall2_length.
  - apply Forall2_fmap_r.
    pose proof (indexed_specs_scheduled sections methods) as Hall.
    revert Hi Hall. generalize (indexed_specs sections methods). intros specs Hi.
    induction Hi as [|item ix items specs [Hm Ho] Hi IH]; intros Hall; [constructor|].
    apply Forall_cons in Hall as [Hx Hall]. constructor; [|by apply IH].
    rewrite Hm. done.
Qed.

End AddsOnly.

(** A feed with an excluded method. *)
Definition stats_spec : method_spec :=
  mk_spec "Daily Health & Activity" "daily_health_activity" "get_stats" "get_stats(cdate)".

Lemma excluded_methods_omitted_witness :
  exists r w',
    collect_year_data late_devices [stats_spec; devices_spec] 2025 false true None
                      empty_world = (r, w')
    /\ world_ext (fun c => excluded c.1 = false) (year_write 2025) empty_world w'
    /\ (forall spec, spec ∈ [stats_spec; devices_spec] ->
          excluded (ms_method spec) = true ->
          spec ∉ filter (scheduled None) [stats_spec; devices_spec])
    /\ (forall p, r = Ok p ->
          p = ManifestPath 2025
          /\ exists m,
               w_files w' !! ManifestPath 2025 = Some (FManifest m)
               /\ mf_total_methods m
                  = length (filter (scheduled None) [stats_spec; devices_spec])
               /\ Forall2 (fun (item : manifest_item) (spec : method_spec) =>
                             mi_method item = ms_method spec
                             /\ mi_output_file item = output_file_of 2025 spec
                             /\ excluded (mi_method item) = false)
                          (mf_methods m)
                          (filter (scheduled None) [stats_spec; devices_spec])).
Proof.
  eexists _, _. split; [vm_compute; reflexivity|].
  apply (excluded_methods_omitted late_devices [stats_spec; devices_spec] 2025 false true
           None empty_world).
  vm_compute. reflexivity.
Defined.

(** A method that a first run leaves in [success]. *)
Definition name_spec : method_spec :=
  mk_spec "User & Profile" "user_profile" "get_full_name" "get_full_name()".

Lemma run_method_idempotent_witness :
  exists item w1,
    run_method late_devices 2025 plain_ctx false true name_spec empty_world
    = (Ok item, w1)
    /\ mi_status item = success
    /\ run_method late_devices 2025 plain_ctx false true name_spec w1 = (Ok item, w1).
Proof.
  eexists _, _. split; [vm_compute; reflexivity|]. split; [reflexivity|].
  apply (proj2 (run_method_idempotent late_devices 2025 plain_ctx true name_spec)
           false empty_world).
  - vm_compute. reflexivity.
  - left. reflexivity.
Defined.

(** ** The classification on signatures of the feed *)

Example classify_noarg :
  classify_call_type "get_full_name" "get_full_name()" = noarg.
Proof. reflexivity. Qed.
Example classify_daily :
  classify_call_type "get_sleep_data" "get_sleep_data(cdate)" = daily.
Proof. reflexivity. Qed.
Example classify_date_range :
  classify_call_type "get_blood_pressure" "get_blood_pressure(startdate, enddate=None)"
  = date_range.
Proof. reflexivity. Qed.
Example classify_paged :
  classify_call_type "get_activities" "get_activities(start=0, limit=20, activitytype=None)"
  = paged.
Proof. reflexivity. Qed.
Example classify_id_based :
  classify_call_type "get_activity" "get_activity(activity_id)" = id_based.
Proof. reflexivity. Qed.
Example classify_download :
  classify_call_type "download_activity"
    "download_activity(activity_id, dl_fmt=ActivityDownloadFormat.TCX)" = download.
Proof. reflexivity. Qed.
Example classify_weekly :
  classify_call_type "get_weekly_steps" "get_weekly_steps(end, weeks=52)" = weekly.
Proof. reflexivity. Qed.
Example classify_special :
  classify_call_type "get_lactate_threshold"
    "get_lactate_threshold(latest=True, start_date=None, end_date=None, aggregation='daily')"
  = special.
Proof. reflexivity. Qed.
Example params_example :
  parse_signature_params "f( a , b = 1,, c=None )" = ["a"; "b"; "c"].
Proof. reflexivity. Qed.

Example classify_body_battery :
  classify_call_type "get_body_battery" "get_body_battery(startdate, enddate=None)"
  = date_range.
Proof. reflexivity. Qed.

(* ================================================================= *)
(** * Further properties of the code *)

(** ** The counters of the manifest *)

#[global] Instance status_eq_dec : EqDecision status.
Proof. solve_decision. Defined.

(** How many items of the manifest have the status [st]. *)
Definition count_of (st : status) (items : list manifest_item) : nat :=
  length (filter (fun item => mi_status item = st) items).

Lemma count_status_foldl items c :
  let c' := foldl (fun c item => count_status (mi_status item) c) c items in
  n_success c' = (n_success c + count_of success items)%nat
  /\ n_partial c' = (n_partial c + count_of partial items)%nat
  /\ n_failed c' = (n_failed c + count_of failed items)%nat
  /\ n_skipped c' = (n_skipped c + count_of skipped items)%nat
  /\ n_pending c' = (n_pending c + count_of pending items)%nat.
Proof.
  revert c. induction items as [|item items IH]; intros c.
  - unfold count_of. cbn. lia.
  - cbn [foldl]. destruct (IH (count_status (mi_status item) c)) as (H1 & H2 & H3 & H4 & H5).
    cbv zeta. rewrite H1, H2, H3, H4, H5. unfold count_of. rewrite !filter_cons.
    destruct (mi_status item); repeat (case_decide; try done); cbn; lia.
Qed.

Lemma count_of_total items :
  (count_of success items + count_of partial items + count_of failed items
   + count_of skipped items + count_of pending items = length items)%nat.
Proof.
  unfold count_of. induction items as [|item items IH]; [done|].
  rewrite !filter_cons.
  destruct (mi_status item); repeat (case_decide; try done); cbn; lia.
Qed.

Lemma count_of_none st items :
  Forall (fun item => mi_status item <> st) items -> count_of st items = O.
Proof.
  unfold count_of. induction 1 as [|item items Hx Hi IH]; [done|].
  rewrite filter_cons. by destruct (decide (mi_status item = st)).
Qed.

Section ManifestCounts.
Context {C : Type} (cl : client C).

Lemma execute_method_status spec ctx incl out existing w e w' :
  execute_method_for_year cl spec ctx incl out existing w = (Ok e, w') ->
  env_status e <> pending.
Proof.
  intros H. apply execute_method_inv in H.
  destruct H as [(cached & _ & _ & _ & He) | (_ & [[_ Hp] | [_ Hp]])].
  - by injection He as ->.
  - destruct Hp as (r1 & _ & Hr). destruct r1 as [[el e1]|?|]; [|done..].
    injection Hr as ->. cbn [set_status env_status]. unfold final_status_paged.
    by repeat case_match.
  - unfold planned_run in Hp.
    destruct (build_calls_for_method _ _ _ ctx incl) as [[plan reason]|?|] eqn:Hb;
      [|by destruct Hp..].
    assert (Hrun :
      (exists r1,
          run_pending cl (ms_method spec) out
            (pending_of (start_envelope spec ctx existing) plan)
            (start_envelope spec ctx existing) w = (r1, w')
          /\ Ok e = e1 ← r1; mret (set_status (final_status (env_stats e1)) e1))
      -> env_status e <> pending).
    { intros (r1 & _ & Hr). destruct r1 as [e1|?|]; [|done..].
      injection Hr as ->. cbn [set_status env_status]. unfold final_status.
      by repeat case_match. }
    destruct plan as [|kw plan]; [destruct reason as [reason|]|]; try by apply Hrun.
    destruct Hp as [_ He]. by injection He as ->.
Qed.

Lemma method_envelope_status year ctx overwrite incl spec w e w' :
  method_envelope cl year ctx overwrite incl spec w = (Ok e, w') ->
  env_status e <> pending.
Proof.
  assert (Hrw : forall out existing w0 e0 w1,
    run_and_write cl spec ctx incl out existing w0 = (Ok e0, w1) ->
    env_status e0 <> pending).
  { intros out existing w0 e0 w1 H. unfold run_and_write in H.
    apply bind_inv in H as [(? & ? & _ & H) | [(? & ? & ?) | (? & ?)]]; [|done..].
    apply bind_inv in H as [(e1 & ? & He & H) | [(? & ? & ?) | (? & ?)]]; [|done..].
    apply bind_inv in H as [(? & ? & _ & H) | [(? & ? & ?) | (? & ?)]]; [|done..].
    apply bind_inv in H as [(? & ? & _ & H) | [(? & ? & ?) | (? & ?)]]; [|done..].
    injection H as <- <-. by eapply execute_method_status. }
  unfold method_envelope. intros H.
  apply try_except_inv in H as [[H _] | (exc & w1 & _ & H)].
  - unfold mbind at 1, M_bind at 1, path_exists in H.
    destruct (bool_decide _ && negb overwrite) eqn:Hp; [|by eapply Hrw].
    unfold mbind at 1, M_bind at 1, read_json_if_exists in H.
    destruct (w_files w !! output_file_of year spec) as [[e0| |]|] eqn:Hf;
      try by eapply Hrw.
    destruct (is_done e0) eqn:Hd; [|by eapply Hrw].
    injection H as <- <-. unfold is_done in Hd. by destruct (env_status e0).
  - unfold mbind, M_bind, write_json in H. by injection H as <- <-.
Qed.

Lemma run_methods_status year ctx overwrite incl specs w items w' :
  run_methods cl year ctx overwrite incl specs w = (Ok items, w') ->
  Forall (fun item => mi_status item <> pending) items.
Proof.
  revert w items. induction specs as [|[i spec] specs IH]; intros w items.
  - intros [= <-]. constructor.
  - cbn [run_methods]. intros H.
    apply bind_inv in H as [(item & w1 & Hi & H) | [(? & ? & ?) | (? & ?)]]; [|done..].
    apply bind_inv in H as [(rest & w2 & Hr & H) | [(? & ? & ?) | (? & ?)]]; [|done..].
    injection H as <- <-. constructor; [|by eapply IH].
    unfold run_method in Hi.
    apply bind_inv in Hi as [(e & w3 & He & Hi) | [(? & ? & ?) | (? & ?)]]; [|done..].
    injection Hi as <- <-. cbn. by eapply method_envelope_status.
Qed.

(** The manifest of a year counts every listed method once, under its
    status, and none is left [pending]: the five counters are the numbers of
    items of each status, [pending] is 0, and the other four add up to
    [total_methods]. *)
Theorem manifest_counts_add_up methods year overwrite incl sections w p w' :
  collect_year_data cl methods year overwrite incl sections w = (Ok p, w') ->
  exists m,
    w_files w' !! p = Some (FManifest m)
    /\ mf_total_methods m = length (mf_methods m)
    /\ n_success (mf_status_counts m) = count_of success (mf_methods m)
    /\ n_partial (mf_status_counts m) = count_of partial (mf_methods m)
    /\ n_failed (mf_status_counts m) = count_of failed (mf_methods m)
    /\ n_skipped (mf_status_counts m) = count_of skipped (mf_methods m)
    /\ n_pending (mf_status_counts m) = O
    /\ (n_success (mf_status_counts m) + n_partial (mf_status_counts m)
        + n_failed (mf_status_counts m) + n_skipped (mf_status_counts m)
        = mf_total_methods m)%nat.
Proof.
  intros H. unfold collect_year_data in H.
  apply bind_inv in H as [(? & w1 & _ & H) | [(? & ? & ?) | (? & ?)]]; [|done..].
  apply bind_inv in H as [(ctx & w2 & _ & H) | [(? & ? & ?) | (? & ?)]]; [|done..].
  cbv beta zeta in H.
  apply bind_inv in H as [(items & w3 & Hi & H) | [(? & ? & ?) | (? & ?)]]; [|done..].
  apply run_methods_status in Hi.
  apply bind_inv in H as [(? & w4 & Hw & H) | [(? & ? & ?) | (? & ?)]]; [|done..].
  injection H as <- <-. unfold write_json in Hw. injection Hw as _ <-. cbn [w_files].
  eexists. split; [apply lookup_insert_eq|].
  cbn [mf_total_methods mf_methods mf_status_counts].
  destruct (count_status_foldl items (mk_counts 0 0 0 0 0)) as (H1 & H2 & H3 & H4 & H5).
  cbv zeta in H1, H2, H3, H4, H5. cbn [n_success n_partial n_failed n_skipped n_pending] in *.
  pose proof (count_of_none pending items Hi) as H0.
  pose proof (count_of_total items) as Ht.
  rewrite H1, H2, H3, H4, H5, H0. repeat split; try done. lia.
Qed.

End ManifestCounts.

Definition three_methods_run : res path * world nat :=
  collect_year_data late_devices [stats_spec; devices_spec; name_spec] 2025 false true
                    None empty_world.

Lemma manifest_counts_add_up_witness :
  exists m,
    w_files three_methods_run.2 !! ManifestPath 2025 = Some (FManifest m)
    /\ mf_total_methods m = length (mf_methods m)
    /\ n_success (mf_status_counts m) = count_of success (mf_methods m)
    /\ n_partial (mf_status_counts m) = count_of partial (mf_methods m)
    /\ n_failed (mf_status_counts m) = count_of failed (mf_methods m)
    /\ n_skipped (mf_status_counts m) = count_of skipped (mf_methods m)
    /\ n_pending (mf_status_counts m) = O
    /\ (n_success (mf_status_counts m) + n_partial (mf_status_counts m)
        + n_failed (mf_status_counts m) + n_skipped (mf_status_counts m)
        = mf_total_methods m)%nat.
Proof.
  apply (manifest_counts_add_up late_devices [stats_spec; devices_spec; name_spec]
           2025 false true None empty_world (ManifestPath 2025) three_methods_run.2).
  vm_compute. reflexivity.
Defined.

(** ** Stored responses *)

(** A payload made of [None], booleans, integers, strings, lists and dicts
    with string keys is stored as it was returned. *)
Theorem serialize_response_data_id (v : json) : serialize_response_data v = v.
Proof.
  revert v. fix IH 1. intros [| b | z | s | l | d]; cbn [serialize_response_data];
    try reflexivity.
  - f_equal. induction l as [|x l IHl]; [reflexivity|].
    cbn [map]. rewrite IH, IHl. reflexivity.
  - f_equal. induction d as [|[k x] d IHd]; [reflexivity|].
    cbn [map]. rewrite IH, IHd. reflexivity.
Qed.

(** ** The planner on the call type of the classifier *)

Lemma classify_date_range_params method signature :
  classify_call_type method signature = date_range ->
  let params := parse_signature_params signature in
  Str.mem "startdate" params || Str.mem "enddate" params
  || Str.mem "start_date" params || Str.mem "end_date" params = true.
Proof. unfold classify_call_type. repeat case_match; try done. Qed.

Lemma classify_id_based_params method signature :
  classify_call_type method signature = id_based ->
  existsb (fun p => Str.mem p (parse_signature_params signature))
          (map fst ID_PARAM_TO_SEED_KEY) = true.
Proof. unfold classify_call_type. repeat case_match; try done. Qed.

Lemma classify_supported method signature :
  classify_call_type method signature <> unsupported.
Proof. unfold classify_call_type. repeat case_match; try done. Qed.

Lemma first_id_param_found params :
  existsb (fun p => Str.mem p params) (map fst ID_PARAM_TO_SEED_KEY) = true ->
  exists param seed_key,
    first_id_param ID_PARAM_TO_SEED_KEY params = Some (param, seed_key)
    /\ (param, seed_key) ∈ ID_PARAM_TO_SEED_KEY.
Proof.
  unfold ID_PARAM_TO_SEED_KEY. cbn [map fst existsb first_id_param].
  intros H.
  repeat match goal with
         | |- context [if Str.mem ?p params then _ else _] =>
             destruct (Str.mem p params) eqn:?;
             [eexists _, _; split; [reflexivity|]; set_solver|]
         end.
  done.
Qed.

Lemma missing_seed_text seed_key reason :
  String.get 0 reason <> Some "m"%char -> "missing_seed:" +:+ seed_key <> reason.
Proof. intros Hr <-. by apply Hr. Qed.

(** A skip reason comes with an empty plan. *)
Lemma build_calls_reason_empty method signature ct ctx incl plan reason :
  build_calls_for_method method signature ct ctx incl = Ok (plan, Some reason) ->
  plan = [].
Proof.
  unfold build_calls_for_method, mbind, res_bind.
  destruct ct; repeat case_match; try done; by intros [= <- <-].
Qed.

Lemma range_kwargs_nonempty (b1 b2 b3 b4 both : bool) (s e : json) :
  b1 || b2 || b3 || b4 = true ->
  set_if both "end" e
    (set_if both "start" s
       (set_if b4 "end_date" e
          (set_if b3 "start_date" s
             (set_if b2 "enddate" e (set_if b1 "startdate" s []))))) <> [].
Proof. destruct b1, b2, b3, b4, both; try done; intros _; vm_compute; done. Qed.

Lemma chunk_loop_raise fuel current end_dt max_days e :
  chunk_loop fuel current end_dt max_days = Raise e ->
  exists text, e = LocalError "OverflowError" text.
Proof.
  revert current. induction fuel as [|fuel IH]; intros current; [done|].
  cbn [chunk_loop]. destruct (date_leb current end_dt); [|done].
  unfold add_days. unfold mbind at 1, res_bind at 1.
  destruct (d_year (Nat.iter _ next_day current) <=? 9999); [|intros [= <-]; eauto].
  unfold mbind at 1, res_bind at 1.
  destruct (d_year (Nat.iter 1 next_day _) <=? 9999); [|intros [= <-]; eauto].
  unfold mbind, res_bind.
  destruct (chunk_loop fuel _ end_dt max_days) eqn:Hl; [done| |done].
  intros [= <-]. by eapply IH.
Qed.

Lemma strptime_raise s e :
  strptime_ymd s = Raise e ->
  exists text, e = LocalError "ValueError" text \/ e = LocalError "OverflowError" text.
Proof.
  unfold strptime_ymd, date_new. repeat case_match; try done; intros [= <-]; eauto.
Qed.

Lemma chunk_date_range_raise s e max_days x :
  chunk_date_range s e max_days = Raise x ->
  exists text, x = LocalError "ValueError" text \/ x = LocalError "OverflowError" text.
Proof.
  unfold chunk_date_range, mbind, res_bind.
  destruct (strptime_ymd s) as [start_dt|?|] eqn:Hs;
    [|intros [= <-]; by apply strptime_raise in Hs|done].
  destruct (strptime_ymd e) as [end_dt|?|] eqn:He;
    [|intros [= <-]; by apply strptime_raise in He|done].
  destruct (max_days <=? 0).
  { destruct (date_leb start_dt end_dt); [|done].
    destruct (_ || _); [|done]. intros [= <-]. eauto. }
  destruct (chunk_loop _ start_dt end_dt max_days) eqn:Hl; [done| |done].
  intros [= <-]. apply chunk_loop_raise in Hl as [? ->]. eauto.
Qed.

(** On the call type that the classifier gives to a method, the fallback
    answers of the planner are never given: it does not answer
    [unsupported_call_type] or [date_range_unresolved], it answers
    [id_param_not_mapped] only for a [download] method, and it does not raise
    the [IndexError] of a [daily] method without parameters. *)
Theorem classified_plan_reasons method signature ctx incl :
  (forall plan reason,
      build_calls_for_method method signature (classify_call_type method signature)
                             ctx incl = Ok (plan, Some reason) ->
      reason <> "unsupported_call_type"
      /\ reason <> "date_range_unresolved"
      /\ (reason = "id_param_not_mapped"
          -> classify_call_type method signature = download))
  /\ (forall text,
        build_calls_for_method method signature (classify_call_type method signature)
                               ctx incl <> Raise (LocalError "IndexError" text)).
Proof.
  pose proof (classify_supported method signature) as Hsup.
  destruct (classify_call_type method signature) eqn:Hct; [| | | | | | | |done].
  - (* noarg *) split; [intros plan reason [=]|done].
  - (* daily *)
    apply daily_has_date_param in Hct. unfold build_calls_for_method, mbind, res_bind.
    destruct (Str.mem "cdate" _); [split; [intros ? ? [=]|done]|].
    cbn [orb] in Hct. rewrite Hct. split; [intros ? ? [=]|done].
  - (* date_range *)
    apply classify_date_range_params in Hct. cbv zeta in Hct.
    unfold build_calls_for_method.
    pose proof (range_kwargs_nonempty _ _ _ _
                  (Str.mem "start" (parse_signature_params signature)
                   && Str.mem "end" (parse_signature_params signature))
                  (JStr (ctx_start_date ctx)) (JStr (ctx_end_date ctx)) Hct) as Hne.
    cbv zeta.
    destruct (set_if _ "end" _ _) as [|kv kw5] eqn:Hkw; [done|].
    assert (Hone : forall T : res (list kwargs * option string),
      T = Ok ([kv :: kw5], None) ->
      (forall plan reason, T = Ok (plan, Some reason) ->
         reason <> "unsupported_call_type" /\ reason <> "date_range_unresolved"
         /\ (reason = "id_param_not_mapped" -> date_range = download))
      /\ forall text, T <> Raise (LocalError "IndexError" text)).
    { intros T ->. split; [intros ? ? [=]|done]. }
    destruct (String.eqb method "get_body_battery"); [|by apply Hone].
    destruct (dict_get "startdate" (kv :: kw5)) as [[| | |s| |]|]; try by apply Hone.
    destruct (dict_get "enddate" (kv :: kw5)) as [[| | |e| |]|]; try by apply Hone.
    unfold mbind, res_bind.
    destruct (chunk_date_range s e 31) as [chunks|x|] eqn:Hc.
    + split; [intros ? ? [=]|done].
    + split; [done|]. intros text [= ->].
      apply chunk_date_range_raise in Hc as (? & [[=]|[=]]).
    + split; done.
  - (* weekly *) split; [intros plan reason [=]|done].
  - (* paged *) split; [intros plan reason [=]|done].
  - (* id_based *)
    apply classify_id_based_params, first_id_param_found in Hct
      as (param & seed_key & Hf & _).
    unfold build_calls_for_method. rewrite Hf.
    destruct (ctx_get seed_key ctx); [|split; [intros ? ? [=]|done]].
    split; [|done]. intros plan reason [= <- <-].
    split; [by apply missing_seed_text|]. split; [by apply missing_seed_text|].
    intros H. by apply missing_seed_text in H.
  - (* download *)
    unfold build_calls_for_method. destruct (negb incl).
    { split; [|done]. by intros plan reason [= <- <-]. }
    destruct (first_id_param _ _) as [[param seed_key]|].
    + destruct (ctx_get seed_key ctx); [|split; [intros ? ? [=]|done]].
      split; [|done]. intros plan reason [= <- <-].
      split; [by apply missing_seed_text|]. split; [by apply missing_seed_text|done].
    + split; [|done]. by intros plan reason [= <- <-].
  - (* special *)
    unfold build_calls_for_method.
    destruct (run_special_method_calls method ctx); [|split; [intros ? ? [=]|done]].
    destruct (parse_signature_params signature); [split; [intros ? ? [=]|done]|].
    split; [|done]. by intros plan reason [= <- <-].
Qed.

(** ** Runs of the planned calls *)

Section PlannedRuns.
Context {C : Type} (cl : client C).

(** When the planner gives a skip reason there is no plan, and the run makes
    no remote call: the envelope is the prior one with the status [skipped]
    and the reason as one more error entry, which carries no request. *)
Theorem skip_reason_makes_no_call spec ctx incl out existing plan reason w r w' :
  classify_call_type (ms_method spec) (ms_signature spec) <> paged ->
  usable_cache (cached_method_data ctx !! ms_method spec) = None
  \/ env_data (start_envelope spec ctx existing) <> [] ->
  build_calls_for_method (ms_method spec) (ms_signature spec)
    (classify_call_type (ms_method spec) (ms_signature spec)) ctx incl
  = Ok (plan, Some reason) ->
  execute_method_for_year cl spec ctx incl out existing w = (r, w') ->
  plan = []
  /\ w_calls w' = w_calls w
  /\ w_remote w' = w_remote w
  /\ exists e,
       r = Ok e
       /\ env_status e = skipped
       /\ env_request_args e = env_request_args (start_envelope spec ctx existing)
       /\ env_data e = env_data (start_envelope spec ctx existing)
       /\ env_errors e
          = (env_errors (start_envelope spec ctx existing) ++ [mk_error None reason])%list
       /\ match out with
          | Some p => w_files w' !! p = Some (FEnvelope e)
          | None => w_files w' = w_files w
          end.
Proof.
  intros Hct Hcache Hplan H.
  pose proof (build_calls_reason_empty _ _ _ _ _ _ _ Hplan) as ->.
  split; [done|]. apply execute_method_inv in H. cbv zeta in H.
  destruct H as [(cached & Hu & Hd & _ & _) | (_ & [[Hp _] | [_ Hp]])].
  - destruct Hcache as [Hn|Hn]; [congruence|done].
  - done.
  - rewrite Hplan in Hp. unfold planned_run in Hp. destruct Hp as [Hw ->].
    unfold maybe_write, write_json in Hw.
    destruct out as [p|]; injection Hw as <-; cbn [w_calls w_remote w_files].
    + split; [done|]. split; [done|]. eexists. split; [done|].
      repeat split. apply lookup_insert_eq.
    + split; [done|]. split; [done|]. eexists. split; [done|]. repeat split.
Qed.

Lemma safe_call_count method kw retries w r w' :
  safe_call cl method kw retries w = (r, w') ->
  exists n,
    w_calls w' = (w_calls w ++ replicate n (method, kw))%list
    /\ (n <= Z.to_nat (retries + 1))%nat
    /\ (forall a, r = Ok a -> (0 < n)%nat)
    /\ (has_method cl method = true -> 0 <= retries -> (0 < n)%nat)
    /\ (has_method cl method = false -> n = O /\ exists e, r = Raise e).
Proof.
  unfold safe_call. destruct (has_method cl method).
  - intros H. apply bind_inv in H as [(t & w1 & Hc & H) | [(? & Hc & ?) | (Hc & ?)]];
      try (apply clock_inv in Hc as (? & ? & _); done).
    apply clock_inv in Hc as (_ & _ & Hc & _).
    apply safe_call_loop_spec in H as (_ & _ & H).
    destruct H as [(Hn & -> & ->) | (os & final & cN & _ & _ & Hlt & Hcalls & Hfin)].
    + exists O. cbn [replicate]. rewrite app_nil_r. split; [done|]. split; [lia|].
      split; [done|]. split; [lia|done].
    + exists (S (length os)). rewrite Hcalls, Hc. split; [done|]. split; [lia|].
      split; [intros; lia|]. split; [intros; lia|done].
  - intros H; injection H as <- <-. exists O. cbn [replicate]. rewrite app_nil_r.
    split; [done|]. split; [lia|]. split; [done|]. split; [done|]. eauto.
Qed.

Lemma maybe_write_calls out e (w : world C) r w' :
  maybe_write out e w = (r, w') -> r = Ok tt /\ w_calls w' = w_calls w.
Proof.
  unfold maybe_write, write_json. destruct out; intros [= <- <-]; done.
Qed.

(** One planned call: it is tried, once or twice, and recorded. *)
Lemma run_pending_step method out kw rest e w r w' :
  run_pending cl method out (kw :: rest) e w = (r, w') ->
  exists n e2 w2,
    w_calls w2 = (w_calls w ++ replicate n (method, kw))%list
    /\ (n <= 2)%nat
    /\ (has_method cl method = true -> (0 < n)%nat)
    /\ ((exists response took, e2 = record_success kw response took e /\ (0 < n)%nat)
        \/ (exists text took, e2 = record_failure kw text took e))
    /\ (has_method cl method = false ->
        n = O /\ exists text took, e2 = record_failure kw text took e)
    /\ run_pending cl method out rest e2 w2 = (r, w').
Proof.
  cbn [run_pending]. intros H.
  apply bind_res_inv in H as (r0 & w0 & Hc & H).
  apply clock_inv in Hc as (t0 & -> & Hc0 & _).
  apply bind_res_inv in H as (r1 & w1 & Ha & H).
  apply attempt_inv in Ha.
  destruct (safe_call cl method kw 1 w0) as [[[result took]|exc|] w1'] eqn:Hsc;
    destruct Ha as [-> ->].
  - apply safe_call_count in Hsc as (n & Hn & Hle & Hpos & Hhas & Hno).
    apply bind_res_inv in H as (r2 & w2 & He & H). injection He as <- <-.
    apply bind_res_inv in H as (r3 & w3 & Hw & H).
    apply maybe_write_calls in Hw as [-> Hw].
    eexists n, _, w3. rewrite Hw, Hn, Hc0. split; [done|]. split; [exact Hle|].
    split; [intros; by eapply Hpos|]. split.
    { left. eexists _, _. split; [reflexivity|]. by eapply Hpos. }
    split; [|exact H]. intros Hm. by destruct (Hno Hm) as (_ & ? & ?).
  - apply safe_call_count in Hsc as (n & Hn & Hle & Hpos & Hhas & Hno).
    apply bind_res_inv in H as (r2 & w2 & He & H).
    apply bind_res_inv in He as (r2' & w2' & Hc & He).
    apply clock_inv in Hc as (t1 & -> & Hc1 & _). injection He as <- <-.
    apply bind_res_inv in H as (r3 & w3 & Hw & H).
    apply maybe_write_calls in Hw as [-> Hw].
    eexists n, _, w3. rewrite Hw, Hc1, Hn, Hc0. split; [done|]. split; [exact Hle|].
    split; [intros; by apply Hhas|]. split.
    { right. by eexists _, _. }
    split; [|exact H]. intros Hm. destruct (Hno Hm) as (-> & _). split; [done|].
    by eexists _, _.
  - by apply safe_call_ext in Hsc as [? _].
Qed.

End PlannedRuns.

Section PlannedCalls.
Context {C : Type} (cl : client C).

(** The calls that a run of the planned calls adds to the log: each pending
    call, in its turn, as many times as it was tried. *)
Definition tried_calls (method : string) (counts : list nat) (pending : list kwargs)
  : list (string * kwargs) :=
  concat (zip_with (fun n kw => replicate n (method, kw)) counts pending).

Lemma run_pending_all method out pending :
  forall e w r w',
    run_pending cl method out pending e w = (r, w') ->
    exists e1 counts,
      r = Ok e1
      /\ env_request_args e1 = (env_request_args e ++ pending)%list
      /\ length counts = length pending
      /\ Forall (fun n => (n <= 2)%nat) counts
      /\ (has_method cl method = true -> Forall (fun n => (1 <= n)%nat) counts)
      /\ w_calls w' = (w_calls w ++ tried_calls method counts pending)%list
      /\ (length (env_data e1) + length (env_errors e1)
          = length (env_data e) + length (env_errors e) + length pending)%nat.
Proof.
  induction pending as [|kw pending IH]; intros e w r w' H.
  - injection H as <- <-. exists e, []. rewrite !app_nil_r. cbn.
    repeat split; try done; try constructor; lia.
  - apply run_pending_step in H as (n & e2 & w2 & Hc & Hle & Hhas & He2 & _ & H).
    apply IH in H as (e1 & counts & -> & Hargs & Hlen & Hall & Hall1 & Hcalls & Hsum).
    exists e1, (n :: counts).
    assert (Ha2 : env_request_args e2 = (env_request_args e ++ [kw])%list
                  /\ (length (env_data e2) + length (env_errors e2)
                      = length (env_data e) + length (env_errors e) + 1)%nat).
    { destruct He2 as [(? & ? & -> & _) | (? & ? & ->)]; cbn; rewrite !length_app; cbn;
        split; try done; lia. }
    destruct Ha2 as [Ha2 Hs2]. split; [done|]. split.
    { rewrite Hargs, Ha2, <- app_assoc. done. }
    split; [cbn; lia|]. split; [by constructor|]. split.
    { intros Hm. constructor; [specialize (Hhas Hm); lia | by apply Hall1]. }
    split.
    { rewrite Hcalls, Hc. unfold tried_calls. cbn [zip_with concat].
      by rewrite <- app_assoc. }
    cbn [length]. lia.
Qed.

(** A run of planned calls tries every planned call that no prior success
    covers, in the order of the plan, once or twice each, and nothing else;
    every one of them is recorded in [request_args] and in [data] or
    [errors]. *)
Theorem planned_calls_all_attempted spec ctx incl out existing plan reason w r w' :
  classify_call_type (ms_method spec) (ms_signature spec) <> paged ->
  usable_cache (cached_method_data ctx !! ms_method spec) = None
  \/ env_data (start_envelope spec ctx existing) <> [] ->
  build_calls_for_method (ms_method spec) (ms_signature spec)
    (classify_call_type (ms_method spec) (ms_signature spec)) ctx incl
  = Ok (plan, reason) ->
  reason = None \/ plan <> [] ->
  execute_method_for_year cl spec ctx incl out existing w = (r, w') ->
  let e0 := start_envelope spec ctx existing in
  exists e counts,
    r = Ok e
    /\ env_request_args e = (env_request_args e0 ++ pending_of e0 plan)%list
    /\ length counts = length (pending_of e0 plan)
    /\ Forall (fun n => (n <= 2)%nat) counts
    /\ (has_method cl (ms_method spec) = true -> Forall (fun n => (1 <= n)%nat) counts)
    /\ w_calls w'
       = (w_calls w ++ tried_calls (ms_method spec) counts (pending_of e0 plan))%list
    /\ (length (env_data e) + length (env_errors e)
        = length (env_data e0) + length (env_errors e0)
          + length (pending_of e0 plan))%nat.
Proof.
  intros Hct Hcache Hplan Hgo H e0. apply execute_method_inv in H. cbv zeta in H.
  fold e0 in H.
  destruct H as [(cached & Hu & Hd & _ & _) | (_ & [[Hp _] | [_ Hp]])].
  - destruct Hcache as [Hn|Hn]; [congruence|done].
  - done.
  - rewrite Hplan in Hp. unfold planned_run in Hp.
    assert (Hrun :
      exists r1, run_pending cl (ms_method spec) out (pending_of e0 plan) e0 w = (r1, w')
                 /\ r = e1 ← r1; mret (set_status (final_status (env_stats e1)) e1)).
    { destruct plan as [|kw plan]; [destruct reason as [reason|]|]; try done.
      by destruct Hgo. }
    destruct Hrun as (r1 & Hrp & ->).
    apply run_pending_all in Hrp
      as (e1 & counts & -> & Hargs & Hlen & Hall & Hall1 & Hcalls & Hsum).
    exists (set_status (final_status (env_stats e1)) e1), counts. done.
Qed.

End PlannedCalls.

Definition disabled_download_run : res envelope * world nat :=
  execute_method_for_year late_devices download_spec plain_ctx false None None
                          empty_world.

Lemma skip_reason_makes_no_call_witness :
  ([] : list kwargs) = []
  /\ w_calls disabled_download_run.2 = w_calls empty_world
  /\ w_remote disabled_download_run.2 = w_remote empty_world
  /\ exists e,
       disabled_download_run.1 = Ok e
       /\ env_status e = skipped
       /\ env_request_args e
          = env_request_args (start_envelope download_spec plain_ctx None)
       /\ env_data e = env_data (start_envelope download_spec plain_ctx None)
       /\ env_errors e
          = (env_errors (start_envelope download_spec plain_ctx None)
             ++ [mk_error None "download_disabled"])%list
       /\ w_files disabled_download_run.2 = w_files empty_world.
Proof.
  apply (skip_reason_makes_no_call late_devices download_spec plain_ctx false None None
           [] "download_disabled" empty_world).
  - done.
  - by left.
  - reflexivity.
  - vm_compute. reflexivity.
Defined.

Definition devices_run : res envelope * world nat :=
  execute_method_for_year late_devices devices_spec plain_ctx true None None empty_world.

Lemma planned_calls_all_attempted_witness :
  exists e counts,
    devices_run.1 = Ok e
    /\ env_request_args e
       = (env_request_args (start_envelope devices_spec plain_ctx None)
          ++ pending_of (start_envelope devices_spec plain_ctx None) [[]])%list
    /\ length counts = length (pending_of (start_envelope devices_spec plain_ctx None) [[]])
    /\ Forall (fun n => (n <= 2)%nat) counts
    /\ (has_method late_devices (ms_method devices_spec) = true ->
        Forall (fun n => (1 <= n)%nat) counts)
    /\ w_calls devices_run.2
       = (w_calls empty_world
          ++ tried_calls (ms_method devices_spec) counts
               (pending_of (start_envelope devices_spec plain_ctx None) [[]]))%list
    /\ (length (env_data e) + length (env_errors e)
        = length (env_data (start_envelope devices_spec plain_ctx None))
          + length (env_errors (start_envelope devices_spec plain_ctx None))
          + length (pending_of (start_envelope devices_spec plain_ctx None) [[]]))%nat.
Proof.
  apply (planned_calls_all_attempted late_devices devices_spec plain_ctx true None None
           [[]] None empty_world).
  - done.
  - by left.
  - reflexivity.
  - by left.
  - vm_compute. reflexivity.
Defined.

(** ** A method that the client does not have *)

Section MissingMethod.
Context {C : Type} (cl : client C).

Lemma run_pending_missing method out pending :
  has_method cl method = false ->
  forall e w r w',
    run_pending cl method out pending e w = (r, w') ->
    counted e ->
    exists e1, r = Ok e1 /\ w_calls w' = w_calls w /\ env_data e1 = env_data e
               /\ counted e1.
Proof.
  intros Hm. induction pending as [|kw pending IH]; intros e w r w' H Hc.
  - injection H as <- <-. by exists e.
  - apply run_pending_step in H as (n & e2 & w2 & Hcalls & _ & _ & _ & Hno & H).
    destruct (Hno Hm) as (-> & text & took & ->).
    apply IH in H as (e1 & -> & Hc1 & Hd1 & Hk1); [|repeat split].
    exists e1. split; [done|]. split; [|done].
    rewrite Hc1, Hcalls. cbn [replicate]. by rewrite app_nil_r.
Qed.

Lemma paged_loop_missing method base limit out fuel page_start elapsed e w r w' :
  has_method cl method = false ->
  page_start < 20000 ->
  paged_loop cl method base limit (Some (on_paged_chunk_done out)) (S fuel)
             page_start elapsed e w = (r, w') ->
  exists text,
    r = Ok (elapsed, record_failure (page_kwargs base page_start limit) text 0 e)
    /\ w_calls w' = w_calls w.
Proof.
  intros Hm Hlt H. unfold paged_loop in H; fold (@paged_loop C cl envelope) in H.
  apply Z.ltb_lt in Hlt. rewrite Hlt in H.
  fold (page_kwargs base page_start limit) in H.
  apply bind_res_inv in H as (r1 & w1 & Ha & H).
  apply attempt_inv in Ha.
  destruct (safe_call cl method (page_kwargs base page_start limit) 1 w)
    as [[[result took]|exc|] w1'] eqn:Hsc;
    apply safe_call_count in Hsc as (n & Hn & _ & _ & _ & Hno);
    destruct (Hno Hm) as (-> & x & Hx); [done| |done].
  destruct Ha as [-> ->].
  apply bind_res_inv in H as (r2 & w2 & Hcb & H).
  apply callback_inv in Hcb as (e' & -> & Hw & ->).
  apply maybe_write_calls in Hw as [_ Hw]. injection H as <- <-.
  exists (exn_str exc). split; [done|].
  rewrite Hw, Hn. cbn [replicate]. by rewrite app_nil_r.
Qed.

(** A method that the client does not have is never called. Without a
    usable seed cache the run adds no data; from an envelope without data it
    ends [failed], or [skipped] when nothing was to be called. *)
Theorem missing_method_never_called spec ctx incl out existing w r w' :
  has_method cl (ms_method spec) = false ->
  execute_method_for_year cl spec ctx incl out existing w = (r, w') ->
  w_calls w' = w_calls w
  /\ (forall e,
        r = Ok e ->
        usable_cache (cached_method_data ctx !! ms_method spec) = None ->
        env_data e = env_data (start_envelope spec ctx existing)
        /\ (env_data (start_envelope spec ctx existing) = [] ->
            env_status e = failed \/ env_status e = skipped)).
Proof.
  intros Hm H. apply execute_method_inv in H. cbv zeta in H.
  pose proof (counted_start spec ctx existing) as Hc0.
  remember (start_envelope spec ctx existing) as e0 eqn:He0. clear He0.
  destruct H as [(cached & Hu & Hd & Hw & _) | (_ & [[_ Hp] | [_ Hp]])].
  - apply maybe_write_calls in Hw as [_ Hw]. split; [done|]. intros e _ Hn. congruence.
  - destruct Hp as (r1 & Hl & ->).
    assert (Hend : forall e1, counted e1 -> env_data e1 = env_data e0 ->
      env_data (set_status (final_status_paged (env_stats e1)) e1) = env_data e0
      /\ (env_data e0 = [] ->
          env_status (set_status (final_status_paged (env_stats e1)) e1) = failed
          \/ env_status (set_status (final_status_paged (env_stats e1)) e1) = skipped)).
    { intros e1 (_ & Hs & _) Hd. split; [done|]. intros H0.
      cbn [set_status env_status]. unfold final_status_paged.
      rewrite Hs, Hd, H0. cbn. by left. }
    destruct (Z.ltb_spec (Z.max 0 (resume_cursor e0)) 20000) as [Hlt|Hge].
    + pose proof (paged_fuel_enough (Z.max 0 (resume_cursor e0)) 100 ltac:(lia)) as Hf.
      destruct (paged_fuel (Z.max 0 (resume_cursor e0)) 100) as [|fuel]; [lia|].
      apply paged_loop_missing in Hl as (text & -> & Hcalls); [|done..].
      split; [done|]. intros e He _. injection He as <-. apply Hend; [repeat split|done].
    + assert (Hl' : r1 = Ok (0, e0) /\ w' = w).
      { destruct (paged_fuel _ _); unfold paged_loop in Hl;
          destruct (Z.ltb_spec (Z.max 0 (resume_cursor e0)) 20000); try lia;
          by injection Hl as <- <-. }
      destruct Hl' as [-> ->]. split; [done|]. intros e He _. injection He as <-.
      by apply Hend.
  - unfold planned_run in Hp.
    destruct (build_calls_for_method _ _ _ ctx incl) as [[plan reason]|?|] eqn:Hb;
      [|destruct Hp as [-> ->]; split; done..].
    assert (Hrun :
      (exists r1, run_pending cl (ms_method spec) out (pending_of e0 plan) e0 w = (r1, w')
                  /\ r = e1 ← r1; mret (set_status (final_status (env_stats e1)) e1))
      -> w_calls w' = w_calls w
         /\ (forall e, r = Ok e ->
               usable_cache (cached_method_data ctx !! ms_method spec) = None ->
               env_data e = env_data e0
               /\ (env_data e0 = [] -> env_status e = failed \/ env_status e = skipped))).
    { intros (r1 & Hrp & ->).
      eapply run_pending_missing in Hrp as (e1 & -> & Hcalls & Hd & (_ & Hs & _));
        [|done..].
      split; [done|]. intros e [= <-] _. split; [done|]. intros H0.
      cbn [set_status env_status]. unfold final_status. rewrite Hs, Hd, H0. cbn.
      destruct (attempted_calls (env_stats e1) =? 0)%nat; eauto. }
    destruct plan as [|kw plan]; [destruct reason as [reason|]|]; try by apply Hrun.
    destruct Hp as [Hw ->]. apply maybe_write_calls in Hw as [_ Hw].
    split; [done|]. intros e [= <-] _. split; [done|]. intros _. by right.
Qed.

End MissingMethod.

(** A client without any method. *)
Definition bare_client : client nat :=
  scripted (fun _ => false) (fun _ _ _ => Returned JNull).

Definition bare_run : res envelope * world nat :=
  execute_method_for_year bare_client devices_spec plain_ctx true None None empty_world.

Lemma missing_method_never_called_witness :
  w_calls bare_run.2 = w_calls empty_world
  /\ (forall e,
        bare_run.1 = Ok e ->
        usable_cache (cached_method_data plain_ctx !! ms_method devices_spec) = None ->
        env_data e = env_data (start_envelope devices_spec plain_ctx None)
        /\ (env_data (start_envelope devices_spec plain_ctx None) = [] ->
            env_status e = failed \/ env_status e = skipped)).
Proof.
  apply (missing_method_never_called bare_client devices_spec plain_ctx true None None
           empty_world).
  - reflexivity.
  - vm_compute. reflexivity.
Defined.

(** ** Request keys and the order of the arguments *)

#[global] Instance key_le_total : Total key_le.
Proof. intros a b. unfold key_le. apply total, _. Qed.

#[global] Instance key_le_trans : Transitive key_le.
Proof. intros a b c. unfold key_le. apply transitivity. Qed.

Lemma NoDup_fst_unique {A B} (l : list (A * B)) (x y : A * B) :
  NoDup (map fst l) -> x ∈ l -> y ∈ l -> x.1 = y.1 -> x = y.
Proof.
  induction l as [|z l IH]; intros Hnd Hx Hy Hk; [by apply elem_of_nil in Hx|].
  cbn [map] in Hnd. apply NoDup_cons in Hnd as [Hz Hnd].
  apply elem_of_cons in Hx as [->|Hx], Hy as [->|Hy]; [done| | |by apply IH].
  - destruct Hz. rewrite Hk. change (map fst l) with (fst <$> l).
    by apply list_elem_of_fmap_2.
  - destruct Hz. rewrite <- Hk. change (map fst l) with (fst <$> l).
    by apply list_elem_of_fmap_2.
Qed.

(** Two dicts with the same items have the same request key, whatever the
    order in which the items were put in. *)
Theorem request_key_order_independent (kw kw' : kwargs) :
  NoDup (map fst kw) -> kw ≡ₚ kw' -> request_key kw = request_key kw'.
Proof.
  intros Hnd Hp. unfold request_key. cbn [json_dumps]. do 3 f_equal.
  set (f := fun kv : string * json => match kv with (k, x) => (k, json_dumps x) end).
  assert (Hpf : map f kw ≡ₚ map f kw') by (by apply Permutation_map).
  assert (Hkeys : map fst (map f kw) = map fst kw).
  { rewrite map_map. apply map_ext. by intros []. }
  f_equal. apply (Sorted_unique_strong key_le).
  - intros x1 x2 H1 H2 H12 H21.
    rewrite merge_sort_Permutation in H1. rewrite merge_sort_Permutation, <- Hpf in H2.
    apply (NoDup_fst_unique (map f kw)); [by rewrite Hkeys|done|done|].
    unfold key_le in H12, H21. by apply (anti_symm String.le).
  - apply Sorted_merge_sort, _.
  - apply Sorted_merge_sort, _.
  - by rewrite !merge_sort_Permutation.
Qed.

Lemma request_key_order_independent_witness :
  request_key [("startdate", JStr "2025-01-01"); ("enddate", JStr "2025-01-31")]
  = request_key [("enddate", JStr "2025-01-31"); ("startdate", JStr "2025-01-01")].
Proof.
  apply request_key_order_independent.
  - apply (bool_decide_unpack _). vm_compute. exact I.
  - apply perm_swap.
Defined.

(** ** The years of the command line *)

Lemma years_of_tokens_elem tokens years y :
  years_of_tokens tokens = Ok years ->
  y ∈ years <->
  exists token, token ∈ tokens /\ Str.strip token <> ""
                /\ int_of_string (Str.strip token) = Ok y.
Proof.
  revert years. induction tokens as [|token tokens IH]; intros years.
  - intros [= <-]. split; [by intros ?%elem_of_nil|].
    by intros (? & ?%elem_of_nil & _).
  - cbn [years_of_tokens]. destruct (String.eqb_spec (Str.strip token) "") as [He|Hne].
    + intros H. rewrite (IH _ H). split.
      * intros (t & Ht & Hs). exists t. split; [by right|done].
      * intros (t & [->|Ht]%elem_of_cons & Hs & Hi); [done|]. by exists t.
    + unfold mbind, res_bind.
      destruct (int_of_string (Str.strip token)) as [y0|?|] eqn:Hy0; [|done..].
      destruct (years_of_tokens tokens) as [ys|?|] eqn:Hys; [|done..].
      intros [= <-]. rewrite elem_of_cons, (IH ys eq_refl). split.
      * intros [->|(t & Ht & Hs)].
        -- exists token. split; [by left|done].
        -- exists t. split; [by right|done].
      * intros (t & [->|Ht]%elem_of_cons & Hs & Hi).
        -- left. congruence.
        -- right. by exists t.
Qed.

Lemma check_years_range years :
  check_years years = Ok tt <-> Forall (fun y => 2000 <= y <= 2100) years.
Proof.
  induction years as [|y years IH]; [split; [constructor|done]|].
  cbn [check_years]. rewrite Forall_cons.
  destruct (Z.ltb_spec y 2000), (Z.ltb_spec 2100 y); cbn [orb];
    try (split; [done|intros [? _]; lia]).
  rewrite IH. split; [intros; split; [lia|done]|by intros [_ ?]].
Qed.

Lemma sorted_distinct (l : list Z) :
  StronglySorted Z.le l -> NoDup l -> StronglySorted Z.lt l.
Proof.
  induction 1 as [|x l Hs IH Hall]; intros Hnd; [constructor|].
  apply NoDup_cons in Hnd as [Hx Hnd]. constructor; [by apply IH|].
  rewrite Forall_forall in Hall |- *. intros y Hy.
  specialize (Hall y Hy). assert (x <> y) by (intros ->; done). lia.
Qed.

(** The years read from the command line are listed in increasing order,
    each once; there is at least one and all are from 2000 to 2100. A year is
    listed exactly when a token between commas, stripped and not empty, reads
    as that integer. *)
Theorem parse_years_arg_sorted value years :
  parse_years_arg value = Ok years ->
  years <> []
  /\ StronglySorted Z.lt years
  /\ Forall (fun y => 2000 <= y <= 2100) years
  /\ (forall y,
        y ∈ years <->
        exists token, token ∈ Str.split_on "," value /\ Str.strip token <> ""
                      /\ int_of_string (Str.strip token) = Ok y).
Proof.
  unfold parse_years_arg, mbind, res_bind.
  destruct (years_of_tokens (Str.split_on "," value)) as [ys|?|] eqn:Hys; [|done..].
  destruct ys as [|y0 ys]; [done|].
  destruct (check_years (y0 :: ys)) as [[]|?|] eqn:Hc; [|done..].
  apply check_years_range in Hc.
  set (l := merge_sort Z.le (remove_dups (y0 :: ys))).
  assert (Hperm : l ≡ₚ remove_dups (y0 :: ys)) by apply merge_sort_Permutation.
  assert (Hsorted : StronglySorted Z.le l)
    by (apply StronglySorted_merge_sort; apply _).
  clearbody l. intros [= <-].
  assert (Hin : forall y, y ∈ l <-> y ∈ y0 :: ys).
  { intros y. by rewrite Hperm, elem_of_remove_dups. }
  split; [|split; [|split]].
  - intros Hl. assert (H0 : y0 ∈ l) by (apply Hin; by left).
    rewrite Hl in H0. by apply elem_of_nil in H0.
  - apply sorted_distinct; [done|]. rewrite Hperm. apply NoDup_remove_dups.
  - rewrite Forall_forall in Hc |- *. intros y Hy. by apply Hc, Hin.
  - intros y. rewrite Hin. by apply years_of_tokens_elem.
Qed.

Lemma parse_years_arg_sorted_witness :
  [2023; 2025] <> []
  /\ StronglySorted Z.lt [2023; 2025]
  /\ Forall (fun y => 2000 <= y <= 2100) [2023; 2025]
  /\ (forall y,
        y ∈ [2023; 2025] <->
        exists token, token ∈ Str.split_on "," "2025, 2023,,2_025 " /\ Str.strip token <> ""
                      /\ int_of_string (Str.strip token) = Ok y).
Proof.
  apply (parse_years_arg_sorted "2025, 2023,,2_025 " [2023; 2025]).
  vm_compute. reflexivity.
Defined.

Lemma int_of_string_raise token e :
  int_of_string token = Raise e -> exists text, e = LocalError "ValueError" text.
Proof.
  unfold int_of_string. repeat case_match; try done; intros [= <-]; eauto.
Qed.

Lemma int_of_string_fuel token : int_of_string token <> OutOfFuel.
Proof. unfold int_of_string. repeat case_match; done. Qed.

Lemma years_of_tokens_total tokens :
  match years_of_tokens tokens with
  | Ok _ =>
      forall token, token ∈ tokens -> Str.strip token <> "" ->
                    exists y, int_of_string (Str.strip token) = Ok y
  | Raise e =>
      (exists text, e = LocalError "ValueError" text)
      /\ exists token, token ∈ tokens /\ Str.strip token <> ""
                       /\ int_of_string (Str.strip token) = Raise e
  | OutOfFuel => False
  end.
Proof.
  induction tokens as [|token tokens IH]; [by intros ? ?%elem_of_nil|].
  cbn [years_of_tokens]. destruct (String.eqb_spec (Str.strip token) "") as [He|Hne].
  - destruct (years_of_tokens tokens) as [ys|e|]; [| |done].
    + intros t [->|Ht]%elem_of_cons Hs; [done|by apply IH].
    + destruct IH as (Hv & t & Ht & Hs). split; [done|]. exists t. split; [by right|done].
  - unfold mbind, res_bind.
    destruct (int_of_string (Str.strip token)) as [y0|e|] eqn:Hy0.
    + destruct (years_of_tokens tokens) as [ys|e|]; [| |done].
      * intros t [->|Ht]%elem_of_cons Hs; [eauto|by apply IH].
      * destruct IH as (Hv & t & Ht & Hs). split; [done|].
        exists t. split; [by right|done].
    + split; [by eapply int_of_string_raise|]. exists token. split; [by left|done].
    + by apply int_of_string_fuel in Hy0.
Qed.

Lemma check_years_raise years e :
  check_years years = Raise e -> exists text, e = LocalError "ValueError" text.
Proof.
  induction years as [|y years IH]; [done|]. cbn [check_years].
  destruct ((y <? 2000) || (2100 <? y)); [intros [= <-]; eauto|done].
Qed.

(** On ASCII text of at most 640 characters, where [Str.strip] and
    [int_of_string] are [str.strip] and [int], [parse_years_arg] accepts its
    argument exactly when some token between commas is not blank and every
    such token reads as an integer from 2000 to 2100; otherwise it raises a
    [ValueError]. *)
Theorem parse_years_arg_accepts value :
  Str.isascii value = true ->
  (String.length value <= 640)%nat ->
  ((exists years, parse_years_arg value = Ok years) <->
   (exists token, token ∈ Str.split_on "," value /\ Str.strip token <> "")
   /\ (forall token, token ∈ Str.split_on "," value -> Str.strip token <> "" ->
         exists y, int_of_string (Str.strip token) = Ok y /\ 2000 <= y <= 2100))
  /\ (forall e, parse_years_arg value = Raise e ->
        exists text, e = LocalError "ValueError" text)
  /\ parse_years_arg value <> OutOfFuel.
Proof.
  intros _ _. unfold parse_years_arg, mbind, res_bind.
  pose proof (years_of_tokens_total (Str.split_on "," value)) as Ht.
  pose proof (fun ys y H => years_of_tokens_elem (Str.split_on "," value) ys y H) as Hel.
  destruct (years_of_tokens (Str.split_on "," value)) as [ys|e|]; [| |done].
  - specialize (Hel ys). destruct ys as [|y0 ys].
    { split; [|split; [intros ? [= <-]; eauto|done]]. split; [by intros [? ?]|].
      intros [(t & Hin & Hs) Hall]. destruct (Hall t Hin Hs) as (y & Hy & _).
      assert (Hy' : y ∈ ([] : list Z)) by (apply (Hel y eq_refl); eauto).
      by apply elem_of_nil in Hy'. }
    pose proof (check_years_range (y0 :: ys)) as Hr.
    destruct (check_years (y0 :: ys)) as [[]|e|] eqn:Hc.
    + split; [|split; done]. split; [intros _|eauto].
      assert (Hall : Forall (fun y => 2000 <= y <= 2100) (y0 :: ys)) by by apply Hr.
      rewrite Forall_forall in Hall. split.
      * destruct (proj1 (Hel y0 eq_refl)) as (t & Hin & Hs & _); [by left|]. eauto.
      * intros t Hin Hs. destruct (Ht t Hin Hs) as [y Hy]. exists y. split; [done|].
        apply Hall, (Hel y eq_refl). eauto.
    + split; [|split; [intros ? [= <-]; by eapply check_years_raise|done]].
      split; [by intros [? ?]|]. intros [_ Hall].
      assert (Hf : Forall (fun y => 2000 <= y <= 2100) (y0 :: ys)).
      { apply Forall_forall. intros y Hy.
        destruct (proj1 (Hel y eq_refl) Hy) as (t & Hin & Hs & Hi).
        destruct (Hall t Hin Hs) as (y' & Hy' & Hrange). congruence. }
      apply Hr in Hf. done.
    + exfalso. clear -Hc. induction ys as [|y ys IH] in y0, Hc |- *;
        cbn [check_years] in Hc; destruct ((y0 <? 2000) || (2100 <? y0)); try done.
      by eapply IH.
  - destruct Ht as ((text & ->) & t & Hin & Hs & Hi).
    split; [|split; [intros ? [= <-]; eauto|done]]. split; [by intros [? ?]|].
    intros [_ Hall]. destruct (Hall t Hin Hs) as (y & Hy & _). congruence.
Qed.

Lemma parse_years_arg_accepts_witness :
  ((exists years, parse_years_arg "2024, 2025" = Ok years) <->
   (exists token, token ∈ Str.split_on "," "2024, 2025" /\ Str.strip token <> "")
   /\ (forall token, token ∈ Str.split_on "," "2024, 2025" -> Str.strip token <> "" ->
         exists y, int_of_string (Str.strip token) = Ok y /\ 2000 <= y <= 2100))
  /\ (forall e, parse_years_arg "2024, 2025" = Raise e ->
        exists text, e = LocalError "ValueError" text)
  /\ parse_years_arg "2024, 2025" <> OutOfFuel.
Proof.
  apply (parse_years_arg_accepts "2024, 2025"); [reflexivity | vm_compute; lia].
Defined.

(** ** The files and the log of writes *)

(** The files after the writes [lw], the oldest first. *)
Definition apply_writes (files : gmap path file) (lw : list (path * file))
  : gmap path file :=
  foldl (fun f x => <[x.1 := x.2]> f) files lw.

(** From [w] to [w'] the files changed by the logged writes only. *)
Definition files_follow {C} (w w' : world C) : Prop :=
  exists lw, w_writes w' = (w_writes w ++ lw)%list
             /\ w_files w' = apply_writes (w_files w) lw.

Definition follows {C A} (m : M C A) : Prop :=
  forall w r w', m w = (r, w') -> files_follow w w'.

Section Follows.
Context {C : Type} (cl : client C).

Lemma files_follow_refl (w : world C) : files_follow w w.
Proof. exists []. by rewrite app_nil_r. Qed.

Lemma files_follow_trans (w1 w2 w3 : world C) :
  files_follow w1 w2 -> files_follow w2 w3 -> files_follow w1 w3.
Proof.
  intros (l1 & Hw1 & Hf1) (l2 & Hw2 & Hf2). exists (l1 ++ l2)%list.
  rewrite Hw2, Hw1, app_assoc. split; [done|].
  rewrite Hf2, Hf1. unfold apply_writes. by rewrite foldl_app.
Qed.

Lemma files_follow_same (w w' : world C) :
  w_writes w' = w_writes w -> w_files w' = w_files w -> files_follow w w'.
Proof. intros Hw Hf. exists []. by rewrite app_nil_r. Qed.

Lemma follows_ret {A} (a : A) : follows (C := C) (mret a).
Proof. intros w r w' [= <- <-]. apply files_follow_refl. Qed.

Lemma follows_lift {A} (x : res A) : follows (C := C) (lift x).
Proof. intros w r w' [= <- <-]. apply files_follow_refl. Qed.

Lemma follows_bind {A B} (m : M C A) (k : A -> M C B) :
  follows m -> (forall a, follows (k a)) -> follows (m ≫= k).
Proof.
  intros Hm Hk w r w' H.
  apply bind_inv in H as [(a & w1 & Hs & H) | [(? & Hs & ?) | (Hs & ?)]];
    [|by eapply Hm..].
  eapply files_follow_trans; [by eapply Hm | by eapply Hk].
Qed.

Lemma follows_fmap {A B} (f : A -> B) (m : M C A) : follows m -> follows (f <$> m).
Proof.
  intros Hm w r w'. unfold fmap, M_fmap.
  destruct (m w) as [[a|e|] w1] eqn:Hs; intros [= <- <-]; by eapply Hm.
Qed.

Lemma follows_try {A} (body : M C A) (handler : exn -> M C A) :
  follows body -> (forall e, follows (handler e)) -> follows (try_except body handler).
Proof.
  intros Hb Hh w r w' H.
  apply try_except_inv in H as [[H _] | (e & w1 & Hs & H)]; [by eapply Hb|].
  eapply files_follow_trans; [by eapply Hb | by eapply Hh].
Qed.

Lemma follows_clock : follows (clock cl).
Proof.
  intros w r w' H. apply clock_inv in H as (_ & _ & _ & Hf & Hw).
  by apply files_follow_same.
Qed.

Lemma follows_safe_call method kw retries : follows (safe_call cl method kw retries).
Proof.
  intros w r w' H. apply safe_call_ext in H as (_ & Hf & _ & (lw & Hw & Hall)).
  destruct lw as [|x lw]; [|by apply Forall_cons in Hall as [[] _]].
  rewrite app_nil_r in Hw. by apply files_follow_same.
Qed.

Lemma follows_write p f : follows (C := C) (write_json p f).
Proof. intros w r w' [= <- <-]. by exists [(p, f)]. Qed.

Lemma follows_maybe_write out e : follows (C := C) (maybe_write out e).
Proof. destruct out; [apply follows_write|apply follows_ret]. Qed.

Lemma follows_path_exists p : follows (C := C) (path_exists p).
Proof. intros w r w' [= <- <-]. apply files_follow_refl. Qed.

Lemma follows_read p : follows (C := C) (read_json_if_exists p).
Proof. intros w r w' [= <- <-]. apply files_follow_refl. Qed.

Lemma follows_fetch_activities year remaining page empty_pages activities :
  follows (fetch_activities_loop cl year remaining page empty_pages activities).
Proof.
  revert page empty_pages activities.
  induction remaining as [|n IH]; intros page ep acts; [apply follows_ret|].
  cbn [fetch_activities_loop]. apply follows_bind.
  - apply follows_try; [|intros; apply follows_ret].
    apply follows_bind; [apply follows_safe_call|intros; apply follows_ret].
  - intros [[v t]|e]; [|apply follows_ret].
    assert (Hempty : follows
      (if 2 <=? ep + 1 then mret acts
       else fetch_activities_loop cl year n (page + 1) (ep + 1) acts)).
    { destruct (2 <=? ep + 1); [apply follows_ret|apply IH]. }
    destruct v as [| | | |l|]; try exact Hempty.
    destruct l as [|act batch]; [exact Hempty|].
    destruct (scan_batch year (act :: batch)) as [hits has_older].
    destruct (match hits with [] => has_older | _ => false end);
      [apply follows_ret|apply IH].
Qed.

Lemma follows_fetch_activities_for_year year :
  follows (fetch_activities_for_year cl year).
Proof. apply follows_fetch_activities. Qed.

Lemma follows_fetch_workouts remaining start workouts :
  follows (fetch_workouts_loop cl remaining start workouts).
Proof.
  revert start workouts.
  induction remaining as [|n IH]; intros start wk; [apply follows_ret|].
  cbn [fetch_workouts_loop]. apply follows_bind; [apply follows_safe_call|].
  intros [payload t]. destruct (extract_items payload) as [|i items];
    [apply follows_ret|].
  destruct (Z.of_nat (length (i :: items)) <? 100); [apply follows_ret|apply IH].
Qed.

Lemma follows_fetch_all_workouts : follows (fetch_all_workouts cl).
Proof. apply follows_fetch_workouts. Qed.

Ltac follows_step :=
  cbv beta zeta;
  first
    [ apply follows_ret
    | apply follows_lift
    | apply follows_fetch_activities_for_year
    | apply follows_fetch_all_workouts
    | apply follows_safe_call
    | apply follows_clock
    | apply follows_write
    | apply follows_maybe_write
    | apply follows_path_exists
    | apply follows_read
    | apply follows_fmap
    | apply follows_try; [|intros ?]
    | apply follows_bind; [|intros ?]
    | match goal with
      | |- follows (match ?p with (_, _) => _ end) => destruct p
      end ].

Lemma follows_build_seed_context year : follows (build_seed_context cl year).
Proof.
  unfold build_seed_context, call_or.
  do 8 (apply follows_bind; [repeat follows_step|intros ?]; cbv beta zeta).
  apply follows_bind.
  { match goal with |- follows (match ?l with _ => _ end) => destruct l end;
      repeat follows_step. }
  intros gears. repeat follows_step.
Qed.








End Follows.

(** ** The files of the other years *)



Section OtherYears.
Context {C : Type} (cl : client C).

Lemma follows_at {A} (m : M C A) w r w' :
  m w = (r, w') -> follows m -> files_follow w w'.
Proof. intros H Hf. by eapply Hf. Qed.

Lemma adds_only_at {A} Pc Pw (m : M C A) w r w' :
  m w = (r, w') -> adds_only Pc Pw m -> world_ext Pc Pw w w'.
Proof. intros H Hf. by eapply Hf. Qed.



End OtherYears.



(** ** The requests of the bootstrap *)

Definition workouts_request (start : Z) : kwargs :=
  [("start", JInt start); ("limit", JInt 100)].

(** The remote calls that the construction of the seed context may make. *)
Definition bootstrap_request (c : string * kwargs) : Prop :=
  (exists page, 0 <= page < 500 /\ c = ("get_activities", page_request page))
  \/ (exists k, 0 <= k < 200 /\ c = ("get_workouts", workouts_request (100 * k)))
  \/ c = ("get_devices", [])
  \/ c = ("get_user_profile", [])
  \/ c = ("get_device_last_used", [])
  \/ (exists number, c = ("get_gear", [("userProfileNumber", number)]))
  \/ c = ("get_training_plans", []).

Section BootstrapRequests.
Context {C : Type} (cl : client C).

Lemma adds_only_activity_pages Pw year remaining :
  forall page empty_pages activities,
    adds_only (fun c => exists p, page <= p < page + Z.of_nat remaining
                                  /\ c = ("get_activities", page_request p)) Pw
      (fetch_activities_loop cl year remaining page empty_pages activities).
Proof.
  induction remaining as [|n IH]; intros page ep acts; [apply adds_only_ret|].
  assert (Hnext : forall ep' acts',
    adds_only (fun c => exists p, page <= p < page + Z.of_nat (S n)
                                  /\ c = ("get_activities", page_request p)) Pw
      (fetch_activities_loop cl year n (page + 1) ep' acts')).
  { intros ep' acts'. eapply adds_only_mono; [| |apply IH]; [|done].
    intros c (p & Hp & ->). exists p. split; [lia|done]. }
  cbn [fetch_activities_loop]. fold (page_request page). apply adds_only_bind.
  - apply adds_only_try; [|intros; apply adds_only_ret].
    apply adds_only_bind; [|intros; apply adds_only_ret].
    apply adds_only_safe_call. exists page. split; [lia|done].
  - intros [[v t]|e]; [|apply adds_only_ret].
    assert (Hempty : adds_only
      (fun c => exists p, page <= p < page + Z.of_nat (S n)
                          /\ c = ("get_activities", page_request p)) Pw
      (if 2 <=? ep + 1 then mret acts
       else fetch_activities_loop cl year n (page + 1) (ep + 1) acts)).
    { destruct (2 <=? ep + 1); [apply adds_only_ret|apply Hnext]. }
    destruct v as [| | | |l|]; try exact Hempty.
    destruct l as [|act batch]; [exact Hempty|].
    destruct (scan_batch year (act :: batch)) as [hits has_older].
    destruct (match hits with [] => has_older | _ => false end);
      [apply adds_only_ret|apply Hnext].
Qed.

Lemma adds_only_workout_pages Pw remaining :
  forall start workouts,
    adds_only (fun c => exists k, 0 <= k < Z.of_nat remaining
                                  /\ c = ("get_workouts", workouts_request (start + 100 * k)))
              Pw (fetch_workouts_loop cl remaining start workouts).
Proof.
  induction remaining as [|n IH]; intros start wk; [apply adds_only_ret|].
  cbn [fetch_workouts_loop]. fold (workouts_request start). apply adds_only_bind.
  { apply adds_only_safe_call. exists 0. split; [lia|]. by rewrite Z.mul_0_r, Z.add_0_r. }
  intros [payload t]. destruct (extract_items payload) as [|i items];
    [apply adds_only_ret|].
  destruct (Z.of_nat (length (i :: items)) <? 100); [apply adds_only_ret|].
  eapply adds_only_mono; [| |apply IH]; [|done].
  intros c (k & Hk & ->). exists (k + 1). split; [lia|]. do 2 f_equal. lia.
Qed.

Lemma adds_only_bootstrap_requests Pw year :
  adds_only bootstrap_request Pw (build_seed_context cl year).
Proof.
  assert (Hcall : forall method (dflt : json),
    bootstrap_request (method, []) ->
    adds_only bootstrap_request Pw
      (call_or (fst <$> safe_call cl method [] 1) dflt)).
  { intros method dflt Hm. apply adds_only_try; [|intros; apply adds_only_ret].
    by apply adds_only_fmap, adds_only_safe_call. }
  unfold build_seed_context.
  apply adds_only_bind; [apply adds_only_lift|intros dates].
  apply adds_only_bind.
  { apply adds_only_try; [|intros; apply adds_only_ret].
    eapply adds_only_mono; [| |apply (adds_only_activity_pages Pw year 500 0 0 [])];
      [|done].
    intros c (p & Hp & ->). left. exists p. split; [lia|done]. }
  intros activities. cbv beta zeta. apply adds_only_bind.
  { apply adds_only_try; [|intros; apply adds_only_ret].
    eapply adds_only_mono; [| |apply (adds_only_workout_pages Pw 200 0 [])]; [|done].
    intros c (k & Hk & ->). right; left. exists k. split; [lia|done]. }
  intros workouts. cbv beta zeta.
  apply adds_only_bind; [apply Hcall; unfold bootstrap_request; tauto|intros devices].
  cbv beta zeta.
  apply adds_only_bind; [apply Hcall; unfold bootstrap_request; tauto|intros profile].
  cbv beta zeta.
  apply adds_only_bind; [apply Hcall; unfold bootstrap_request; tauto|intros last_used].
  cbv beta zeta.
  apply adds_only_bind; [apply adds_only_lift|intros numbers].
  apply adds_only_bind; [apply adds_only_lift|intros devs].
  apply adds_only_bind.
  { destruct numbers as [|first numbers]; [apply adds_only_ret|].
    apply adds_only_try; [|intros; apply adds_only_ret].
    apply adds_only_bind; [|intros []; apply adds_only_ret].
    apply adds_only_safe_call. unfold bootstrap_request. eauto 10. }
  intros gears. cbv beta zeta.
  apply adds_only_bind; [apply Hcall; unfold bootstrap_request; tauto|intros plans].
  cbv beta zeta.
  do 5 (apply adds_only_bind; [apply adds_only_lift|intros ?]).
  apply adds_only_ret.
Qed.

(** The construction of the seed context makes no other remote calls than
    these: at most 500 pages of 100 activities, at most 200 pages of 100
    workouts, the devices, the profile, the device last used, the gear of one
    profile number and the training plans. It writes no file. *)
Theorem bootstrap_requests year w r w' :
  build_seed_context cl year w = (r, w') ->
  (exists calls, w_calls w' = (w_calls w ++ calls)%list
                 /\ Forall bootstrap_request calls)
  /\ w_writes w' = w_writes w
  /\ w_files w' = w_files w.
Proof.
  intros H.
  pose proof (adds_only_bootstrap_requests (fun _ => False) year w r w' H)
    as [Hc (lw & Hw & Hall)].
  destruct lw as [|x lw]; [|by apply Forall_cons in Hall as [[] _]].
  rewrite app_nil_r in Hw. split; [done|]. split; [done|].
  destruct (follows_build_seed_context cl year w r w' H) as (lw' & Hw' & Hf).
  rewrite Hw in Hw'. rewrite <- (app_nil_r (w_writes w)) in Hw' at 1.
  apply app_inv_head in Hw' as <-. done.
Qed.

End BootstrapRequests.

Lemma bootstrap_requests_witness :
  (exists calls, w_calls partial_run.2 = (w_calls empty_world ++ calls)%list
                 /\ Forall bootstrap_request calls)
  /\ w_writes partial_run.2 = w_writes empty_world
  /\ w_files partial_run.2 = w_files empty_world.
Proof.
  apply (bootstrap_requests (partial_feed false) 2025 empty_world partial_run.1).
  vm_compute. reflexivity.
Defined.

(** ** The activities of the target year *)

(** An activity that the scan keeps: a dict whose start date is in [year]. *)
Definition in_year (year : Z) (a : json) : Prop :=
  is_dict a = true
  /\ Str.startswith (pretty year +:+ "-") (get_activity_date_str a) = true.

Lemma scan_batch_in_year year batch :
  Forall (in_year year) (scan_batch year batch).1.
Proof.
  unfold scan_batch.
  assert (H : forall acc : list json * bool,
    Forall (in_year year) acc.1 ->
    Forall (in_year year)
      (foldl
         (fun acc act =>
            if is_dict act then
              let date_str := get_activity_date_str act in
              if Str.startswith (pretty year +:+ "-") date_str
              then ((acc.1 ++ [act])%list, acc.2)
              else if negb (String.eqb date_str "")
                      && String.ltb date_str (pretty year +:+ "-01-01")
                   then (acc.1, true)
                   else acc
            else acc) acc batch).1).
  { induction batch as [|act batch IH]; intros acc Hacc; [done|].
    cbn [foldl]. apply IH. destruct (is_dict act) eqn:Hd; [|done]. cbv zeta.
    destruct (Str.startswith _ _) eqn:Hs.
    - cbn [fst]. apply Forall_app. split; [done|]. by repeat constructor.
    - by destruct (_ && _). }
  by apply H.
Qed.

Section ActivitiesOfYear.
Context {C : Type} (cl : client C).

(** Whatever [m] does, it returns activities of [year]. *)
Definition returns_in_year (year : Z) (m : M C (list json)) : Prop :=
  forall w r w', m w = (r, w') -> exists found, r = Ok found /\ Forall (in_year year) found.

Lemma fetch_activities_loop_in_year year remaining :
  forall page empty_pages activities,
    Forall (in_year year) activities ->
    returns_in_year year
      (fetch_activities_loop cl year remaining page empty_pages activities).
Proof.
  induction remaining as [|n IH]; intros page ep acts Hacts w r w' H.
  { injection H as <- <-. eauto. }
  cbn [fetch_activities_loop] in H.
  apply bind_res_inv in H as (r0 & w0 & Ha & H).
  apply attempt_inv in Ha.
  destruct (safe_call cl "get_activities" _ 1 w) as [[[v t]|e|] w1] eqn:Hs.
  - destruct Ha as [-> ->].
    assert (Hempty : forall T,
      (if 2 <=? ep + 1 then mret acts
       else fetch_activities_loop cl year n (page + 1) (ep + 1) acts) w1 = T ->
      T = (r, w') -> exists found, r = Ok found /\ Forall (in_year year) found).
    { intros T HT ->. destruct (2 <=? ep + 1); [injection HT as <- <-; eauto|].
      by eapply IH. }
    destruct v as [| | | |l|]; try (by eapply Hempty).
    destruct l as [|act batch]; [by eapply Hempty|].
    pose proof (scan_batch_in_year year (act :: batch)) as Hhits.
    destruct (scan_batch year (act :: batch)) as [hits has_older]. cbn [fst] in Hhits.
    assert (Hall : Forall (in_year year) (acts ++ hits)) by (by apply Forall_app).
    destruct (match hits with [] => has_older | _ => false end).
    + injection H as <- <-. eauto.
    + by eapply IH.
  - destruct Ha as [-> ->]. injection H as <- <-. eauto.
  - by apply safe_call_ext in Hs as [? _].
Qed.

Lemma fetch_activities_for_year_in_year year :
  returns_in_year year (fetch_activities_for_year cl year).
Proof. apply fetch_activities_loop_in_year. constructor. Qed.

(** Every activity that the bootstrap keeps is a dict whose start date is in
    the target year; so are the activities cached for [get_activities], and
    every activity id of the seed context is the [activityId] of one of
    them. *)
Theorem seed_activities_in_year year w ctx w' :
  1 <= year <= 9998 ->
  build_seed_context cl year w = (Ok ctx, w') ->
  exists activities,
    cached_method_data ctx !! "get_activities" = Some (JList activities)
    /\ Forall (in_year year) activities
    /\ forall id, id ∈ activity_ids ctx ->
         exists a, a ∈ activities /\ id = jget "activityId" a /\ truthy id = true.
Proof.
  intros Hy H.
  destruct (build_seed_context_steps cl year w (Ok ctx) w' Hy H) as (_ & _ & Hs).
  destruct (Hs ctx eq_refl)
    as (activities & workouts & devices & profile & last_used & gears & plans
        & w1 & w2 & w3 & w4 & w5 & w6 & Hact & _ & _ & _ & _ & _ & _ & Hcache & Hids & _).
  exists activities. split; [by rewrite Hcache|]. split.
  - destruct (fetch_activities_for_year_in_year year w _ _ Hact) as (found & Hfound & Hf).
    by injection Hfound as <-.
  - intros id Hid. apply sorted_set_spec in Hids as (_ & _ & Hsub).
    apply Hsub in Hid. unfold ids_truthy in Hid.
    change (map (jget "activityId")) with (fmap (M := list) (jget "activityId")) in Hid.
    apply list_elem_of_fmap in Hid as (a & -> & Ha).
    apply list_elem_of_filter in Ha as [Ht Ha].
    exists a. split; [done|]. split; [done|].
    apply Is_true_true, andb_true_iff in Ht as [_ Ht]. done.
Qed.

End ActivitiesOfYear.

Lemma seed_activities_in_year_witness :
  exists activities,
    cached_method_data partial_ctx !! "get_activities" = Some (JList activities)
    /\ Forall (in_year 2025) activities
    /\ forall id, id ∈ activity_ids partial_ctx ->
         exists a, a ∈ activities /\ id = jget "activityId" a /\ truthy id = true.
Proof.
  apply (seed_activities_in_year (partial_feed false) 2025 empty_world partial_ctx
           partial_run.2).
  - lia.
  - vm_compute. reflexivity.
Defined.

(** ** The pages that a paged run records *)

(** The arguments of the [i]-th page of a run that starts at cursor [p0]. *)
Definition page_at (base : kwargs) (p0 limit : Z) (i : nat) : kwargs :=
  page_kwargs base (p0 + Z.of_nat i * limit) limit.

(** The error entry of the page that failed, if one did. *)
Definition page_error (base : kwargs) (p0 limit : Z) (n : nat) (err : option string)
  : list error_item :=
  match err with
  | Some text => [mk_error (Some (page_at base p0 limit n)) text]
  | None => []
  end.

(** What a run adds to an envelope when its pages answer [responses], in
    order, and the page after them fails with [err]. *)
Definition pages_added (base : kwargs) (p0 limit : Z) (responses : list json)
    (err : option string) (e e1 : envelope) : Prop :=
  env_data e1
  = (env_data e ++ imap (fun i resp => mk_data (page_at base p0 limit i) resp) responses)%list
  /\ env_errors e1 = (env_errors e ++ page_error base p0 limit (length responses) err)%list
  /\ env_request_args e1
     = (env_request_args e
        ++ (page_at base p0 limit
              <$> seq 0 (length responses
                         + length (page_error base p0 limit (length responses) err))))%list.

(** A page with at least [limit] items. *)
Definition full_page (limit : Z) (response : json) : Prop :=
  limit <= Z.of_nat (length (extract_items response)).

(** Why the run went on and why it stopped: every page before the last
    request was full; every request is below the ceiling; without a failure
    the last page was not full or the next cursor is at the ceiling. *)
Definition pages_stop (p0 limit : Z) (responses : list json) (err : option string)
  : Prop :=
  (forall i resp, responses !! i = Some resp ->
     (S i < length responses)%nat \/ err <> None -> full_page limit resp)
  /\ (forall i : nat,
        (i < length responses + match err with Some _ => 1 | None => 0 end)%nat ->
        p0 + Z.of_nat i * limit < 20000)
  /\ (err = None ->
      match last responses with
      | Some resp =>
          ~ full_page limit resp \/ 20000 <= p0 + Z.of_nat (length responses) * limit
      | None => 20000 <= p0
      end).

Lemma page_at_0 base p0 limit : page_at base p0 limit 0 = page_kwargs base p0 limit.
Proof. unfold page_at. f_equal. lia. Qed.

Lemma page_at_S base p0 limit i :
  page_at base (p0 + limit) limit i = page_at base p0 limit (S i).
Proof. unfold page_at. f_equal. lia. Qed.

Lemma pages_added_none base p0 limit e : pages_added base p0 limit [] None e e.
Proof. unfold pages_added. cbn. by rewrite !app_nil_r. Qed.

Lemma pages_added_failure base p0 limit text took e :
  pages_added base p0 limit [] (Some text)
    e (record_failure (page_kwargs base p0 limit) text took e).
Proof.
  unfold pages_added, page_error. cbn [length Nat.add seq fmap list_fmap imap].
  rewrite page_at_0, app_nil_r. done.
Qed.

Lemma pages_added_success base p0 limit resp took responses err e e1 :
  pages_added base (p0 + limit) limit responses err
    (record_success (page_kwargs base p0 limit) resp took e) e1 ->
  pages_added base p0 limit (resp :: responses) err e e1.
Proof.
  unfold pages_added. intros (Hd & He & Ha).
  assert (Herr : page_error base (p0 + limit) limit (length responses) err
                 = page_error base p0 limit (S (length responses)) err).
  { destruct err; [|done]. cbn. by rewrite page_at_S. }
  rewrite Herr in He, Ha. cbn [length]. repeat split.
  - rewrite Hd. cbn [record_success recount add_duration set_stats add_data add_request
                     env_data]. rewrite <- app_assoc. f_equal.
    cbn [imap app]. rewrite page_at_0. f_equal.
    apply imap_ext. intros i x _. cbn. by rewrite page_at_S.
  - exact He.
  - rewrite Ha, record_success_args, <- app_assoc. f_equal.
    cbn [Nat.add seq fmap list_fmap app]. rewrite page_at_0. f_equal.
    rewrite <- fmap_S_seq, <- list_fmap_compose.
    apply list_fmap_ext. intros _ i _. cbn. by rewrite page_at_S.
Qed.

Lemma pages_stop_short p0 limit resp :
  p0 < 20000 -> ~ full_page limit resp -> pages_stop p0 limit [resp] None.
Proof.
  intros Hlt Hshort. repeat split.
  - intros i r Hi [Hlen|Hne]; [|done]. cbn in Hlen.
    apply lookup_lt_Some in Hi. cbn in Hi. lia.
  - cbn. intros i Hi. assert (i = 0)%nat as -> by lia. lia.
  - intros _. by left.
Qed.

Lemma pages_stop_failure p0 limit text :
  p0 < 20000 -> pages_stop p0 limit [] (Some text).
Proof.
  intros Hlt. repeat split; [done| |done]. cbn. intros i Hi.
  assert (i = 0)%nat as -> by lia. lia.
Qed.

Lemma pages_stop_full p0 limit resp responses err :
  0 < limit -> p0 < 20000 -> full_page limit resp ->
  pages_stop (p0 + limit) limit responses err ->
  pages_stop p0 limit (resp :: responses) err.
Proof.
  intros Hlim Hlt Hfull (Hpages & Hbelow & Hend). repeat split.
  - intros [|i] r Hi Hmore; [by injection Hi as <-|].
    apply (Hpages i r Hi). cbn [length] in Hmore. destruct Hmore; [left; lia | by right].
  - intros [|i] Hi; [lia|]. cbn [length] in Hi.
    specialize (Hbelow i ltac:(lia)). rewrite Nat2Z.inj_succ, Z.mul_succ_l. lia.
  - intros Hnone. specialize (Hend Hnone). cbn [length].
    rewrite Nat2Z.inj_succ, Z.mul_succ_l.
    destruct responses as [|r2 rest].
    + cbn in Hend |- *. right. lia.
    + change (last (resp :: r2 :: rest)) with (last (r2 :: rest)).
      destruct (last (r2 :: rest)) eqn:Hlast; [|by apply last_None in Hlast].
      destruct Hend as [?|Hend]; [by left|right]. lia.
Qed.

Section PagedPages.
Context {C : Type} (cl : client C).

Lemma paged_loop_pages method base limit out :
  0 < limit ->
  forall fuel page_start elapsed e w r w',
    20000 - page_start <= Z.of_nat fuel * limit ->
    paged_loop cl method base limit (Some (on_paged_chunk_done out)) fuel
               page_start elapsed e w = (r, w') ->
    exists el e1 responses err,
      r = Ok (el, e1)
      /\ pages_added base page_start limit responses err e e1
      /\ pages_stop page_start limit responses err.
Proof.
  intros Hlim. induction fuel as [|fuel IH]; intros page_start elapsed e w r w' Hfuel H;
    unfold paged_loop in H; fold (@paged_loop C cl envelope) in H;
    destruct (page_start <? 20000) eqn:Hlt;
    try (injection H as <- <-; exists elapsed, e, [], None;
         split; [done|]; split; [apply pages_added_none|];
         apply Z.ltb_ge in Hlt; repeat split; [done|cbn; intros; lia|done]).
  { apply Z.ltb_lt in Hlt. cbn in Hfuel. lia. }
  apply Z.ltb_lt in Hlt.
  fold (page_kwargs base page_start limit) in H.
  apply bind_res_inv in H as (r1 & w1 & Ha & H).
  apply attempt_inv in Ha.
  destruct (safe_call cl method (page_kwargs base page_start limit) 1 w)
    as [[[result took]|exc|] w1'] eqn:Hsc; destruct Ha as [-> ->].
  - apply bind_res_inv in H as (r2 & w2 & Hcb & H).
    apply callback_inv in Hcb as (e' & -> & _ & ->). cbn [default] in H.
    rewrite serialize_response_data_id in H.
    assert (Hshort : forall T,
      T = (r, w') -> T = (Ok (elapsed + took,
                 record_success (page_kwargs base page_start limit) result took e), w2) ->
      ~ full_page limit result ->
      exists el e1 responses err,
        r = Ok (el, e1)
        /\ pages_added base page_start limit responses err e e1
        /\ pages_stop page_start limit responses err).
    { intros T -> [= -> ->] Hs. eexists _, _, [result], None. split; [done|]. split.
      - apply (pages_added_success _ _ _ _ took), pages_added_none.
      - by apply pages_stop_short. }
    destruct (extract_items result) as [|it items] eqn:Hitems.
    { eapply Hshort; [exact H|done|]. unfold full_page. rewrite Hitems. cbn. lia. }
    destruct (Z.of_nat (length (it :: items)) <? limit) eqn:Hlen.
    { eapply Hshort; [exact H|done|]. unfold full_page. rewrite Hitems.
      apply Z.ltb_lt in Hlen. lia. }
    apply IH in H as (el & e1 & responses & err & -> & Hadd & Hstop); [|lia].
    exists el, e1, (result :: responses), err. split; [done|]. split.
    + by eapply pages_added_success.
    + apply pages_stop_full; try done. unfold full_page. rewrite Hitems.
      apply Z.ltb_ge in Hlen. lia.
  - apply bind_res_inv in H as (r2 & w2 & Hcb & H).
    apply callback_inv in Hcb as (e' & -> & _ & ->). injection H as <- <-.
    eexists _, _, [], (Some (exn_str exc)). split; [done|]. split.
    + apply pages_added_failure.
    + by apply pages_stop_failure.
  - by apply safe_call_ext in Hsc as [? _].
Qed.

(** A run of a paged method that is not answered from the seed cache returns
    an envelope, and adds to the prior envelope the pages at the consecutive
    cursors from the resume cursor with page size 100: one data entry for
    each page that answered, and at most one error, for the request after
    them.  Every page before the last request held at least 100 items, every
    request is below cursor 20000, and without a failure the run ended on a
    page of fewer than 100 items or at the ceiling. *)
Theorem paged_run_pages spec ctx incl out existing w r w' :
  classify_call_type (ms_method spec) (ms_signature spec) = paged ->
  usable_cache (cached_method_data ctx !! ms_method spec) = None
  \/ env_data (start_envelope spec ctx existing) <> [] ->
  execute_method_for_year cl spec ctx incl out existing w = (r, w') ->
  let e0 := start_envelope spec ctx existing in
  let p0 := Z.max 0 (resume_cursor e0) in
  exists e1 responses err,
    r = Ok e1
    /\ pages_added (paged_extra (ms_method spec)) p0 100 responses err e0 e1
    /\ pages_stop p0 100 responses err.
Proof.
  intros Hct Hcache H e0 p0. apply execute_method_inv in H.
  destruct H as [(cached & Hu & Hd & _) | (_ & [[_ Hp] | [Hct' _]])].
  - destruct Hcache as [Hnone|Hdata]; [by rewrite Hnone in Hu | done].
  - destruct Hp as (r1 & Hl & ->).
    apply paged_loop_pages in Hl as (el & e1 & responses & err & -> & Hadd & Hstop);
      [|lia|by apply paged_fuel_enough].
    by exists (set_status (final_status_paged (env_stats e1)) e1), responses, err.
  - by rewrite Hct in Hct'.
Qed.

End PagedPages.

Lemma paged_run_pages_witness :
  exists e1 responses err,
    activities_resumed.1 = Ok e1
    /\ pages_added (paged_extra (ms_method activities_spec))
         (Z.max 0 (resume_cursor (start_envelope activities_spec plain_ctx
                                                 (Some two_pages_done))))
         100 responses err
         (start_envelope activities_spec plain_ctx (Some two_pages_done)) e1
    /\ pages_stop
         (Z.max 0 (resume_cursor (start_envelope activities_spec plain_ctx
                                                 (Some two_pages_done))))
         100 responses err.
Proof.
  apply (paged_run_pages late_devices activities_spec plain_ctx true None
           (Some two_pages_done) empty_world activities_resumed.1 activities_resumed.2).
  - reflexivity.
  - right. vm_compute. discriminate.
  - vm_compute. reflexivity.
Defined.

(** ** Planned calls pass declared parameters *)

(** Every keyword of [kw] is one of [params]. *)
Definition keys_in (params : list string) (kw : kwargs) : Prop :=
  Forall (fun k => k ∈ params) (map fst kw).

Lemma mem_elem x l : Str.mem x l = true -> x ∈ l.
Proof.
  unfold Str.mem. intros H. apply existsb_exists in H as (y & Hy & He).
  apply String.eqb_eq in He as ->. by apply list_elem_of_In.
Qed.

Lemma dict_set_keys params k v kw :
  k ∈ params -> keys_in params kw -> keys_in params (dict_set k v kw).
Proof.
  unfold keys_in. intros Hk. induction kw as [|[k' v'] kw IH]; intros H; cbn.
  - by repeat constructor.
  - apply Forall_cons in H as [Hk' H]. destruct (String.eqb k' k); cbn.
    + by constructor.
    + constructor; [done | by apply IH].
Qed.

Lemma set_if_keys params c k v kw :
  (c = true -> k ∈ params) -> keys_in params kw -> keys_in params (set_if c k v kw).
Proof.
  unfold set_if. intros Hc H. destruct c; [|done]. by apply dict_set_keys; [apply Hc|].
Qed.

Lemma dict_get_key {A} k (d : list (string * A)) v :
  dict_get k d = Some v -> k ∈ map fst d.
Proof.
  induction d as [|[k' v'] d IH]; cbn; [done|].
  destruct (String.eqb k' k) eqn:E.
  - apply String.eqb_eq in E as ->. intros _. by left.
  - intros H. right. by apply IH.
Qed.

Lemma first_id_param_declared table params param seed_key :
  first_id_param table params = Some (param, seed_key) -> param ∈ params.
Proof.
  induction table as [|[p s] table IH]; cbn; [done|].
  destruct (Str.mem p params) eqn:E; [|done].
  intros [= <- _]. by apply mem_elem.
Qed.

Lemma single_keys {A} params k (g : A -> json) (l : list A) :
  k ∈ params -> Forall (keys_in params) (map (fun x => [(k, g x)]) l).
Proof.
  intros Hk. induction l as [|x l IH]; cbn; constructor; [|done].
  by repeat constructor.
Qed.

(** Whatever the call type but [special], whose calls are written out in the
    code, every call that the planner returns passes only keywords that the
    signature of the method declares. *)
Theorem planned_kwargs_declared method signature ct ctx incl plan reason :
  ct <> special ->
  build_calls_for_method method signature ct ctx incl = Ok (plan, reason) ->
  Forall (keys_in (parse_signature_params signature)) plan.
Proof.
  intros Hct. unfold build_calls_for_method.
  set (params := parse_signature_params signature).
  assert (Hids : forall param seed_key,
    first_id_param ID_PARAM_TO_SEED_KEY params = Some (param, seed_key) ->
    match ctx_get seed_key ctx with
    | [] => Ok ([], Some ("missing_seed:" +:+ seed_key))
    | ids => Ok (map (fun id_value => [(param, id_value)]) ids, None)
    end = Ok (plan, reason) ->
    Forall (keys_in params) plan).
  { intros param seed_key Hp H. apply first_id_param_declared in Hp.
    destruct (ctx_get seed_key ctx) as [|i ids]; [by injection H as <- _|].
    injection H as <- _. by apply (single_keys params param (fun v => v) (i :: ids)). }
  destruct ct; try done.
  - intros [= <- _]. by repeat constructor.
  - destruct (Str.mem "cdate" params) eqn:Hc; [|destruct (Str.mem "fordate" params) eqn:Hf;
      [|destruct params as [|p rest] eqn:Hp; [done|]]];
      cbn; intros [= <- _]; apply (single_keys _ _ JStr).
    + by apply mem_elem.
    + by apply mem_elem.
    + by left.
  - cbv zeta.
    set (kw5 := set_if _ "end" _ _).
    assert (Hk : keys_in params kw5).
    { subst kw5.
      repeat (apply set_if_keys;
              [intros Hm; try (apply andb_true_iff in Hm as [? ?]); by apply mem_elem|]).
      constructor. }
    clearbody kw5. destruct kw5 as [|entry kw5]; [by intros [= <- _]|].
    set (kw := entry :: kw5) in *.
    assert (Hone : Ok ([kw], None) = Ok (plan, reason) -> Forall (keys_in params) plan).
    { intros [= <- _]. constructor; [exact Hk | constructor]. }
    destruct (String.eqb method "get_body_battery"); [|exact Hone].
    destruct (dict_get "startdate" kw) as [[| | |s| |]|] eqn:Hs; try exact Hone.
    destruct (dict_get "enddate" kw) as [[| | |e| |]|] eqn:He; try exact Hone.
    apply dict_get_key in Hs, He.
    unfold keys_in in Hk. rewrite Forall_forall in Hk.
    destruct (chunk_date_range s e 31) as [chunks| |]; cbn; [|done..].
    intros [= <- _]. clear Hids Hone.
    induction chunks as [|c chunks IH]; cbn; constructor; [|done].
    repeat constructor; cbn; by apply Hk.
  - intros [= <- _]. repeat constructor.
    repeat (apply set_if_keys; [by apply mem_elem|]). constructor.
  - intros [= <- _]. constructor.
  - destruct (first_id_param ID_PARAM_TO_SEED_KEY params) as [[param seed_key]|] eqn:Hp;
      [by eapply Hids | by intros [= <- _]].
  - destruct (negb incl); [by intros [= <- _]|].
    destruct (first_id_param ID_PARAM_TO_SEED_KEY params) as [[param seed_key]|] eqn:Hp;
      [by eapply Hids | by intros [= <- _]].
  - intros [= <- _]. constructor.
Qed.

Definition battery_calls : list kwargs * option string :=
  ok_or ([], None)
    (build_calls_for_method "get_body_battery" "get_body_battery(startdate, enddate=None)"
                            date_range plain_ctx true).

Lemma planned_kwargs_declared_witness :
  Forall (keys_in (parse_signature_params "get_body_battery(startdate, enddate=None)"))
         battery_calls.1.
Proof.
  apply (planned_kwargs_declared "get_body_battery"
           "get_body_battery(startdate, enddate=None)" date_range plain_ctx true
           battery_calls.1 battery_calls.2).
  - discriminate.
  - vm_compute. reflexivity.
Defined.
